(** * NPS / Kano data generators: a shallow embedding

    The three scripts of the repository ([gen_kano_data.py],
    [gen_lojistas_js_final.py], [gen_nps_matrix_final.py]) are pandas
    pipelines over one long-format survey table.  A data frame is a list
    of rows in file order, a numeric column is a list of rationals, a
    missing cell (NaN) is [None], a dictionary is an association list in
    insertion order.

    A float64 is kept as the rational it denotes.  What the scripts
    compute from counts (a quotient, its product with 100, the rounding
    to decimals) and every mean is computed as numpy does, one float64
    operation after the other, each rounded to the nearest float64 by
    [fl].  A rounded result is kept as the decimal [k / 10^d] that
    [json.dumps] and [print] write for it.  Scores are taken as the table
    gives them and are divided by 10 exactly; their comparisons with 6, 7,
    8, 9 and 10 come out as in float64.  The sum of a column is exact: the
    order in which numpy and pandas add depends on their version, and
    with integer or half-integer scores every order gives this sum.  A
    Pearson correlation is the value of a library routine; it is kept as
    the mathematical quotient, symbolically, so that its comparisons stay
    decidable.  Text is ASCII.

    Each script is a module; the definitions carry the names of the
    variables and functions they embed.  The vocabulary of the
    specification and the properties follow. *)

From Stdlib Require Import ZArith QArith Qround Qabs Qpower List Bool String Ascii.
From Stdlib Require Import Reals Qreals.
From Stdlib Require Lra.
From Stdlib Require Import Lia Lqa Permutation Sorted.
Import ListNotations.

Local Open Scope string_scope.
Local Open Scope Q_scope.

(** ** Numbers as numpy sees them *)

Definition Qleb (x y : Q) : bool := Qle_bool x y.
Definition Qltb (x y : Q) : bool := negb (Qle_bool y x).

(** [rint]: round to the nearest integer, ties to the even one. *)
Definition rint (x : Q) : Z :=
  let f := Qfloor x in
  match Qcompare (x - inject_Z f) (1 # 2) with
  | Lt => f
  | Gt => (f + 1)%Z
  | Eq => if Z.even f then f else (f + 1)%Z
  end.

(** *** float64

    [fl x] is the float64 nearest to [x], ties to the even mantissa: the
    mantissa has 53 bits, the exponent of the last bit is at least -1074
    (subnormal numbers).  The exponent has no upper limit here; the
    numbers of these scripts stay far below [2^1024]. *)
Definition pow2 (e : Z) : Q := 2 ^ e.

(** The binade of [x <> 0]: [2^(ilog2 x) <= |x| < 2^(ilog2 x + 1)]. *)
Definition ilog2 (x : Q) : Z :=
  let l := (Z.log2 (Z.abs (Qnum x)) - Z.log2 (Zpos (Qden x)))%Z in
  if Qleb (pow2 l) (Qabs x) then l else (l - 1)%Z.

(** The exponent of the last bit of the mantissa. *)
Definition fexp (x : Q) : Z := Z.max (ilog2 x - 52) (-1074).

Definition fl (x : Q) : Q :=
  if Qeq_bool x 0 then 0
  else inject_Z (rint (x / pow2 (fexp x))) * pow2 (fexp x).

(** [x / y] and [x * y] on float64. *)
Definition fdiv (x y : Q) : Q := fl (x / y).
Definition fmul (x y : Q) : Q := fl (x * y).

(** [round(x, d)] on a numpy float64 ([np.float64.__round__], which is
    [np.round]): multiply by [10^d] in float64, [rint], divide by [10^d].
    The quotient is the float64 nearest to [k / 10^d]; it is written out
    as that decimal, which is what is kept. *)
Definition round (x : Q) (d : nat) : Q :=
  let p := inject_Z (10 ^ Z.of_nat d) in
  inject_Z (rint (fmul x p)) / p.

(** [round(x, d)] on a Python float: the decimal nearest to the exact
    value of [x], ties to the even digit. *)
Definition py_round (x : Q) (d : nat) : Q :=
  let p := inject_Z (10 ^ Z.of_nat d) in
  inject_Z (rint (x * p)) / p.

(** [mask.sum()] on a boolean array. *)
Definition np_sum (mask : list bool) : Z :=
  fold_right (fun (b : bool) acc => ((if b then 1 else 0) + acc)%Z) 0%Z mask.

Definition Qsum (l : list Q) : Q := fold_right Qplus 0 l.

Definition len {A} (l : list A) : Z := Z.of_nat (List.length l).

(** The mean of a list of numbers. *)
Definition Qmean (l : list Q) : Q := Qsum l / inject_Z (len l).

(** [.mean()] of a column without missing cells: the sum over the length,
    a float64 division. *)
Definition np_mean (l : list Q) : Q := fdiv (Qsum l) (inject_Z (len l)).

(** [.max()]: [None] stands for the NaN of an empty column. *)
Definition np_max (l : list Q) : option Q :=
  match l with
  | [] => None
  | x :: t => Some (fold_left (fun m y => if Qltb m y then y else m) t x)
  end.

(** [col.max() > 10]; a comparison with NaN is false. *)
Definition max_gt_10 (l : list Q) : bool :=
  match np_max l with
  | Some m => Qltb 10 m
  | None => false
  end.

(** [notes / 10] *)
Definition div10 (l : list Q) : list Q := map (fun x => x / 10) l.

(** [if notes.max() > 10: notes = notes / 10], the idiom every script
    applies to the score column of the frame at hand. *)
Definition rescale (notes : list Q) : list Q :=
  if max_gt_10 notes then div10 notes else notes.

(** The three band masks shared by every script. *)
Definition is_prom (x : Q) : bool := Qleb 9 x.
Definition is_pass (x : Q) : bool := Qleb 7 x && Qleb x 8.
Definition is_det (x : Q) : bool := Qleb x 6.

(** ** The survey table *)

(** A cell of the column of survey labels: a text, or anything else (NaN
    for a missing cell, a number when the whole column is numeric), kept
    as what [str] makes of it. *)
Inductive cell :=
| Str (s : string)
| NotStr (repr : string).

(** A row of the table.  The entity code, the comment and the store name
    are texts, or [None] for a missing cell. *)
Record Row := mkRow {
  ResponseID : string;
  Pesquisa : cell;
  Tema : string;
  Momento : string;
  ShoppingCode : option string;
  Nota : Q;
  Comentario : option string;
  Loja : option string
}.

Definition DataFrame := list Row.

(** ['tok' in p] *)
Fixpoint contains (tok s : string) : bool :=
  String.prefix tok s ||
  match s with
  | EmptyString => false
  | String _ s' => contains tok s'
  end.

Definition eq_opt (a : option string) (b : string) : bool :=
  match a with
  | Some x => String.eqb x b
  | None => false
  end.

(** [drop_duplicates(subset=['Period', 'ResponseID'], keep='first')] and
    [unique()], both in order of first appearance. *)
Fixpoint keep_first {A} (same : A -> A -> bool) (seen l : list A) : list A :=
  match l with
  | [] => []
  | x :: t =>
      if existsb (same x) seen then keep_first same seen t
      else x :: keep_first same (x :: seen) t
  end.

Definition drop_duplicates {A} (same : A -> A -> bool) (l : list A) : list A :=
  keep_first same [] l.

Definition unique (l : list string) : list string :=
  drop_duplicates String.eqb l.

(** [.dropna()] on a column with missing cells. *)
Fixpoint dropna {A} (l : list (option A)) : list A :=
  match l with
  | [] => []
  | Some x :: t => x :: dropna t
  | None :: t => dropna t
  end.

(** [sorted(...)], and the key order of [groupby]. *)
Fixpoint insert_by {A} (leb : A -> A -> bool) (x : A) (l : list A) : list A :=
  match l with
  | [] => [x]
  | y :: t => if leb x y then x :: l else y :: insert_by leb x t
  end.

Definition sorted_by {A} (leb : A -> A -> bool) (l : list A) : list A :=
  fold_right (insert_by leb) [] l.

Definition sorted (l : list string) : list string := sorted_by String.leb l.

(** [d[k] = v] on a dictionary: a new key goes to the end, a key already
    there keeps its place and takes the new value. *)
Definition dict_set {V} (d : list (string * V)) (k : string) (v : V)
  : list (string * V) :=
  if existsb (fun kv => String.eqb (fst kv) k) d
  then map (fun kv => if String.eqb (fst kv) k then (k, v) else kv) d
  else d ++ [(k, v)].

Definition TARGET : string := "O Shopping".
Definition Fim : string := "Fim".

(** ** gen_lojistas_js_final.py *)
Module Lojistas.

Definition map_period (p : cell) : string :=
  match p with
  | NotStr repr => repr
  | Str p =>
      if contains "2024/1" p then "2024/1"
      else if contains "2024/2" p then "2024/2"
      else if contains "2025" p then "2025"
      else p
  end.

Definition Period (r : Row) : string := map_period (Pesquisa r).

Definition df_nps (df : DataFrame) : DataFrame :=
  filter (fun r => String.eqb (Tema r) TARGET) df.

Definition same_response (a b : Row) : bool :=
  String.eqb (Period a) (Period b) && String.eqb (ResponseID a) (ResponseID b).

Definition df_final (df : DataFrame) : DataFrame :=
  drop_duplicates same_response
    (filter (fun r => String.eqb (Momento r) Fim) (df_nps df)).

Record Metrics := mkMetrics {
  period : string;
  nps : Q;
  total : Z;
  prom_pct : Q;
  pass_pct : Q;
  det_pct : Q;
  prom_abs : Z;
  pass_abs : Z;
  det_abs : Z
}.

Definition calculate_metrics (df_sub : DataFrame) (period_name : string)
  : option Metrics :=
  let total := len df_sub in
  if (total =? 0)%Z then None
  else
    let notes := rescale (map Nota df_sub) in
    let prom := np_sum (map is_prom notes) in
    let passives := np_sum (map is_pass notes) in
    let det := np_sum (map is_det notes) in
    let nps := fmul (fdiv (inject_Z (prom - det)) (inject_Z total)) 100 in
    Some {| period := period_name;
            nps := round nps 1;
            total := total;
            prom_pct := round (fmul (fdiv (inject_Z prom) (inject_Z total)) 100) 1;
            pass_pct := round (fmul (fdiv (inject_Z passives) (inject_Z total)) 100) 1;
            det_pct := round (fmul (fdiv (inject_Z det) (inject_Z total)) 100) 1;
            prom_abs := prom;
            pass_abs := passives;
            det_abs := det |}.

Definition target_periods : list string := ["2024/1"; "2024/2"; "2025"].

Definition shoppings (df : DataFrame) : list string :=
  sorted (unique (dropna (map ShoppingCode (df_final df)))).

(** The loop [for p in target_periods: ... if metrics: append]. *)
Definition per_period (frame : DataFrame) : list Metrics :=
  dropna (map (fun p =>
    calculate_metrics (filter (fun r => String.eqb (Period r) p) frame) p)
    target_periods).

(** The dictionary [output], in insertion order: one entry per entity
    code, then [output['GLOBAL'] = global_data], which replaces the entry
    of an entity coded GLOBAL. *)
Definition output (df : DataFrame) : list (string * list Metrics) :=
  dict_set
    (map (fun shop =>
            (shop, per_period (filter (fun r => eq_opt (ShoppingCode r) shop)
                                      (df_final df))))
         (shoppings df))
    "GLOBAL" (per_period (df_final df)).

(** The 0-10 histogram of the 2025 scores (lines 110-118), computed once
    the look-ups of [script] below have passed. *)
Definition dist_arr (df : DataFrame) : list Z :=
  let df_2025 := filter (fun r => String.eqb (Period r) "2025") (df_final df) in
  let notes := rescale (map Nota df_2025) in
  map (fun i => np_sum (map (fun x => Qeq_bool x (inject_Z (Z.of_nat i))) notes))
      (seq 0 11).

(** What a run leaves behind.  After the dictionary is built the script
    reads [output['SDI']] (lines 105-106), which raises [KeyError] when no
    entity is coded SDI; only after that does it compute the histogram and
    write the dictionary to [lojistas_data.js]. *)
Inductive Run :=
| Saved (js : list (string * list Metrics)) (dist : list Z)
| KeyError (key : string).

Definition script (df : DataFrame) : Run :=
  if existsb (fun kv => String.eqb (fst kv) "SDI") (output df)
  then Saved (output df) (dist_arr df)
  else KeyError "SDI".

End Lojistas.

(** ** gen_nps_matrix_final.py *)
Module Matrix.

Definition map_period := Lojistas.map_period.
Definition Period (r : Row) : string := map_period (Pesquisa r).

Definition df_nps (df : DataFrame) : DataFrame :=
  filter (fun r => String.eqb (Tema r) TARGET) df.

Definition same_response (a b : Row) : bool :=
  String.eqb (Period a) (Period b) && String.eqb (ResponseID a) (ResponseID b).

Definition df_fim (df : DataFrame) : DataFrame :=
  drop_duplicates same_response
    (filter (fun r => String.eqb (Momento r) Fim) (df_nps df)).

(** The [pd.Series] a group is reduced to; [NPS = None] is NaN. *)
Record Series := mkSeries {
  N : Z;
  Det : Z;
  Neu : Z;
  Prom : Z;
  NPS : option Q
}.

Definition get_metrics (x : DataFrame) : Series :=
  let total := len x in
  if (total =? 0)%Z then
    {| N := 0; Det := 0; Neu := 0; Prom := 0; NPS := None |}
  else
    let notes := rescale (map Nota x) in
    let prom := np_sum (map is_prom notes) in
    let passives := np_sum (map is_pass notes) in
    let det := np_sum (map is_det notes) in
    let nps := fmul (fdiv (inject_Z (prom - det)) (inject_Z total)) 100 in
    {| N := total; Det := det; Neu := passives; Prom := prom; NPS := Some nps |}.

(** Keys of [groupby(['ShoppingCode', 'Period'])]: rows whose entity code
    is missing belong to no group; keys come out sorted. *)
Definition key_leb (a b : string * string) : bool :=
  String.ltb (fst a) (fst b) ||
  (String.eqb (fst a) (fst b) && String.leb (snd a) (snd b)).

Definition key_eqb (a b : string * string) : bool :=
  String.eqb (fst a) (fst b) && String.eqb (snd a) (snd b).

Definition row_key (r : Row) : option (string * string) :=
  match ShoppingCode r with
  | Some s => Some (s, Period r)
  | None => None
  end.

Definition group_keys (frame : DataFrame) : list (string * string) :=
  sorted_by key_leb (drop_duplicates key_eqb (dropna (map row_key frame))).

Definition group (frame : DataFrame) (k : string * string) : DataFrame :=
  filter (fun r => eq_opt (ShoppingCode r) (fst k) && String.eqb (Period r) (snd k))
         frame.

Definition grouped (df : DataFrame) : list (string * string * Series) :=
  map (fun k => (k, get_metrics (group (df_fim df) k)))
      (group_keys (df_fim df)).

Definition period_group (frame : DataFrame) (p : string) : DataFrame :=
  filter (fun r => String.eqb (Period r) p) frame.

Definition portfolio (df : DataFrame) : list (string * string * Series) :=
  map (fun p => (("PORTFOLIO", p), get_metrics (period_group (df_fim df) p)))
      (sorted (unique (map Period (df_fim df)))).

(** The rows of the printed table, by entity code, then period. *)
Definition final_df (df : DataFrame) : list (string * string * Series) :=
  sorted_by (fun a b => key_leb (fst a) (fst b)) (grouped df ++ portfolio df).

End Matrix.

(** ** Pearson correlation

    [Series.corr] is [cov(x,y) / sqrt(var x * var y)], an irrational number
    in general, which the library computes in float64.  Here it is the
    mathematical value, kept symbolically as [num / sqrt den2] with
    [den2 > 0]; every comparison with a rational constant and the rounding
    to three decimals are then decided exactly.  A zero variance makes the
    quotient 0/0, which numpy returns as NaN. *)
Inductive corr :=
| NaN
| Ratio (num den2 : Q).

Definition corr_of_Q (q : Q) : corr := Ratio q 1.

(** The real number [Ratio n d] stands for. *)
Definition corr_real (n d : Q) : R := (Q2R n / sqrt (Q2R d))%R.

(** [r < c]; false on NaN like every float comparison. *)
Definition corr_ltb (r : corr) (c : Q) : bool :=
  match r with
  | NaN => false
  | Ratio n d =>
      if Qltb 0 c then Qltb n 0 || Qltb (n * n) (c * c * d)
      else Qltb n 0 && Qltb (c * c * d) (n * n)
  end.

(** [r >= c]; false on NaN. *)
Definition corr_geb (r : corr) (c : Q) : bool :=
  match r with
  | NaN => false
  | Ratio _ _ => negb (corr_ltb r c)
  end.

(** Sample covariance, [ddof = 1]. *)
Definition cov (xs ys : list Q) : Q :=
  let mx := Qmean xs in
  let my := Qmean ys in
  Qsum (map (fun p => (fst p - mx) * (snd p - my)) (combine xs ys))
  / inject_Z (len xs - 1).

Definition pearson (xs ys : list Q) : corr :=
  let d := cov xs xs * cov ys ys in
  if Qeq_bool d 0 then NaN else Ratio (cov xs ys) d.

(** [rint] of [sqrt q] for [q >= 0], through the integer square root of
    [4q]: [sqrt q] lies in [[m/2, (m+1)/2)]. *)
Definition rint_sqrt (q : Q) : Z :=
  let m := Z.sqrt (Qfloor (4 * q)) in
  let j := (m / 2)%Z in
  if Z.even m then j
  else if Qeq_bool (4 * q) (inject_Z (m * m)) then
         (if Z.even j then j else (j + 1)%Z)
       else (j + 1)%Z.

(** [round(r, 3)] of a correlation that is not NaN. *)
Definition corr_round3 (n d : Q) : Q :=
  let k := rint_sqrt (1000000 * (n * n) / d) in
  inject_Z (if Qltb n 0 then (- k)%Z else k) / 1000.

(** ** gen_kano_data.py *)
Module Kano.

Definition map_period (p : cell) : string :=
  match p with
  | NotStr repr => repr
  | Str p => if contains "2025" p then "2025" else p
  end.

Definition Period (r : Row) : string := map_period (Pesquisa r).

Definition df_2025_raw (df : DataFrame) : DataFrame :=
  filter (fun r => String.eqb (Period r) "2025") df.

Definition valid_ids (df : DataFrame) : list string :=
  unique (map ResponseID
    (filter (fun r => String.eqb (Tema r) TARGET && String.eqb (Momento r) Fim)
            (df_2025_raw df))).

Definition isin (x : string) (l : list string) : bool :=
  existsb (String.eqb x) l.

Definition condition (r : Row) : bool :=
  (String.eqb (Tema r) TARGET && String.eqb (Momento r) Fim)
  || negb (String.eqb (Tema r) TARGET).

(** The frame after both filters, before the scores are rescaled. *)
Definition df_2025_selected (df : DataFrame) : DataFrame :=
  filter condition
    (filter (fun r => isin (ResponseID r) (valid_ids df)) (df_2025_raw df)).

Definition set_Nota (r : Row) (v : Q) : Row :=
  {| ResponseID := ResponseID r; Pesquisa := Pesquisa r; Tema := Tema r;
     Momento := Momento r; ShoppingCode := ShoppingCode r; Nota := v;
     Comentario := Comentario r; Loja := Loja r |}.

(** [if df['Nota'].max() > 10: df['Nota'] = df['Nota'] / 10] *)
Definition normalize (frame : DataFrame) : DataFrame :=
  if max_gt_10 (map Nota frame)
  then map (fun r => set_Nota r (Nota r / 10)) frame
  else frame.

Definition df_2025 (df : DataFrame) : DataFrame :=
  normalize (df_2025_selected df).

(** [shop_map]: the (id, code) pairs without repetition; [to_dict] lets a
    later pair overwrite an earlier one with the same id. *)
Definition opt_eqb (a b : option string) : bool :=
  match a, b with
  | Some x, Some y => String.eqb x y
  | None, None => true
  | _, _ => false
  end.

Definition shop_map (frame : DataFrame) : list (string * option string) :=
  drop_duplicates
    (fun a b => String.eqb (fst a) (fst b) && opt_eqb (snd a) (snd b))
    (map (fun r => (ResponseID r, ShoppingCode r)) frame).

Definition dict_get {V} (d : list (string * option V)) (k : string) : option V :=
  match find (fun kv => String.eqb (fst kv) k) (rev d) with
  | Some kv => snd kv
  | None => None
  end.

(** One line of the pivot: the respondent, one cell per topic column (NaN
    where the respondent has no row for the topic) and the entity code. *)
Record PivotRow := mkPivotRow {
  index : string;
  cells : list (string * option Q);
  code : option string
}.

Record Pivot := mkPivot {
  columns : list string;
  rows : list PivotRow
}.

Definition cell_mean (frame : DataFrame) (rid tema : string) : option Q :=
  match map Nota (filter (fun r => String.eqb (ResponseID r) rid
                                   && String.eqb (Tema r) tema) frame) with
  | [] => None
  | l => Some (np_mean l)
  end.

Definition pivot_of (frame : DataFrame) : Pivot :=
  let temas := sorted (unique (map Tema frame)) in
  {| columns := if isin "ShoppingCode" temas then temas
                else temas ++ ["ShoppingCode"];
     rows := map (fun rid =>
               {| index := rid;
                  cells := map (fun t => (t, cell_mean frame rid t)) temas;
                  code := dict_get (shop_map frame) rid |})
               (sorted (unique (map ResponseID frame))) |}.

Definition pivot (df : DataFrame) : Pivot := pivot_of (df_2025 df).

Definition themes_of (pv : Pivot) : list string :=
  filter (fun c => negb (isin c [TARGET; "ShoppingCode"])) (columns pv).

Definition themes (df : DataFrame) : list string := themes_of (pivot df).

(** [row[t]] in the pivot. *)
Definition cell (r : PivotRow) (t : string) : option Q :=
  match find (fun kv => String.eqb (fst kv) t) (cells r) with
  | Some kv => snd kv
  | None => None
  end.

(** [df_sub[[t, TARGET]].dropna()] *)
Definition valid_pairs (df_sub : Pivot) (t : string) : list (Q * Q) :=
  dropna (map (fun r => match cell r t, cell r TARGET with
                        | Some x, Some y => Some (x, y)
                        | _, _ => None
                        end) (rows df_sub)).

Inductive category := rev | bas | enc | crit | per.

Definition classify (mean : Q) (r : corr) : category :=
  if corr_ltb r 0 then rev
  else if Qleb (85 # 10) mean && corr_ltb r (2 # 10) then bas
  else if corr_geb r (25 # 100) then enc
  else if Qltb mean 8 && corr_ltb r (2 # 10) then crit
  else per.

Record Stat := mkStat {
  t : string;
  m : Q;
  nps : Q;
  r : Q;
  n : Z;
  cat : category
}.

(** Lines 87-114: the dictionary appended for a topic, from its paired
    scores and from the correlation and the mean just computed. *)
Definition stat_from (t : string) (valid : list (Q * Q)) (r : corr) (mean : Q)
  : Stat :=
  let prom := np_sum (map is_prom (map fst valid)) in
  let det := np_sum (map is_det (map fst valid)) in
  let total := len valid in
  let nps := fmul (fdiv (inject_Z (prom - det)) (inject_Z total)) 100 in
  {| t := t;
     m := round mean 2;
     nps := round nps 1;
     (* round(r, 3) if not np.isnan(r) else 0 *)
     r := match r with NaN => 0 | Ratio a b => corr_round3 a b end;
     n := total;
     cat := classify mean r |}.

(** Lines 82-85, then the above. *)
Definition stat_of (t : string) (valid : list (Q * Q)) : Stat :=
  stat_from t valid (pearson (map fst valid) (map snd valid))
            (np_mean (map fst valid)).

Definition calculate_stats (df_sub : Pivot) (themes : list string) : list Stat :=
  if negb (isin TARGET (columns df_sub)) then []
  else
    flat_map (fun t =>
      if negb (isin t (columns df_sub)) then []
      else
        let valid := valid_pairs df_sub t in
        if (len valid <? 5)%Z then []
        else [stat_of t valid]) themes.

Definition kano_global (df : DataFrame) : list Stat :=
  calculate_stats (pivot df) (themes df).

Definition shoppings (df : DataFrame) : list string :=
  sorted (unique (dropna (map code (rows (pivot df))))).

(** [pivot[pivot['ShoppingCode'] == s]] *)
Definition shop_frame (pv : Pivot) (s : string) : Pivot :=
  {| columns := columns pv;
     rows := filter (fun r => eq_opt (code r) s) (rows pv) |}.

Definition kano_by_shop (df : DataFrame) : list (string * list Stat) :=
  map (fun s => (s, calculate_stats (shop_frame (pivot df) s) (themes df)))
      (shoppings df).

(** Column mean skipping NaN; NaN when nothing is left. *)
Definition col_mean (pv : Pivot) (t : string) : option Q :=
  match dropna (map (fun r => cell r t) (rows pv)) with
  | [] => None
  | l => Some (np_mean l)
  end.

Definition heatmap (df : DataFrame) : list (string * list (string * option Q)) :=
  map (fun s =>
         (s, map (fun t => (t, option_map (fun v => round v 2)
                                  (col_mean (shop_frame (pivot df) s) t)))
                 (themes df)))
      (shoppings df).

(** *** The NPS snapshot per entity *)
Module Static.

Record Entry := mkEntry {
  nps : Q;
  media : Q;
  n : Z;
  prom : Q;
  neu : Q;
  detr : Q
}.

Definition entry_of (notes : list Q) : Entry :=
  let prom := np_sum (map is_prom notes) in
  let det := np_sum (map is_det notes) in
  let pas := np_sum (map is_pass notes) in
  let total := len notes in
  let nps := fmul (fdiv (inject_Z (prom - det)) (inject_Z total)) 100 in
  let mean := np_mean notes in
  {| nps := round nps 1;
     media := round mean 2;
     n := total;
     prom := round (fmul (fdiv (inject_Z prom) (inject_Z total)) 100) 1;
     neu := round (fmul (fdiv (inject_Z pas) (inject_Z total)) 100) 1;
     detr := round (fmul (fdiv (inject_Z det) (inject_Z total)) 100) 1 |}.

Definition nps_static (df : DataFrame) : list (string * Entry) :=
  flat_map (fun s =>
    let s_df := filter (fun r => eq_opt (ShoppingCode r) s
                                 && String.eqb (Tema r) TARGET) (df_2025 df) in
    match s_df with
    | [] => []
    | _ => [(s, entry_of (map Nota s_df))]
    end) (shoppings df).

End Static.

(** *** The respondent roster *)
Module Roster.

(** [str.upper], [str.strip] and slicing, on ASCII text. *)
Definition upper_char (c : ascii) : ascii :=
  if (Ascii.leb "a" c && Ascii.leb c "z")%char
  then ascii_of_nat (nat_of_ascii c - 32) else c.

Fixpoint upper (s : string) : string :=
  match s with
  | EmptyString => EmptyString
  | String c s' => String (upper_char c) (upper s')
  end.

Fixpoint lstrip (drop : ascii -> bool) (s : string) : string :=
  match s with
  | EmptyString => EmptyString
  | String c s' => if drop c then lstrip drop s' else s
  end.

Definition reverse (s : string) : string :=
  string_of_list_ascii (List.rev (list_ascii_of_string s)).

Definition strip (drop : ascii -> bool) (s : string) : string :=
  reverse (lstrip drop (reverse (lstrip drop s))).

Definition in_chars (cs : list ascii) (c : ascii) : bool :=
  existsb (Ascii.eqb c) cs.

Definition space : ascii := ascii_of_nat 32.
Definition dquote : ascii := ascii_of_nat 34.

Definition is_space (c : ascii) : bool :=
  let k := nat_of_ascii c in
  (k =? 32)%nat || ((9 <=? k)%nat && (k <=? 13)%nat)
  || ((28 <=? k)%nat && (k <=? 31)%nat).

Definition str (v : option string) : string :=
  match v with
  | Some x => x
  | None => "nan"
  end.

Record Lojista := mkLojista {
  n : string;
  s : Q;
  c : string;
  d : list (string * Q);
  t : option string
}.

Definition details (pv : Pivot) (rid : string) : list (string * Q) :=
  match find (fun r => String.eqb (index r) rid) (rows pv) with
  | None => []
  | Some p_row =>
      flat_map (fun kv =>
        if isin (fst kv) ["ShoppingCode"; TARGET] then []
        else match snd kv with
             | Some v => [(fst kv, py_round v 1)]
             | None => []
             end) (cells p_row)
  end.

Definition comment_text (frame : DataFrame) (rid : string) : string :=
  let comments :=
    unique (dropna (map Comentario
      (filter (fun r => String.eqb (ResponseID r) rid
                        && match Comentario r with
                           | Some x => negb (String.eqb x EmptyString)
                           | None => false
                           end) frame))) in
  String.concat " | "
    (filter (fun x => negb (String.eqb x EmptyString))
            (map (strip is_space) comments)).

Definition lojista_of (frame : DataFrame) (pv : Pivot) (row : Row) : Lojista :=
  let score := Nota row in
  let comment := comment_text frame (ResponseID row) in
  {| n := substring 0 30
            (strip (in_chars [space; dquote])
                   (upper (str (Loja row))));
     s := score;
     c := if Qleb 9 score then "prom"
          else if Qleb 7 score then "pass" else "detr";
     d := details pv (ResponseID row);
     t := if String.eqb comment EmptyString then None else Some comment |}.

(** [col_loja] tells whether the table has a store-name column at all. *)
Definition lojistas_list (col_loja : bool) (df : DataFrame)
  : list (string * list Lojista) :=
  if col_loja then
    map (fun s =>
      let s_ids := map index (rows (shop_frame (pivot df) s)) in
      let s_data := filter (fun r => isin (ResponseID r) s_ids
                                     && String.eqb (Tema r) TARGET)
                           (df_2025 df) in
      (s, map (lojista_of (df_2025 df) (pivot df)) s_data))
      (shoppings df)
  else [].

End Roster.

(** The five constants written to [kano_data.js]. *)
Definition output_js (col_loja : bool) (df : DataFrame) :=
  (kano_global df, kano_by_shop df, heatmap df, Static.nps_static df,
   Roster.lojistas_list col_loja df).

End Kano.

(** ** Vocabulary of the specification *)

(** How many scores of a list satisfy a test. *)
Definition count (p : Q -> bool) (l : list Q) : Z :=
  Z.of_nat (List.length (filter p l)).

(** Promoters score 9 or more, passives from 7 to 8, detractors 6 or
    less; the bands are decided on the order of the rationals. *)
Definition promoter (x : Q) : bool :=
  if Qlt_le_dec x 9 then false else true.
Definition passive (x : Q) : bool :=
  if Qlt_le_dec x 7 then false else if Qlt_le_dec 8 x then false else true.
Definition detractor (x : Q) : bool :=
  if Qlt_le_dec 6 x then false else true.

Definition promoters (l : list Q) : Z := count promoter l.
Definition passives (l : list Q) : Z := count passive l.
Definition detractors (l : list Q) : Z := count detractor l.

(** [((#promoters - #detractors) / #total) * 100], the exact number, and
    its rounding to one decimal, ties to the even digit. *)
Definition nps_exact (l : list Q) : Q :=
  inject_Z (promoters l - detractors l) / inject_Z (len l) * 100.

Definition nps_score (l : list Q) : Q := py_round (nps_exact l) 1.

(** A band count as a percentage of the total, the exact number. *)
Definition share (k : Z) (l : list Q) : Q :=
  inject_Z k / inject_Z (len l) * 100.

(** [x] lies halfway between two numbers of [d] decimals. *)
Definition halfway (x : Q) (d : nat) : Prop :=
  exists k : Z, x * inject_Z (10 ^ Z.of_nat d) == inject_Z k + (1 # 2).

(** [v] has one decimal, and no number of one decimal is nearer to [x]. *)
Definition nearest_tenth (v x : Q) : Prop :=
  (exists k : Z, v = inject_Z k / 10) /\ Qabs (v - x) <= 1 # 20.

(** [v] is what is reported for the exact number [x]: a nearest number of
    one decimal, and the rounding of [x] unless [x] lies halfway. *)
Definition reported (v x : Q) : Prop :=
  nearest_tenth v x /\ (~ halfway x 1 -> v = py_round x 1).

(** [m] is the largest score observed in a scope. *)
Definition is_maximum (m : Q) (scope : list Q) : Prop :=
  In m scope /\ Forall (fun x => x <= m) scope.

(** A finished target-topic response of 2025. *)
Definition response (rid : string) (shop : option string) (v : Q) : Row :=
  {| ResponseID := rid; Pesquisa := Str "2025"; Tema := TARGET;
     Momento := Fim; ShoppingCode := shop; Nota := v;
     Comentario := None; Loja := None |}.

(** One such response per score, from respondents A, B, C, ... of one
    entity. *)
Definition responses (shop : string) (scores : list Q) : DataFrame :=
  map (fun k => response (String (ascii_of_nat (65 + fst k)) EmptyString)
                         (Some shop) (snd k))
      (combine (seq 0 (List.length scores)) scores).

(** The worked example of the specification: ten respondents of entity X
    in 2025. *)
Definition example_scores : list Q := [10; 10; 10; 9; 8; 8; 7; 6; 5; 0].

Definition example_frame : DataFrame := responses "X" example_scores.

(** Eighty normalized scores, 23 promoters and 57 passives: the exact
    NPS, 28.75, lies halfway between 28.7 and 28.8. *)
Definition tie_scores : list Q := (repeat 10 23 ++ repeat 8 57)%list.

Definition tie_frame : DataFrame := responses "X" tie_scores.

(** A score strictly between two bands. *)
Definition in_gap (x : Q) : Prop := 6 < x < 7 \/ 8 < x < 9.

(** Two responses on a 0-100 scale, 65 and 100. *)
Definition gap_frame : DataFrame := responses "X" [65; 100].

(** The classifier as the specification words it: an ordered list of
    (predicate, category) pairs, the first match wins, [per] by default. *)
Definition rules : list ((Q -> corr -> bool) * Kano.category) :=
  [ (fun _ r => corr_ltb r 0, Kano.rev);
    (fun mean r => Qleb (85 # 10) mean && corr_ltb r (2 # 10), Kano.bas);
    (fun _ r => corr_geb r (25 # 100), Kano.enc);
    (fun mean r => Qltb mean 8 && corr_ltb r (2 # 10), Kano.crit) ].

Fixpoint first_match (rs : list ((Q -> corr -> bool) * Kano.category))
    (mean : Q) (r : corr) : Kano.category :=
  match rs with
  | [] => Kano.per
  | (applies, c) :: rest =>
      if applies mean r then c else first_match rest mean r
  end.

(** What a category says about a mean and a correlation that are
    numbers: the condition of its rule and the failure of every earlier
    rule. *)
Definition category_rule (c : Kano.category) (mean r : Q) : Prop :=
  match c with
  | Kano.rev => r < 0
  | Kano.bas => 0 <= r /\ 85 # 10 <= mean /\ r < 2 # 10
  | Kano.enc =>
      0 <= r /\ ~ (85 # 10 <= mean /\ r < 2 # 10) /\ 25 # 100 <= r
  | Kano.crit =>
      0 <= r /\ ~ (85 # 10 <= mean /\ r < 2 # 10)
      /\ r < 25 # 100 /\ mean < 8 /\ r < 2 # 10
  | Kano.per =>
      0 <= r /\ ~ (85 # 10 <= mean /\ r < 2 # 10)
      /\ r < 25 # 100 /\ ~ (mean < 8 /\ r < 2 # 10)
  end.

(** Respondents of a grouping with a score for both the topic and the
    target topic. *)
Definition paired (t : string) (r : Kano.PivotRow) : bool :=
  match Kano.cell r t, Kano.cell r TARGET with
  | Some _, Some _ => true
  | _, _ => false
  end.

Definition paired_count (pv : Kano.Pivot) (t : string) : Z :=
  len (filter (paired t) (Kano.rows pv)).

(** A 2025 survey in which respondent [i] of entity X finished, rating
    one topic and the target topic as the [i]-th pair of [scores]. *)
Definition respondent (topic : string) (i : nat) (ab : Q * Q) : DataFrame :=
  let id := String (ascii_of_nat (65 + i)) EmptyString in
  [ {| ResponseID := id; Pesquisa := Str "NPS 2025"; Tema := topic;
       Momento := "Unico"; ShoppingCode := Some "X"; Nota := fst ab;
       Comentario := None; Loja := Some "loja" |};
    {| ResponseID := id; Pesquisa := Str "NPS 2025"; Tema := TARGET;
       Momento := Fim; ShoppingCode := Some "X"; Nota := snd ab;
       Comentario := None; Loja := Some "loja" |} ].

Definition survey (topic : string) (scores : list (Q * Q)) : DataFrame :=
  List.concat (map (fun k => respondent topic (fst k) (snd k))
              (combine (seq 0 (List.length scores)) scores)).

Definition five_paired : DataFrame :=
  survey "Limpeza" [(8, 9); (9, 10); (6, 7); (7, 7); (10, 10)].

Definition four_paired : DataFrame :=
  survey "Limpeza" [(8, 9); (9, 10); (6, 7); (7, 7)].

(** Five respondents who all rate the topic 9. *)
Definition constant_topic : DataFrame :=
  survey "Limpeza" [(9, 10); (9, 9); (9, 8); (9, 7); (9, 10)].

(** The respondent has a finished target-topic response in 2025. *)
Definition finished_target (df : DataFrame) (rid : string) : Prop :=
  exists r, In r df /\ ResponseID r = rid /\ Kano.Period r = "2025"
            /\ Tema r = TARGET /\ Momento r = Fim.

(** The table without any row of one respondent. *)
Definition without (rid : string) (df : DataFrame) : DataFrame :=
  filter (fun r => negb (String.eqb (ResponseID r) rid)) df.

(** The five respondents above plus one who only started the survey. *)
Definition with_dropout : DataFrame :=
  List.app five_paired
  [ {| ResponseID := "Z"; Pesquisa := Str "NPS 2025"; Tema := "Limpeza";
       Momento := "Unico"; ShoppingCode := Some "X"; Nota := 3;
       Comentario := Some "ruim"; Loja := Some "loja" |};
    {| ResponseID := "Z"; Pesquisa := Str "NPS 2025"; Tema := TARGET;
       Momento := "Inicio"; ShoppingCode := Some "X"; Nota := 2;
       Comentario := None; Loja := Some "loja" |} ].

(** The union of the entities' groups of one period, entity by entity in
    the order of the matrix. *)
Definition entity_union (df : DataFrame) (p : string) : DataFrame :=
  List.concat
    (map (Matrix.group (Matrix.df_fim df))
         (filter (fun k => String.eqb (snd k) p)
                 (Matrix.group_keys (Matrix.df_fim df)))).

Definition has_entity (r : Row) : bool :=
  match ShoppingCode r with
  | Some _ => true
  | None => false
  end.

(** Finished responses of the period that carry no entity code. *)
Definition no_entity (df : DataFrame) (p : string) : DataFrame :=
  filter (fun r => negb (has_entity r))
         (Matrix.period_group (Matrix.df_fim df) p).

(** Entity A with three promoters, entity B with one detractor. *)
Definition two_entities : DataFrame :=
  [ response "1" (Some "A") 10; response "2" (Some "A") 10;
    response "3" (Some "A") 10; response "4" (Some "B") 0 ].

(** One response of entity A and one response without an entity code. *)
Definition orphan_frame : DataFrame :=
  [ response "1" (Some "A") 10; response "2" None 0 ].

(** Cells exist only under the columns of the pivot. *)
Definition wf_pivot (pv : Kano.Pivot) : Prop :=
  forall r t0 v, In r (Kano.rows pv) -> Kano.cell r t0 = Some v ->
                 Kano.isin t0 (Kano.columns pv) = true.

(** ** Vocabulary of the further properties *)

(** The frame has a row of the period. *)
Definition has_period (frame : DataFrame) (p : string) : bool :=
  existsb (fun r => String.eqb (Lojistas.Period r) p) frame.

(** What [drop_duplicates] compares: period and respondent. *)
Definition response_key (r : Row) : string * string :=
  (Lojistas.Period r, ResponseID r).

(** The finished target-topic rows, before de-duplication. *)
Definition finished_rows (df : DataFrame) : DataFrame :=
  filter (fun r => String.eqb (Momento r) Fim) (Lojistas.df_nps df).

(** The same respondent finishing twice, then another respondent. *)
Definition twice_finished : DataFrame :=
  [ response "1" (Some "A") 9; response "1" (Some "A") 3;
    response "2" (Some "A") 7 ].

(** The respondent has a score for the topic. *)
Definition answered (t : string) (r : Kano.PivotRow) : bool :=
  match Kano.cell r t with
  | Some _ => true
  | None => false
  end.

(** Two finished respondents on a 0-100 scale; one comment is blank, one
    store name is missing. *)
Definition gap_respondent : DataFrame :=
  [ {| ResponseID := "A"; Pesquisa := Str "2025"; Tema := TARGET;
       Momento := Fim; ShoppingCode := Some "X"; Nota := 65;
       Comentario := Some " bom  "; Loja := Some " loja um " |};
    {| ResponseID := "B"; Pesquisa := Str "2025"; Tema := TARGET;
       Momento := Fim; ShoppingCode := Some "X"; Nota := 100;
       Comentario := Some "   "; Loja := None |} ].

(** Two responses of entity SDI on a 0-100 scale, 65 and 100. *)
Definition sdi_gap_frame : DataFrame := responses "SDI" [65; 100].

(** A respondent who rated one topic and only started the survey. *)
Definition only_started : DataFrame :=
  [ {| ResponseID := "Z"; Pesquisa := Str "NPS 2025"; Tema := "Limpeza";
       Momento := "Unico"; ShoppingCode := Some "X"; Nota := 3;
       Comentario := Some "ruim"; Loja := Some "loja" |};
    {| ResponseID := "Z"; Pesquisa := Str "NPS 2025"; Tema := TARGET;
       Momento := "Inicio"; ShoppingCode := Some "X"; Nota := 2;
       Comentario := None; Loja := Some "loja" |} ].

(** A comment with something other than white space in it. *)
Definition not_blank (c : string) : Prop :=
  Kano.Roster.strip Kano.Roster.is_space c <> EmptyString.

(** The characters of a text. *)
Definition chars (s : string) : list ascii := list_ascii_of_string s.

(** A lower-case ASCII letter. *)
Definition is_lower (c : ascii) : bool :=
  (Ascii.leb "a" c && Ascii.leb c "z")%char.

(** A pair of scores as deviations from the two means. *)
Definition dev (mx my : Q) (p : Q * Q) : Q * Q := (fst p - mx, snd p - my).

(** The sum of a list of integers. *)
Definition Zsum (l : list Z) : Z := fold_right Z.add 0%Z l.

(** The score is one of the integers 0, 1, ..., 10. *)
Definition in_bins (x : Q) : bool :=
  existsb (fun i => Qeq_bool x (inject_Z (Z.of_nat i))) (seq 0 11).

(** In the order of [sorted], every element before all later ones. *)
Definition alphabetical (l : list string) : Prop :=
  StronglySorted (fun a b => String.leb a b = true) l.

(** * Properties *)

(** ** Counting and rounding *)

Lemma np_sum_count (p : Q -> bool) (l : list Q) :
  np_sum (map p l) = count p l.
Proof.
  unfold count.
  induction l as [|x l IH]; simpl; [reflexivity|].
  rewrite IH. destruct (p x); simpl List.length; lia.
Qed.

Lemma count_ext (p q : Q -> bool) (l : list Q) :
  (forall x, p x = q x) -> count p l = count q l.
Proof.
  intros H. unfold count. now rewrite (filter_ext p q H).
Qed.

Lemma Qleb_le x y : Qleb x y = true <-> x <= y.
Proof. apply Qle_bool_iff. Qed.

Lemma Qltb_lt x y : Qltb x y = true <-> x < y.
Proof.
  unfold Qltb. rewrite negb_true_iff.
  split; intros H.
  - apply Qnot_le_lt. intros C. apply Qle_bool_iff in C. congruence.
  - destruct (Qle_bool y x) eqn:E; [|reflexivity].
    apply Qle_bool_iff in E. exfalso. apply (Qlt_not_le _ _ H E).
Qed.

Lemma Qltb_ge x y : Qltb x y = false <-> y <= x.
Proof.
  unfold Qltb. rewrite negb_false_iff. apply Qle_bool_iff.
Qed.

(** The masks of the scripts are the bands of the specification. *)
Lemma is_prom_promoter (x : Q) : is_prom x = promoter x.
Proof.
  unfold is_prom, promoter.
  destruct (Qlt_le_dec x 9) as [H|H].
  - destruct (Qleb 9 x) eqn:E; [|reflexivity].
    apply Qleb_le in E. exfalso. lra.
  - now apply Qleb_le.
Qed.

Lemma is_pass_passive (x : Q) : is_pass x = passive x.
Proof.
  unfold is_pass, passive.
  destruct (Qlt_le_dec x 7) as [H7|H7].
  - destruct (Qleb 7 x) eqn:E; [|reflexivity].
    apply Qleb_le in E. exfalso. lra.
  - apply Qleb_le in H7. rewrite H7. simpl.
    destruct (Qlt_le_dec 8 x) as [H8|H8].
    + destruct (Qleb x 8) eqn:E; [|reflexivity].
      apply Qleb_le in E. exfalso. lra.
    + now apply Qleb_le.
Qed.

Lemma is_det_detractor (x : Q) : is_det x = detractor x.
Proof.
  unfold is_det, detractor.
  destruct (Qlt_le_dec 6 x) as [H|H].
  - destruct (Qleb x 6) eqn:E; [|reflexivity].
    apply Qleb_le in E. exfalso. lra.
  - now apply Qleb_le.
Qed.

Lemma prom_count (l : list Q) : np_sum (map is_prom l) = promoters l.
Proof.
  rewrite np_sum_count. apply count_ext, is_prom_promoter.
Qed.

Lemma pass_count (l : list Q) : np_sum (map is_pass l) = passives l.
Proof.
  rewrite np_sum_count. apply count_ext, is_pass_passive.
Qed.

Lemma det_count (l : list Q) : np_sum (map is_det l) = detractors l.
Proof.
  rewrite np_sum_count. apply count_ext, is_det_detractor.
Qed.

(** A score lies in at most one band. *)
Lemma band_exclusive (x : Q) :
  ((if is_prom x then 1 else 0) + (if is_pass x then 1 else 0)
   + (if is_det x then 1 else 0) <= 1)%Z.
Proof.
  unfold is_prom, is_pass, is_det.
  destruct (Qleb 9 x) eqn:E9, (Qleb 7 x) eqn:E7,
           (Qleb x 8) eqn:E8, (Qleb x 6) eqn:E6; simpl; try lia;
    repeat match goal with
           | H : Qleb _ _ = true |- _ => apply Qleb_le in H
           end; exfalso; lra.
Qed.

Lemma bands_le_total (l : list Q) :
  (np_sum (map is_prom l) + np_sum (map is_pass l) + np_sum (map is_det l)
   <= len l)%Z.
Proof.
  unfold len.
  induction l as [|x l IH]; simpl np_sum; simpl List.length; [lia|].
  pose proof (band_exclusive x). lia.
Qed.

(** When every score is in some band, the counts add up to the total. *)
Lemma bands_eq_total (l : list Q) :
  Forall (fun x => is_prom x || is_pass x || is_det x = true) l ->
  (np_sum (map is_prom l) + np_sum (map is_pass l) + np_sum (map is_det l)
   = len l)%Z.
Proof.
  unfold len.
  induction 1 as [|x l Hx Hl IH]; simpl np_sum; simpl List.length; [lia|].
  pose proof (band_exclusive x) as Hb.
  destruct (is_prom x), (is_pass x), (is_det x);
    try discriminate Hx; lia.
Qed.

(** *** Rounding to an integer *)

Lemma rint_close (x : Q) :
  x - (1 # 2) <= inject_Z (rint x) <= x + (1 # 2).
Proof.
  unfold rint.
  pose proof (Qfloor_le x) as Hlo.
  pose proof (Qlt_floor x) as Hhi.
  rewrite inject_Z_plus in Hhi. change (inject_Z 1) with 1 in Hhi.
  destruct (Qcompare (x - inject_Z (Qfloor x)) (1 # 2)) eqn:E.
  - apply Qeq_alt in E.
    destruct (Z.even (Qfloor x)).
    + lra.
    + rewrite inject_Z_plus. change (inject_Z 1) with 1. lra.
  - apply Qlt_alt in E. lra.
  - apply Qgt_alt in E. rewrite inject_Z_plus. change (inject_Z 1) with 1. lra.
Qed.

Lemma rint_ge (a : Z) (x : Q) : inject_Z a <= x -> (a <= rint x)%Z.
Proof.
  intros H. pose proof (rint_close x) as [Hlo _].
  assert (L : inject_Z (a + - 1) < inject_Z (rint x)).
  { rewrite inject_Z_plus. change (inject_Z (-1)) with (-1 # 1). lra. }
  rewrite <- Zlt_Qlt in L. lia.
Qed.

Lemma rint_le (b : Z) (x : Q) : x <= inject_Z b -> (rint x <= b)%Z.
Proof.
  intros H. pose proof (rint_close x) as [_ Hhi].
  assert (L : inject_Z (rint x) < inject_Z (b + 1)).
  { rewrite inject_Z_plus. change (inject_Z 1) with 1. lra. }
  rewrite <- Zlt_Qlt in L. lia.
Qed.

(** The integer within less than 1/2 is the one [rint] returns. *)
Lemma rint_unique (k : Z) (x : Q) :
  x - (1 # 2) < inject_Z k < x + (1 # 2) -> rint x = k.
Proof.
  intros [Hlo Hhi]. pose proof (rint_close x) as [Rlo Rhi].
  assert (L : inject_Z (k + - 1) < inject_Z (rint x)).
  { rewrite inject_Z_plus. change (inject_Z (-1)) with (-1 # 1). lra. }
  assert (U : inject_Z (rint x) < inject_Z (k + 1)).
  { rewrite inject_Z_plus. change (inject_Z 1) with 1. lra. }
  rewrite <- Zlt_Qlt in L, U. lia.
Qed.

Lemma Qeq_le (x y : Q) : x == y -> x <= y.
Proof. intros E. rewrite E. apply Qle_refl. Qed.

(** *** Powers of two *)

Lemma pow2_pos (e : Z) : 0 < pow2 e.
Proof. apply Qpower_0_lt. reflexivity. Qed.

Lemma pow2_le (a b : Z) : (a <= b)%Z -> pow2 a <= pow2 b.
Proof. intros H. apply Qpower_le_compat_l; [exact H|]. discriminate. Qed.

Lemma pow2_lt_inv (a b : Z) : pow2 a < pow2 b -> (a < b)%Z.
Proof. intros H. apply (Qpower_lt_compat_l_inv 2); [exact H|reflexivity]. Qed.

Lemma pow2_plus (a b : Z) : pow2 (a + b) == pow2 a * pow2 b.
Proof. apply Qpower_plus. discriminate. Qed.

Lemma pow2_Z (n : Z) : (0 <= n)%Z -> pow2 n == inject_Z (2 ^ n).
Proof. intros H. unfold pow2. now rewrite Zpower_Qpower. Qed.

Lemma pow2_opp (n : Z) : pow2 (- n) * pow2 n == 1.
Proof.
  rewrite <- pow2_plus. replace (- n + n)%Z with 0%Z by lia. reflexivity.
Qed.

(** *** The binade of a rational *)

Lemma Qabs_num_den (x : Q) :
  Qabs x == inject_Z (Z.abs (Qnum x)) / inject_Z (Zpos (Qden x)).
Proof.
  destruct x as [n d]. unfold Qabs. simpl.
  unfold Qeq, Qdiv, Qmult, Qinv, inject_Z. simpl. lia.
Qed.

Lemma ilog2_lower (x : Q) : ~ x == 0 -> pow2 (ilog2 x) <= Qabs x.
Proof.
  intros Hx. unfold ilog2.
  set (a := Z.log2 (Z.abs (Qnum x))). set (b := Z.log2 (Zpos (Qden x))).
  destruct (Qleb (pow2 (a - b)) (Qabs x)) eqn:E; [now apply Qleb_le|].
  assert (Hn : (0 < Z.abs (Qnum x))%Z).
  { destruct x as [n d]. unfold Qeq in Hx. simpl in *. lia. }
  pose proof (Z.log2_spec _ Hn) as [Ha _]. fold a in Ha.
  assert (Hd : (0 < Zpos (Qden x))%Z) by lia.
  pose proof (Z.log2_spec _ Hd) as [_ Hb]. fold b in Hb.
  assert (A0 : (0 <= a)%Z) by apply Z.log2_nonneg.
  assert (B0 : (0 <= b)%Z) by apply Z.log2_nonneg.
  rewrite Qabs_num_den.
  apply Qle_shift_div_l.
  { change 0 with (inject_Z 0). now rewrite <- Zlt_Qlt. }
  apply Qle_trans with (pow2 (a - b - 1) * pow2 (b + 1)).
  - apply Qmult_le_l; [apply pow2_pos|].
    rewrite pow2_Z by lia. rewrite <- Zle_Qle.
    replace (b + 1)%Z with (Z.succ b) by lia. lia.
  - rewrite <- pow2_plus. replace (a - b - 1 + (b + 1))%Z with a by lia.
    rewrite pow2_Z by lia. now rewrite <- Zle_Qle.
Qed.

Lemma ilog2_upper (x : Q) : ~ x == 0 -> Qabs x < pow2 (ilog2 x + 1).
Proof.
  intros Hx. unfold ilog2.
  set (a := Z.log2 (Z.abs (Qnum x))). set (b := Z.log2 (Zpos (Qden x))).
  destruct (Qleb (pow2 (a - b)) (Qabs x)) eqn:E.
  - assert (Hn : (0 < Z.abs (Qnum x))%Z).
    { destruct x as [n d]. unfold Qeq in Hx. simpl in *. lia. }
    pose proof (Z.log2_spec _ Hn) as [_ Ha]. fold a in Ha.
    assert (Hd : (0 < Zpos (Qden x))%Z) by lia.
    pose proof (Z.log2_spec _ Hd) as [Hb _]. fold b in Hb.
    assert (A0 : (0 <= a)%Z) by apply Z.log2_nonneg.
    assert (B0 : (0 <= b)%Z) by apply Z.log2_nonneg.
    rewrite Qabs_num_den.
    apply Qlt_shift_div_r.
    { change 0 with (inject_Z 0). now rewrite <- Zlt_Qlt. }
    apply Qlt_le_trans with (pow2 (a - b + 1) * pow2 b).
    + rewrite <- pow2_plus. replace (a - b + 1 + b)%Z with (Z.succ a) by lia.
      rewrite pow2_Z by lia. now rewrite <- Zlt_Qlt.
    + apply Qmult_le_l; [apply pow2_pos|].
      rewrite pow2_Z by lia. now rewrite <- Zle_Qle.
  - replace (a - b - 1 + 1)%Z with (a - b)%Z by lia.
    apply Qnot_le_lt. intros C. apply Qleb_le in C. congruence.
Qed.

Lemma ilog2_lt (x : Q) (j : Z) :
  ~ x == 0 -> Qabs x < pow2 j -> (ilog2 x < j)%Z.
Proof.
  intros Hx H. apply pow2_lt_inv.
  apply Qle_lt_trans with (Qabs x); [now apply ilog2_lower|exact H].
Qed.

(** *** Rounding to float64 *)

Lemma fl_zero (x : Q) : x == 0 -> fl x = 0.
Proof.
  intros H. unfold fl. apply Qeq_bool_iff in H. now rewrite H.
Qed.

Lemma fl_nonzero (x : Q) :
  ~ x == 0 ->
  fl x = inject_Z (rint (x / pow2 (fexp x))) * pow2 (fexp x).
Proof.
  intros H. unfold fl.
  destruct (Qeq_bool x 0) eqn:E; [|reflexivity].
  apply Qeq_bool_iff in E. contradiction.
Qed.

(** The result is within half a unit in the last place. *)
Lemma fl_close_ulp (x : Q) :
  ~ x == 0 ->
  x - pow2 (fexp x) * (1 # 2) <= fl x <= x + pow2 (fexp x) * (1 # 2).
Proof.
  intros Hx. rewrite (fl_nonzero x Hx).
  pose proof (pow2_pos (fexp x)) as Hp.
  set (p := pow2 (fexp x)) in *.
  pose proof (rint_close (x / p)) as [Hlo Hhi].
  set (k := inject_Z (rint (x / p))) in *.
  assert (E1 : (x / p - (1 # 2)) * p == x - p * (1 # 2)) by (field; lra).
  assert (E2 : (x / p + (1 # 2)) * p == x + p * (1 # 2)) by (field; lra).
  rewrite <- E1, <- E2.
  split; apply Qmult_le_compat_r; lra.
Qed.

Lemma half_pow2 (e : Z) : pow2 e * (1 # 2) == pow2 (e - 1).
Proof.
  replace e with (e - 1 + 1)%Z at 1 by lia.
  rewrite pow2_plus. change (pow2 1) with 2. field.
Qed.

(** Below [2^j] the error is at most [2^(j-54)]. *)
Lemma fl_close (x : Q) (j : Z) :
  (-1021 <= j)%Z -> Qabs x < pow2 j ->
  x - pow2 (j - 54) <= fl x <= x + pow2 (j - 54).
Proof.
  intros Hj Hx.
  pose proof (pow2_pos (j - 54)) as Hp.
  destruct (Qeq_dec x 0) as [Z0|N0].
  - rewrite (fl_zero x Z0). lra.
  - pose proof (ilog2_lt x j N0 Hx) as Hl.
    pose proof (fl_close_ulp x N0) as [Hlo Hhi].
    rewrite half_pow2 in Hlo, Hhi.
    assert (Hle : pow2 (fexp x - 1) <= pow2 (j - 54)).
    { apply pow2_le. unfold fexp. lia. }
    lra.
Qed.

(** An integer bound below [2^53] survives the rounding. *)
Lemma fl_between (a b : Z) (x : Q) :
  (- 2 ^ 53 < a)%Z -> (b < 2 ^ 53)%Z ->
  inject_Z a <= x <= inject_Z b ->
  inject_Z a <= fl x <= inject_Z b.
Proof.
  intros Ha Hb [Hlo Hhi].
  destruct (Qeq_dec x 0) as [Z0|N0].
  { rewrite (fl_zero x Z0). rewrite Z0 in Hlo, Hhi. split; assumption. }
  assert (Hx : Qabs x < pow2 53).
  { apply Qabs_Qlt_condition.
    assert (A : inject_Z (- 2 ^ 53) < inject_Z a) by now rewrite <- Zlt_Qlt.
    assert (B : inject_Z b < inject_Z (2 ^ 53)) by now rewrite <- Zlt_Qlt.
    change (pow2 53) with (inject_Z (2 ^ 53)).
    rewrite <- inject_Z_opp.
    split; [eapply Qlt_le_trans; eassumption|eapply Qle_lt_trans; eassumption]. }
  pose proof (ilog2_lt x 53 N0 Hx) as Hl.
  assert (He : (fexp x <= 0)%Z) by (unfold fexp; lia).
  rewrite (fl_nonzero x N0).
  set (e := fexp x) in *.
  pose proof (pow2_pos e) as Hp.
  pose proof (pow2_pos (- e)) as Hq.
  pose proof (pow2_opp e) as Ho.
  assert (Ez : pow2 (- e) == inject_Z (2 ^ (- e))) by (apply pow2_Z; lia).
  assert (Ex : x / pow2 e == x * inject_Z (2 ^ (- e))).
  { rewrite <- Ez. unfold Qdiv, pow2. now rewrite Qpower_opp. }
  assert (La : (a * 2 ^ (- e) <= rint (x / pow2 e))%Z).
  { apply rint_ge. rewrite Ex, inject_Z_mult.
    apply Qmult_le_compat_r; [exact Hlo|]. rewrite <- Ez. lra. }
  assert (Lb : (rint (x / pow2 e) <= b * 2 ^ (- e))%Z).
  { apply rint_le. rewrite Ex, inject_Z_mult.
    apply Qmult_le_compat_r; [exact Hhi|]. rewrite <- Ez. lra. }
  rewrite Zle_Qle, inject_Z_mult, <- Ez in La, Lb.
  set (k := inject_Z (rint (x / pow2 e))) in *.
  split.
  - apply Qle_trans with (inject_Z a * pow2 (- e) * pow2 e).
    + rewrite <- Qmult_assoc, Ho. apply Qeq_le. ring.
    + apply Qmult_le_compat_r; lra.
  - apply Qle_trans with (inject_Z b * pow2 (- e) * pow2 e).
    + apply Qmult_le_compat_r; lra.
    + rewrite <- Qmult_assoc, Ho. apply Qeq_le. ring.
Qed.

(** The result is a float64: a mantissa of at most 53 bits at an exponent
    no smaller than that of the subnormal numbers. *)
Lemma fl_format (x : Q) :
  exists m e : Z,
    fl x == inject_Z m * pow2 e /\ (Z.abs m <= 2 ^ 53)%Z /\ (-1074 <= e)%Z.
Proof.
  destruct (Qeq_dec x 0) as [Z0|N0].
  { exists 0%Z, 0%Z. rewrite (fl_zero x Z0). split; [reflexivity|]. split; lia. }
  exists (rint (x / pow2 (fexp x))), (fexp x).
  rewrite (fl_nonzero x N0). split; [reflexivity|].
  split; [|unfold fexp; lia].
  pose proof (ilog2_upper x N0) as Hu.
  set (e := fexp x).
  pose proof (pow2_pos e) as Hp.
  assert (Hle : pow2 (ilog2 x + 1) <= pow2 (53 + e)).
  { apply pow2_le. unfold e, fexp. lia. }
  rewrite (pow2_plus 53 e) in Hle.
  change (pow2 53) with (inject_Z (2 ^ 53)) in Hle.
  set (c := inject_Z (2 ^ 53)) in *.
  apply Qabs_Qlt_condition in Hu. destruct Hu as [Hlo Hhi].
  assert (B : - c <= x / pow2 e <= c).
  { split.
    - apply Qle_shift_div_l; [exact Hp|]. lra.
    - apply Qle_shift_div_r; [exact Hp|]. lra. }
  destruct B as [B1 B2]. unfold c in B1, B2. rewrite <- inject_Z_opp in B1.
  apply rint_ge in B1. apply rint_le in B2. lia.
Qed.

(** *** A count over a total, as a percentage, to one decimal *)

Lemma ratio_unit (a t : Z) :
  (0 < t)%Z -> (- t <= a <= t)%Z ->
  - (1) <= inject_Z a / inject_Z t <= 1.
Proof.
  intros Ht [Hlo Hhi].
  assert (T : 0 < inject_Z t) by (change 0 with (inject_Z 0); now rewrite <- Zlt_Qlt).
  rewrite Zle_Qle, inject_Z_opp in Hlo. rewrite Zle_Qle in Hhi.
  split.
  - apply Qle_shift_div_l; [exact T|]. lra.
  - apply Qle_shift_div_r; [exact T|]. lra.
Qed.

Lemma ratio_nonneg (a t : Z) :
  (0 < t)%Z -> (0 <= a)%Z -> 0 <= inject_Z a / inject_Z t.
Proof.
  intros Ht Ha.
  apply Qle_shift_div_l.
  - change 0 with (inject_Z 0). now rewrite <- Zlt_Qlt.
  - rewrite Qmult_0_l. change 0 with (inject_Z 0). now rewrite <- Zle_Qle.
Qed.

(** [(a / t) * 100] in float64 stays between -100 and 100. *)
Lemma ratio100_between (a t : Z) :
  (0 < t)%Z -> (- t <= a <= t)%Z ->
  - (100) <= fmul (fdiv (inject_Z a) (inject_Z t)) 100 <= 100.
Proof.
  intros Ht Ha. pose proof (ratio_unit a t Ht Ha) as Hq.
  unfold fmul, fdiv.
  pose proof (fl_between (-1) 1 _ ltac:(lia) ltac:(lia) Hq) as [H1 H2].
  change (inject_Z (-1)) with (- (1)) in H1. change (inject_Z 1) with 1 in H2.
  apply (fl_between (-100) 100); [lia|lia|].
  change (inject_Z (-100)) with (- (100)). change (inject_Z 100) with 100.
  split; lra.
Qed.

Lemma ratio100_nonneg (a t : Z) :
  (0 < t)%Z -> (0 <= a <= t)%Z ->
  0 <= fmul (fdiv (inject_Z a) (inject_Z t)) 100 <= 100.
Proof.
  intros Ht [Ha Hb].
  pose proof (ratio_unit a t Ht ltac:(lia)) as [_ Hq].
  pose proof (ratio_nonneg a t Ht Ha) as Hn.
  unfold fmul, fdiv.
  pose proof (fl_between 0 1 _ ltac:(lia) ltac:(lia) (conj Hn Hq)) as [H1 H2].
  change (inject_Z 0) with 0 in H1. change (inject_Z 1) with 1 in H2.
  apply (fl_between 0 100); [lia|lia|].
  change (inject_Z 0) with 0. change (inject_Z 100) with 100.
  split; lra.
Qed.

(** Rounding to one decimal keeps a value between integer bounds. *)
Lemma round1_between (a b : Z) (x : Q) :
  (- 2 ^ 53 < a * 10)%Z -> (b * 10 < 2 ^ 53)%Z ->
  inject_Z a <= x <= inject_Z b ->
  inject_Z a <= round x 1 <= inject_Z b.
Proof.
  intros Ha Hb [Hlo Hhi]. unfold round, fmul.
  change (inject_Z (10 ^ Z.of_nat 1)) with 10.
  assert (B : inject_Z (a * 10) <= x * 10 <= inject_Z (b * 10)).
  { rewrite !inject_Z_mult. change (inject_Z 10) with 10. split; lra. }
  apply (fl_between _ _ _ Ha Hb) in B. destruct B as [B1 B2].
  apply rint_ge in B1. apply rint_le in B2.
  rewrite Zle_Qle, inject_Z_mult in B1, B2.
  change (inject_Z 10) with 10 in B1, B2.
  set (k := inject_Z (rint (fl (x * 10)))) in *.
  assert (E : k / 10 == k * (1 # 10)) by reflexivity.
  rewrite E. lra.
Qed.

(** The three float64 operations before [rint] lose less than [2^-41]. *)
Lemma ratio1000_close (a t : Z) :
  (0 < t)%Z -> (- t <= a <= t)%Z ->
  let z := inject_Z a / inject_Z t * 100 * 10 in
  z - (4304 # 18014398509481984)
  <= fmul (fmul (fdiv (inject_Z a) (inject_Z t)) 100) 10
  <= z + (4304 # 18014398509481984).
Proof.
  intros Ht Ha z. subst z.
  pose proof (ratio_unit a t Ht Ha) as Hq.
  set (q := inject_Z a / inject_Z t) in *.
  unfold fmul, fdiv. fold q.
  (* the quotient *)
  pose proof (fl_between (-1) 1 q ltac:(lia) ltac:(lia) Hq) as B1.
  change (inject_Z (-1)) with (- (1)) in B1. change (inject_Z 1) with 1 in B1.
  assert (C1 : q - pow2 (1 - 54) <= fl q <= q + pow2 (1 - 54)).
  { apply fl_close; [lia|]. apply Qabs_Qlt_condition.
    change (pow2 1) with 2. split; lra. }
  set (x1 := fl q) in *.
  (* times 100 *)
  assert (R2 : - (100) <= x1 * 100 <= 100) by (split; lra).
  pose proof (fl_between (-100) 100 (x1 * 100) ltac:(lia) ltac:(lia) R2) as B2.
  change (inject_Z (-100)) with (- (100)) in B2.
  change (inject_Z 100) with 100 in B2.
  assert (C2 : x1 * 100 - pow2 (7 - 54) <= fl (x1 * 100)
               <= x1 * 100 + pow2 (7 - 54)).
  { apply fl_close; [lia|]. apply Qabs_Qlt_condition.
    change (pow2 7) with 128. split; lra. }
  set (x2 := fl (x1 * 100)) in *.
  (* times 10 *)
  assert (C3 : x2 * 10 - pow2 (10 - 54) <= fl (x2 * 10)
               <= x2 * 10 + pow2 (10 - 54)).
  { apply fl_close; [lia|]. apply Qabs_Qlt_condition.
    change (pow2 10) with 1024. split; lra. }
  set (x3 := fl (x2 * 10)) in *.
  assert (E1 : pow2 (1 - 54) == 1 # 9007199254740992) by reflexivity.
  assert (E2 : pow2 (7 - 54) == 1 # 140737488355328) by reflexivity.
  assert (E3 : pow2 (10 - 54) == 1 # 17592186044416) by reflexivity.
  rewrite E1 in C1. rewrite E2 in C2. rewrite E3 in C3.
  split; lra.
Qed.

(** Up to [2^40] responses, the integer [rint] returns is a nearest one
    of the exact value [1000 a / t]. *)
Lemma ratio1000_nearest (a t : Z) :
  (0 < t <= 2 ^ 40)%Z -> (- t <= a <= t)%Z ->
  let z := inject_Z a / inject_Z t * 100 * 10 in
  z - (1 # 2)
  <= inject_Z (rint (fmul (fmul (fdiv (inject_Z a) (inject_Z t)) 100) 10))
  <= z + (1 # 2).
Proof.
  intros [Ht Hmax] Ha z.
  pose proof (ratio1000_close a t Ht Ha) as [Clo Chi]. fold z in Clo, Chi.
  set (x := fmul (fmul (fdiv (inject_Z a) (inject_Z t)) 100) 10) in *.
  pose proof (rint_close x) as [Rlo Rhi].
  set (k := rint x) in *.
  assert (T : 0 < inject_Z t) by (change 0 with (inject_Z 0); now rewrite <- Zlt_Qlt).
  assert (Tmax : inject_Z t <= inject_Z (2 ^ 40)) by now rewrite <- Zle_Qle.
  change (inject_Z (2 ^ 40)) with 1099511627776 in Tmax.
  assert (Ez : z * inject_Z t == inject_Z (1000 * a)).
  { subst z. rewrite inject_Z_mult. change (inject_Z 1000) with 1000.
    field. lra. }
  split.
  - (* z - 1/2 <= k *)
    apply Qnot_lt_le. intros C.
    assert (Cz : (2 * k * t + t < 2 * (1000 * a))%Z).
    { rewrite Zlt_Qlt, inject_Z_plus, !inject_Z_mult, <- Ez.
      change (inject_Z 2) with 2. nra. }
    assert (Cq : inject_Z (2 * k * t + t + 1) <= inject_Z (2 * (1000 * a)))
      by (rewrite <- Zle_Qle; lia).
    rewrite !inject_Z_plus, !inject_Z_mult, <- Ez in Cq.
    change (inject_Z 2) with 2 in Cq. change (inject_Z 1) with 1 in Cq.
    nra.
  - apply Qnot_lt_le. intros C.
    assert (Cz : (2 * (1000 * a) + t < 2 * k * t)%Z).
    { rewrite Zlt_Qlt, inject_Z_plus, !inject_Z_mult, <- Ez.
      change (inject_Z 2) with 2. nra. }
    assert (Cq : inject_Z (2 * (1000 * a) + t + 1) <= inject_Z (2 * k * t))
      by (rewrite <- Zle_Qle; lia).
    rewrite !inject_Z_plus, !inject_Z_mult, <- Ez in Cq.
    change (inject_Z 2) with 2 in Cq. change (inject_Z 1) with 1 in Cq.
    nra.
Qed.

(** The percentage of a count, rounded to one decimal, is a one-decimal
    number nearest to the exact percentage. *)
Lemma round_pct_nearest (a t : Z) :
  (0 < t <= 2 ^ 40)%Z -> (- t <= a <= t)%Z ->
  nearest_tenth (round (fmul (fdiv (inject_Z a) (inject_Z t)) 100) 1)
                (inject_Z a / inject_Z t * 100).
Proof.
  intros Ht Ha. pose proof (ratio1000_nearest a t Ht Ha) as [Hlo Hhi].
  unfold round. change (inject_Z (10 ^ Z.of_nat 1)) with 10.
  set (k := rint (fmul (fmul (fdiv (inject_Z a) (inject_Z t)) 100) 10)) in *.
  split; [exists k; reflexivity|].
  assert (E : inject_Z k / 10 == inject_Z k * (1 # 10)) by reflexivity.
  rewrite E. apply Qabs_Qle_condition. split; lra.
Qed.

(** It is the rounding of the exact percentage unless that lies halfway
    between two one-decimal numbers. *)
Lemma round_pct_exact (a t : Z) :
  (0 < t <= 2 ^ 40)%Z -> (- t <= a <= t)%Z ->
  ~ halfway (inject_Z a / inject_Z t * 100) 1 ->
  round (fmul (fdiv (inject_Z a) (inject_Z t)) 100) 1
  = py_round (inject_Z a / inject_Z t * 100) 1.
Proof.
  intros Ht Ha Hh. pose proof (ratio1000_nearest a t Ht Ha) as [Hlo Hhi].
  unfold round, py_round. change (inject_Z (10 ^ Z.of_nat 1)) with 10.
  set (k := rint (fmul (fmul (fdiv (inject_Z a) (inject_Z t)) 100) 10)) in *.
  set (z := inject_Z a / inject_Z t * 100 * 10) in *.
  f_equal. f_equal. symmetry. apply rint_unique. fold z.
  split.
  - destruct (Qeq_dec (inject_Z k) (z - (1 # 2))) as [E|N]; [|lra].
    exfalso. apply Hh. exists k.
    change (inject_Z (10 ^ Z.of_nat 1)) with 10. fold z. lra.
  - destruct (Qeq_dec (inject_Z k) (z + (1 # 2))) as [E|N]; [|lra].
    exfalso. apply Hh. exists (k + - 1)%Z.
    change (inject_Z (10 ^ Z.of_nat 1)) with 10. fold z.
    rewrite inject_Z_plus. change (inject_Z (- 1)) with (- 1 # 1). lra.
Qed.

(** Three one-decimal numbers, each nearest to its share, add up to the
    sum of the shares within 0.15. *)
Lemma three_tenths (v1 v2 v3 x1 x2 x3 : Q) :
  nearest_tenth v1 x1 -> nearest_tenth v2 x2 -> nearest_tenth v3 x3 ->
  Qabs (v1 + v2 + v3 - (x1 + x2 + x3)) <= 15 # 100.
Proof.
  intros [_ H1] [_ H2] [_ H3].
  apply Qabs_Qle_condition in H1, H2, H3.
  apply Qabs_Qle_condition. split; lra.
Qed.

Lemma np_sum_bounds (p : Q -> bool) (l : list Q) :
  (0 <= np_sum (map p l) <= len l)%Z.
Proof.
  rewrite np_sum_count. unfold count, len.
  pose proof (filter_length_le p l). lia.
Qed.

Lemma prom_det_le_total (l : list Q) :
  (- len l <= np_sum (map is_prom l) - np_sum (map is_det l) <= len l)%Z.
Proof.
  pose proof (np_sum_bounds is_prom l). pose proof (np_sum_bounds is_det l). lia.
Qed.

Lemma len_map {A B} (f : A -> B) (l : list A) : len (map f l) = len l.
Proof. unfold len. now rewrite length_map. Qed.

Lemma len_pos {A} (l : list A) : l <> [] -> (len l =? 0)%Z = false.
Proof.
  intros H. destruct l; [congruence|].
  apply Z.eqb_neq. unfold len. simpl. lia.
Qed.

(** ** The maximum of a scope and the rescaling decision *)

Lemma fold_max_spec (t : list Q) (x : Q) :
  is_maximum (fold_left (fun m y => if Qltb m y then y else m) t x) (x :: t).
Proof.
  revert x. induction t as [|y t IH]; intros x; simpl.
  - split; [now left|]. constructor; [apply Qle_refl|constructor].
  - destruct (IH (if Qltb x y then y else x)) as [Hin Hall].
    inversion Hall as [|? ? Hhd Htl]; subst.
    split.
    + destruct Hin as [Hin|Hin]; [|now right; right].
      rewrite <- Hin. destruct (Qltb x y); [right|]; now left.
    + destruct (Qltb x y) eqn:E.
      * apply Qltb_lt in E.
        constructor; [|now constructor].
        apply Qle_trans with y; [now apply Qlt_le_weak|exact Hhd].
      * apply Qltb_ge in E.
        constructor; [exact Hhd|constructor; [|exact Htl]].
        now apply Qle_trans with x.
Qed.

Lemma np_max_spec (l : list Q) (m : Q) :
  np_max l = Some m -> is_maximum m l.
Proof.
  destruct l as [|x t]; simpl; [discriminate|].
  intros [= <-]. apply fold_max_spec.
Qed.

Lemma maximum_unique (l : list Q) (a b : Q) :
  is_maximum a l -> is_maximum b l -> a == b.
Proof.
  intros [Ha Fa] [Hb Fb].
  rewrite Forall_forall in Fa, Fb.
  apply Qle_antisym; auto.
Qed.

Lemma max_gt_10_iff (l : list Q) (m : Q) :
  is_maximum m l -> (max_gt_10 l = true <-> 10 < m).
Proof.
  intros Hm. unfold max_gt_10.
  destruct (np_max l) as [m'|] eqn:E.
  - apply np_max_spec in E.
    rewrite Qltb_lt, (maximum_unique l m' m E Hm). reflexivity.
  - destruct l; [|discriminate]. destruct Hm as [[] _].
Qed.

Lemma max_gt_10_exists (l : list Q) :
  max_gt_10 l = true <-> exists x, In x l /\ 10 < x.
Proof.
  unfold max_gt_10.
  destruct (np_max l) as [m|] eqn:E.
  - apply np_max_spec in E. destruct E as [Hin Hall].
    rewrite Qltb_lt. split.
    + intros H. now exists m.
    + intros (x & Hx & Hlt). rewrite Forall_forall in Hall.
      apply Qlt_le_trans with x; auto.
  - destruct l; [|discriminate].
    split; [discriminate|]. now intros (x & [] & _).
Qed.

Lemma rescale_id (l : list Q) :
  Forall (fun x => x <= 10) l -> rescale l = l.
Proof.
  intros H. unfold rescale.
  destruct (max_gt_10 l) eqn:E; [|reflexivity].
  apply max_gt_10_exists in E. destruct E as (x & Hx & Hlt).
  rewrite Forall_forall in H. apply H in Hx. exfalso. lra.
Qed.

Lemma len_rescale (l : list Q) : len (rescale l) = len l.
Proof.
  unfold rescale, div10. destruct (max_gt_10 l); [apply len_map|reflexivity].
Qed.

Lemma rescale_nonempty (l : list Q) : l <> [] -> rescale l <> [].
Proof.
  intros H E. apply H. apply (f_equal len) in E. rewrite len_rescale in E.
  destruct l; [reflexivity|]. unfold len in E. simpl in E. lia.
Qed.

(** ** The NPS metric *)

Lemma len_positive {A} (l : list A) : l <> [] -> (0 < len l)%Z.
Proof.
  intros H. destruct l; [congruence|]. unfold len. simpl. lia.
Qed.

Lemma round_pct_reported (a t : Z) :
  (0 < t <= 2 ^ 40)%Z -> (- t <= a <= t)%Z ->
  reported (round (fmul (fdiv (inject_Z a) (inject_Z t)) 100) 1)
           (inject_Z a / inject_Z t * 100).
Proof.
  intros Ht Ha. split.
  - now apply round_pct_nearest.
  - now apply round_pct_exact.
Qed.

(** The NPS and the three percentages of a list of scores, as the scripts
    compute them, are the values reported for the exact numbers. *)
Lemma metric_reported (l : list Q) :
  l <> [] -> (len l <= 2 ^ 40)%Z ->
  let t := inject_Z (len l) in
  reported (round (fmul (fdiv (inject_Z (np_sum (map is_prom l)
                                         - np_sum (map is_det l))) t) 100) 1)
           (nps_exact l)
  /\ reported (round (fmul (fdiv (inject_Z (np_sum (map is_prom l))) t) 100) 1)
              (share (promoters l) l)
  /\ reported (round (fmul (fdiv (inject_Z (np_sum (map is_pass l))) t) 100) 1)
              (share (passives l) l)
  /\ reported (round (fmul (fdiv (inject_Z (np_sum (map is_det l))) t) 100) 1)
              (share (detractors l) l).
Proof.
  intros Hne Hmax t. subst t.
  pose proof (len_positive l Hne) as Hpos.
  pose proof (prom_det_le_total l) as Hn.
  pose proof (np_sum_bounds is_prom l) as Hp.
  pose proof (np_sum_bounds is_pass l) as Ha.
  pose proof (np_sum_bounds is_det l) as Hd.
  unfold nps_exact, share.
  rewrite <- prom_count, <- pass_count, <- det_count.
  repeat split; apply round_pct_reported; lia.
Qed.

(** [C2], as amended.  On every non-empty list of normalized scores (of
    at most [2^40] responses) the period table and the entity snapshot
    count promoters as the scores [>= 9], passives as those in [[7, 8]]
    and detractors as those [<= 6], and report as NPS a one-decimal number
    nearest to [((#promoters - #detractors) / #total) * 100]: the rounding
    of that number to one decimal, unless it lies halfway between two
    one-decimal numbers, where the float64 arithmetic decides.  The
    percentages are reported likewise.  On the scores
    [10,10,10,9,8,8,7,6,5,0] this is NPS 10.0 with 4 promoters, 3 passives,
    3 detractors, and a mean of 7.3, also when the ten responses go
    through the two pipelines as entity X in 2025. *)
Theorem nps_metric_formula :
  (forall (df_sub : DataFrame) (p : string),
      df_sub <> [] ->
      Forall (fun x => x <= 10) (map Nota df_sub) ->
      (len df_sub <= 2 ^ 40)%Z ->
      let l := map Nota df_sub in
      exists m,
        Lojistas.calculate_metrics df_sub p = Some m
        /\ Lojistas.total m = len df_sub
        /\ Lojistas.prom_abs m = promoters l
        /\ Lojistas.pass_abs m = passives l
        /\ Lojistas.det_abs m = detractors l
        /\ reported (Lojistas.nps m) (nps_exact l)
        /\ reported (Lojistas.prom_pct m) (share (promoters l) l)
        /\ reported (Lojistas.pass_pct m) (share (passives l) l)
        /\ reported (Lojistas.det_pct m) (share (detractors l) l))
  /\ (forall notes : list Q,
        notes <> [] ->
        (len notes <= 2 ^ 40)%Z ->
        let e := Kano.Static.entry_of notes in
        Kano.Static.n e = len notes
        /\ reported (Kano.Static.nps e) (nps_exact notes)
        /\ reported (Kano.Static.prom e) (share (promoters notes) notes)
        /\ reported (Kano.Static.neu e) (share (passives notes) notes)
        /\ reported (Kano.Static.detr e) (share (detractors notes) notes))
  /\ (exists m,
        Lojistas.calculate_metrics example_frame "2025" = Some m
        /\ Lojistas.nps m == 10
        /\ Lojistas.total m = 10%Z
        /\ Lojistas.prom_abs m = 4%Z
        /\ Lojistas.pass_abs m = 3%Z
        /\ Lojistas.det_abs m = 3%Z)
  /\ (exists m,
        Lojistas.output example_frame = [("X", [m]); ("GLOBAL", [m])]
        /\ Lojistas.period m = "2025" /\ Lojistas.nps m == 10)
  /\ (exists e,
        Kano.Static.nps_static example_frame = [("X", e)]
        /\ Kano.Static.nps e == 10
        /\ Kano.Static.media e == 73 # 10
        /\ Kano.Static.prom e == 40
        /\ Kano.Static.neu e == 30
        /\ Kano.Static.detr e == 30).
Proof.
  split; [|split; [|split; [|split]]].
  - intros df_sub p Hne Hnorm Hmax l. subst l.
    unfold Lojistas.calculate_metrics.
    rewrite (len_pos df_sub Hne), (rescale_id _ Hnorm).
    eexists. split; [reflexivity|].
    cbn [Lojistas.nps Lojistas.total Lojistas.prom_abs Lojistas.pass_abs
         Lojistas.det_abs Lojistas.prom_pct Lojistas.pass_pct Lojistas.det_pct].
    assert (Hl : map Nota df_sub <> []).
    { destruct df_sub; [congruence|discriminate]. }
    pose proof (metric_reported (map Nota df_sub) Hl) as H.
    rewrite len_map in H. specialize (H Hmax).
    destruct H as (H1 & H2 & H3 & H4).
    split; [reflexivity|].
    split; [apply prom_count|]. split; [apply pass_count|].
    split; [apply det_count|].
    split; [exact H1|]. split; [exact H2|]. split; [exact H3|exact H4].
  - intros notes Hne Hmax e. subst e.
    unfold Kano.Static.entry_of.
    cbn [Kano.Static.nps Kano.Static.n Kano.Static.prom Kano.Static.neu
         Kano.Static.detr].
    destruct (metric_reported notes Hne Hmax) as (H1 & H2 & H3 & H4).
    split; [reflexivity|].
    split; [exact H1|]. split; [exact H2|]. split; [exact H3|exact H4].
  - eexists. split; [vm_compute; reflexivity|]. simpl.
    repeat split; reflexivity.
  - eexists. split; [vm_compute; reflexivity|].
    split; vm_compute; reflexivity.
  - eexists. split; [vm_compute; reflexivity|].
    repeat split; vm_compute; reflexivity.
Qed.

Lemma nps_metric_formula_witness :
  exists m,
    Lojistas.calculate_metrics example_frame "2025" = Some m
    /\ reported (Lojistas.nps m) (nps_exact example_scores).
Proof.
  destruct (proj1 nps_metric_formula example_frame "2025")
    as (m & H1 & _ & _ & _ & _ & H2 & _).
  - discriminate.
  - repeat constructor; vm_compute; discriminate.
  - vm_compute. discriminate.
  - exists m. split; [exact H1|exact H2].
Defined.

(** [C2] fails as stated: of eighty normalized scores 23 are promoters
    and none is a detractor; the exact NPS is 28.75, which rounds to 28.8
    (ties to even, and ties upwards as well), but the quotient 23/80 times
    100 is 28.749999999999996 in float64 and the metric reports 28.7. *)
Lemma nps_tie_counterexample :
  exists m,
    tie_frame <> []
    /\ Forall (fun x => x <= 10) (map Nota tie_frame)
    /\ Lojistas.calculate_metrics tie_frame "2025" = Some m
    /\ promoters tie_scores = 23%Z
    /\ detractors tie_scores = 0%Z
    /\ len tie_scores = 80%Z
    /\ nps_exact tie_scores == 2875 # 100
    /\ nps_score tie_scores == 288 # 10
    /\ inject_Z (Qfloor (nps_exact tie_scores * 10 + (1 # 2))) / 10 == 288 # 10
    /\ Lojistas.nps m == 287 # 10
    /\ ~ Lojistas.nps m == nps_score tie_scores.
Proof.
  eexists. split; [discriminate|].
  split; [apply Forall_forall; intros x Hx; vm_compute in Hx;
          repeat (destruct Hx as [<-|Hx]; [vm_compute; discriminate|]);
          contradiction|].
  split; [vm_compute; reflexivity|].
  repeat split; try (vm_compute; reflexivity).
  intros H. vm_compute in H. discriminate H.
Qed.

(** ** The three bands *)

Lemma gap_no_band (x : Q) :
  in_gap x -> is_prom x = false /\ is_pass x = false /\ is_det x = false.
Proof.
  unfold in_gap, is_prom, is_pass, is_det. intros H.
  destruct (Qleb 9 x) eqn:E9, (Qleb 7 x) eqn:E7,
           (Qleb x 8) eqn:E8, (Qleb x 6) eqn:E6; simpl; auto;
    repeat match goal with
           | H : Qleb _ _ = true |- _ => apply Qleb_le in H
           end; exfalso; lra.
Qed.

Lemma no_gap_band (x : Q) :
  ~ in_gap x -> is_prom x || is_pass x || is_det x = true.
Proof.
  unfold in_gap, is_prom, is_pass, is_det, Qleb. intros H.
  destruct (Qle_bool 9 x) eqn:E9; [reflexivity|].
  destruct (Qle_bool x 6) eqn:E6; [now rewrite orb_true_r|].
  destruct (Qle_bool 7 x) eqn:E7, (Qle_bool x 8) eqn:E8; try reflexivity;
    exfalso; apply H;
    repeat match goal with
           | H : Qle_bool _ _ = true |- _ => apply Qle_bool_iff in H
           | H : Qle_bool ?a ?b = false |- _ =>
               assert (b < a) by (apply Qltb_lt; unfold Qltb; now rewrite H);
               clear H
           end; lra.
Qed.

(** [C9] The promoter, passive and detractor bands are pairwise disjoint
    and leave out the scores strictly between 6 and 7 and strictly between
    8 and 9; the three counts of the period table and of the matrix
    therefore never exceed the total, and stay strictly below it on the
    0-100 scores 65 and 100, which rescale to 6.5 and 10. *)
Theorem bands_disjoint_not_exhaustive :
  (forall x : Q,
      is_prom x && is_pass x = false
      /\ is_prom x && is_det x = false
      /\ is_pass x && is_det x = false)
  /\ (forall x : Q,
        in_gap x -> is_prom x = false /\ is_pass x = false /\ is_det x = false)
  /\ (forall (df_sub : DataFrame) (p : string) (m : Lojistas.Metrics),
        Lojistas.calculate_metrics df_sub p = Some m ->
        (Lojistas.prom_abs m + Lojistas.pass_abs m + Lojistas.det_abs m
         <= Lojistas.total m)%Z)
  /\ (forall x : DataFrame,
        (Matrix.Prom (Matrix.get_metrics x) + Matrix.Neu (Matrix.get_metrics x)
         + Matrix.Det (Matrix.get_metrics x) <= Matrix.N (Matrix.get_metrics x))%Z)
  /\ (exists m,
        Lojistas.calculate_metrics gap_frame "2025" = Some m
        /\ (Lojistas.prom_abs m + Lojistas.pass_abs m + Lojistas.det_abs m
            < Lojistas.total m)%Z)
  /\ (Matrix.Prom (Matrix.get_metrics gap_frame)
      + Matrix.Neu (Matrix.get_metrics gap_frame)
      + Matrix.Det (Matrix.get_metrics gap_frame)
      < Matrix.N (Matrix.get_metrics gap_frame))%Z.
Proof.
  split; [|split; [|split; [|split; [|split]]]].
  - intros x. pose proof (band_exclusive x) as H.
    destruct (is_prom x), (is_pass x), (is_det x); simpl in *;
      repeat split; try reflexivity; lia.
  - exact gap_no_band.
  - intros df_sub p m. unfold Lojistas.calculate_metrics.
    destruct (len df_sub =? 0)%Z; [discriminate|].
    intros [= <-]. simpl.
    pose proof (bands_le_total (rescale (map Nota df_sub))) as H.
    rewrite len_rescale, len_map in H. exact H.
  - intros x. unfold Matrix.get_metrics.
    destruct (len x =? 0)%Z; simpl; [lia|].
    pose proof (bands_le_total (rescale (map Nota x))) as H.
    rewrite len_rescale, len_map in H. lia.
  - eexists. split; [vm_compute; reflexivity|]. vm_compute. reflexivity.
  - vm_compute. reflexivity.
Qed.

Lemma bands_disjoint_not_exhaustive_witness :
  (is_prom (65 # 10) = false /\ is_pass (65 # 10) = false
   /\ is_det (65 # 10) = false)
  /\ (exists m, Lojistas.calculate_metrics gap_frame "2025" = Some m
        /\ (Lojistas.prom_abs m + Lojistas.pass_abs m + Lojistas.det_abs m
            <= Lojistas.total m)%Z).
Proof.
  destruct bands_disjoint_not_exhaustive as (_ & Hgap & Hle & _).
  split.
  - apply Hgap. left. split; vm_compute; reflexivity.
  - eexists. split; [vm_compute; reflexivity|].
    apply (Hle gap_frame "2025"). vm_compute. reflexivity.
Defined.

(** ** Percentages *)

Lemma share_sum (a b c : Z) (l : list Q) :
  l <> [] ->
  share a l + share b l + share c l
  == inject_Z (a + b + c) / inject_Z (len l) * 100.
Proof.
  intros Hne. pose proof (len_positive l Hne) as Hpos.
  assert (T : ~ inject_Z (len l) == 0).
  { intros C. unfold Qeq in C. simpl in C. lia. }
  unfold share. rewrite !inject_Z_plus. field. exact T.
Qed.

Lemma metric_pct_sum (l : list Q) :
  l <> [] -> (len l <= 2 ^ 40)%Z ->
  let t := inject_Z (len l) in
  let s := round (fmul (fdiv (inject_Z (np_sum (map is_prom l))) t) 100) 1
           + round (fmul (fdiv (inject_Z (np_sum (map is_pass l))) t) 100) 1
           + round (fmul (fdiv (inject_Z (np_sum (map is_det l))) t) 100) 1 in
  Qabs (s - inject_Z (np_sum (map is_prom l) + np_sum (map is_pass l)
                      + np_sum (map is_det l)) / t * 100) <= 15 # 100
  /\ (Forall (fun x => ~ in_gap x) l -> Qabs (s - 100) <= 15 # 100).
Proof.
  intros Hne Hmax t s.
  destruct (metric_reported l Hne Hmax) as (_ & [H1 _] & [H2 _] & [H3 _]).
  pose proof (three_tenths _ _ _ _ _ _ H1 H2 H3) as H.
  rewrite (share_sum _ _ _ l Hne) in H.
  rewrite <- prom_count, <- pass_count, <- det_count in H.
  split; [exact H|].
  intros Hgap. rewrite bands_eq_total in H.
  - assert (E : inject_Z (len l) / inject_Z (len l) * 100 == 100).
    { field. intros C. pose proof (len_positive l Hne).
      unfold Qeq in C. simpl in C. lia. }
    rewrite E in H. exact H.
  - eapply Forall_impl; [|exact Hgap]. intros x. apply no_gap_band.
Qed.

(** [C6], as amended.  In the period table and in the entity snapshot (of
    at most [2^40] responses) each percentage is a one-decimal number
    nearest to its band count over the total, times 100, and the three
    percentages add up to 100 times the share of responses that fall in
    some band, within 0.15; they add up to 100 within 0.15 whenever no
    normalized score lies strictly between 6 and 7 or strictly between 8
    and 9. *)
Theorem pct_sum_counted_share :
  (forall (df_sub : DataFrame) (p : string) (m : Lojistas.Metrics),
      Lojistas.calculate_metrics df_sub p = Some m ->
      (Lojistas.total m <= 2 ^ 40)%Z ->
      let t := inject_Z (Lojistas.total m) in
      let counted :=
        (Lojistas.prom_abs m + Lojistas.pass_abs m + Lojistas.det_abs m)%Z in
      let s := Lojistas.prom_pct m + Lojistas.pass_pct m + Lojistas.det_pct m in
      nearest_tenth (Lojistas.prom_pct m)
                    (inject_Z (Lojistas.prom_abs m) / t * 100)
      /\ nearest_tenth (Lojistas.pass_pct m)
                       (inject_Z (Lojistas.pass_abs m) / t * 100)
      /\ nearest_tenth (Lojistas.det_pct m)
                       (inject_Z (Lojistas.det_abs m) / t * 100)
      /\ Qabs (s - inject_Z counted / t * 100) <= 15 # 100
      /\ (Forall (fun x => ~ in_gap x) (rescale (map Nota df_sub)) ->
          Qabs (s - 100) <= 15 # 100))
  /\ (forall notes : list Q,
        notes <> [] ->
        (len notes <= 2 ^ 40)%Z ->
        let e := Kano.Static.entry_of notes in
        let counted := (promoters notes + passives notes + detractors notes)%Z in
        let s := Kano.Static.prom e + Kano.Static.neu e + Kano.Static.detr e in
        Qabs (s - inject_Z counted / inject_Z (len notes) * 100) <= 15 # 100
        /\ (Forall (fun x => ~ in_gap x) notes -> Qabs (s - 100) <= 15 # 100)).
Proof.
  split.
  - intros df_sub p m. unfold Lojistas.calculate_metrics.
    destruct (len df_sub =? 0)%Z eqn:Hlen; [discriminate|].
    intros [= <-].
    cbn [Lojistas.total Lojistas.prom_abs Lojistas.pass_abs Lojistas.det_abs
         Lojistas.prom_pct Lojistas.pass_pct Lojistas.det_pct].
    intros Hmax.
    set (l := rescale (map Nota df_sub)).
    assert (Hne : l <> []).
    { apply rescale_nonempty. destruct df_sub; [discriminate Hlen|discriminate]. }
    assert (El : len l = len df_sub).
    { unfold l. now rewrite len_rescale, len_map. }
    rewrite <- El in Hmax |- *.
    destruct (metric_reported l Hne Hmax) as (_ & [H1 _] & [H2 _] & [H3 _]).
    unfold share in H1, H2, H3.
    rewrite <- prom_count in H1. rewrite <- pass_count in H2.
    rewrite <- det_count in H3.
    destruct (metric_pct_sum l Hne Hmax) as [H4 H5].
    split; [exact H1|]. split; [exact H2|]. split; [exact H3|].
    split; [exact H4|exact H5].
  - intros notes Hne Hmax e counted s. subst e counted s.
    unfold Kano.Static.entry_of.
    cbn [Kano.Static.prom Kano.Static.neu Kano.Static.detr].
    rewrite <- prom_count, <- pass_count, <- det_count.
    apply (metric_pct_sum notes Hne Hmax).
Qed.

Lemma pct_sum_counted_share_witness :
  exists m,
    Lojistas.calculate_metrics example_frame "2025" = Some m
    /\ Qabs (Lojistas.prom_pct m + Lojistas.pass_pct m + Lojistas.det_pct m - 100)
       <= 15 # 100.
Proof.
  eexists. split; [vm_compute; reflexivity|].
  apply (proj1 pct_sum_counted_share example_frame "2025");
    [vm_compute; reflexivity|vm_compute; discriminate|].
  change (rescale (map Nota example_frame)) with example_scores.
  unfold example_scores.
  repeat constructor; intros [[H1 H2]|[H1 H2]];
    vm_compute in H1, H2; congruence.
Defined.

(** [C6] fails as stated: the 0-100 scores 65 and 100 rescale to 6.5 and
    10, only the second is in a band, and the three percentages add up
    to 50. *)
Lemma pct_sum_counterexample :
  exists m,
    gap_frame <> []
    /\ Lojistas.calculate_metrics gap_frame "2025" = Some m
    /\ Lojistas.prom_pct m + Lojistas.pass_pct m + Lojistas.det_pct m == 50
    /\ ~ Qabs (Lojistas.prom_pct m + Lojistas.pass_pct m + Lojistas.det_pct m - 100)
         <= 15 # 100.
Proof.
  eexists. split; [discriminate|].
  split; [vm_compute; reflexivity|].
  split; [vm_compute; reflexivity|].
  intros H. vm_compute in H. apply H. reflexivity.
Qed.

(** ** Score normalization *)

Lemma rescale_by_maximum (scope : list Q) (m : Q) :
  is_maximum m scope ->
  (10 < m -> rescale scope = map (fun x => x / 10) scope)
  /\ (m <= 10 -> rescale scope = scope).
Proof.
  intros Hm. pose proof (max_gt_10_iff scope m Hm) as Hiff.
  unfold rescale. split; intros H.
  - apply Hiff in H. now rewrite H.
  - destruct (max_gt_10 scope); [|reflexivity].
    exfalso. apply (Qlt_not_le 10 m); [now apply Hiff|exact H].
Qed.

Lemma normalize_Nota (frame : DataFrame) :
  map Nota (Kano.normalize frame) = rescale (map Nota frame).
Proof.
  unfold Kano.normalize, rescale, div10.
  destruct (max_gt_10 (map Nota frame)); [|reflexivity].
  rewrite !map_map. reflexivity.
Qed.

Lemma normalize_other_columns (frame : DataFrame) :
  map (fun r => Kano.set_Nota r 0) (Kano.normalize frame)
  = map (fun r => Kano.set_Nota r 0) frame.
Proof.
  unfold Kano.normalize.
  destruct (max_gt_10 (map Nota frame)); [|reflexivity].
  rewrite map_map. reflexivity.
Qed.

(** Everything the topic-classification script writes is computed from
    the selected and rescaled frame. *)
Lemma kano_output_from_df_2025 (col_loja : bool) (df df' : DataFrame) :
  Kano.df_2025 df = Kano.df_2025 df' ->
  Kano.output_js col_loja df = Kano.output_js col_loja df'.
Proof.
  intros H.
  unfold Kano.output_js, Kano.kano_global, Kano.kano_by_shop, Kano.heatmap,
    Kano.Static.nps_static, Kano.Roster.lojistas_list, Kano.shoppings,
    Kano.themes, Kano.pivot.
  rewrite H. reflexivity.
Qed.

(** [C3] In every pipeline the scope at hand is rescaled as a whole: when
    its maximum exceeds 10 every score is divided by 10, otherwise every
    score stays.  The period table, the matrix and the histogram see the
    raw scores only through the rescaled column; the classification
    script rescales the selected frame, leaving the other columns alone,
    before anything is computed from it.  The decision is per scope: in
    the scope [95, 8] the 8 becomes 0.8 although it does not exceed 10. *)
Theorem rescale_per_scope :
  (forall (scope : list Q) (m : Q),
      is_maximum m scope ->
      (10 < m -> rescale scope = map (fun x => x / 10) scope)
      /\ (m <= 10 -> rescale scope = scope))
  /\ (forall (a b : DataFrame) (p : string),
        rescale (map Nota a) = rescale (map Nota b) ->
        Lojistas.calculate_metrics a p = Lojistas.calculate_metrics b p)
  /\ (forall a b : DataFrame,
        rescale (map Nota a) = rescale (map Nota b) ->
        Matrix.get_metrics a = Matrix.get_metrics b)
  /\ (forall df : DataFrame,
        Lojistas.dist_arr df
        = map (fun i => count (fun x => Qeq_bool x (inject_Z (Z.of_nat i)))
                 (rescale (map Nota
                    (filter (fun r => String.eqb (Lojistas.Period r) "2025")
                            (Lojistas.df_final df)))))
              (seq 0 11))
  /\ (forall df : DataFrame,
        map Nota (Kano.df_2025 df) = rescale (map Nota (Kano.df_2025_selected df))
        /\ map (fun r => Kano.set_Nota r 0) (Kano.df_2025 df)
           = map (fun r => Kano.set_Nota r 0) (Kano.df_2025_selected df))
  /\ (forall (col_loja : bool) (df df' : DataFrame),
        Kano.df_2025 df = Kano.df_2025 df' ->
        Kano.output_js col_loja df = Kano.output_js col_loja df')
  /\ Forall2 Qeq (rescale [95; 8]) [95 # 10; 8 # 10].
Proof.
  split; [exact rescale_by_maximum|].
  split.
  { intros a b p H. unfold Lojistas.calculate_metrics.
    assert (L : len a = len b).
    { rewrite <- (len_map Nota a), <- (len_map Nota b),
        <- len_rescale, H, len_rescale. reflexivity. }
    rewrite H, L. reflexivity. }
  split.
  { intros a b H. unfold Matrix.get_metrics.
    assert (L : len a = len b).
    { rewrite <- (len_map Nota a), <- (len_map Nota b),
        <- len_rescale, H, len_rescale. reflexivity. }
    rewrite H, L. reflexivity. }
  split.
  { intros df. unfold Lojistas.dist_arr.
    apply map_ext. intros i. apply np_sum_count. }
  split.
  { intros df. unfold Kano.df_2025.
    split; [apply normalize_Nota|apply normalize_other_columns]. }
  split; [exact kano_output_from_df_2025|].
  repeat constructor.
Qed.

Lemma rescale_per_scope_witness :
  rescale [95; 8] = map (fun x => x / 10) [95; 8]
  /\ rescale [9; 10] = [9; 10].
Proof.
  split.
  - apply (proj1 rescale_per_scope [95; 8] 95).
    + split; [now left|]. repeat constructor; vm_compute; discriminate.
    + vm_compute. reflexivity.
  - apply (proj1 rescale_per_scope [9; 10] 10).
    + split; [right; now left|]. repeat constructor; vm_compute; discriminate.
    + vm_compute. discriminate.
Defined.

(** ** Topic statistics *)

Lemma isin_In (x : string) (l : list string) : Kano.isin x l = true <-> In x l.
Proof.
  unfold Kano.isin. rewrite existsb_exists. split.
  - intros (y & Hy & E). apply String.eqb_eq in E. now subst.
  - intros H. exists x. split; [exact H|apply String.eqb_refl].
Qed.

Lemma calculate_stats_In (df_sub : Kano.Pivot) (ths : list string) (st : Kano.Stat) :
  In st (Kano.calculate_stats df_sub ths) <->
  Kano.isin TARGET (Kano.columns df_sub) = true
  /\ exists t0,
       In t0 ths
       /\ Kano.isin t0 (Kano.columns df_sub) = true
       /\ (5 <= len (Kano.valid_pairs df_sub t0))%Z
       /\ st = Kano.stat_of t0 (Kano.valid_pairs df_sub t0).
Proof.
  unfold Kano.calculate_stats.
  destruct (Kano.isin TARGET (Kano.columns df_sub)); simpl.
  - rewrite in_flat_map. split.
    + intros (t0 & Hin & Hst). split; [reflexivity|]. exists t0.
      destruct (Kano.isin t0 (Kano.columns df_sub)); simpl in Hst; [|contradiction].
      destruct (len (Kano.valid_pairs df_sub t0) <? 5)%Z eqn:E; [contradiction|].
      apply Z.ltb_ge in E. destruct Hst as [<-|[]]. auto.
    + intros (_ & t0 & Hin & Hcol & Hlen & ->). exists t0.
      split; [exact Hin|]. rewrite Hcol. simpl.
      apply Z.ltb_ge in Hlen. rewrite Hlen. now left.
  - split; [contradiction|]. intros [H _]. discriminate.
Qed.

Lemma stat_of_t (t0 : string) (valid : list (Q * Q)) :
  Kano.t (Kano.stat_of t0 valid) = t0.
Proof. reflexivity. Qed.

Lemma len_valid_pairs (pv : Kano.Pivot) (t0 : string) :
  len (Kano.valid_pairs pv t0) = paired_count pv t0.
Proof.
  unfold Kano.valid_pairs, paired_count, paired, len. f_equal.
  induction (Kano.rows pv) as [|r l IH]; simpl; [reflexivity|].
  destruct (Kano.cell r t0), (Kano.cell r TARGET); simpl; rewrite IH; reflexivity.
Qed.

Lemma find_key_In {V} (k : string) (l : list (string * V)) (kv : string * V) :
  find (fun kv => String.eqb (fst kv) k) l = Some kv -> In k (map fst l).
Proof.
  intros H. apply find_some in H. destruct H as [Hin E].
  apply String.eqb_eq in E. subst k. now apply in_map.
Qed.

Lemma wf_pivot_of (frame : DataFrame) : wf_pivot (Kano.pivot_of frame).
Proof.
  intros r t0 v Hr Hc. unfold Kano.pivot_of in *. simpl in *.
  apply in_map_iff in Hr. destruct Hr as (rid & <- & _).
  unfold Kano.cell in Hc. simpl in Hc.
  destruct (find _ _) as [kv|] eqn:F; [|discriminate].
  apply find_key_In in F. rewrite map_map in F. simpl in F. rewrite map_id in F.
  destruct (Kano.isin "ShoppingCode" _) eqn:E; apply isin_In; [exact F|].
  apply in_or_app. now left.
Qed.

Lemma wf_shop_frame (pv : Kano.Pivot) (s : string) :
  wf_pivot pv -> wf_pivot (Kano.shop_frame pv s).
Proof.
  intros H r t0 v Hr Hc. simpl in *.
  apply filter_In in Hr. destruct Hr as [Hr _]. exact (H r t0 v Hr Hc).
Qed.

Lemma paired_count_no_column (pv : Kano.Pivot) (t0 : string) :
  wf_pivot pv ->
  Kano.isin t0 (Kano.columns pv) = false \/
  Kano.isin TARGET (Kano.columns pv) = false ->
  paired_count pv t0 = 0%Z.
Proof.
  intros Hwf Hno. unfold paired_count.
  rewrite (filter_ext_in (paired t0) (fun _ => false)), filter_false;
    [reflexivity|].
  intros r Hr. unfold paired.
  destruct (Kano.cell r t0) as [a|] eqn:Ea; [|reflexivity].
  destruct (Kano.cell r TARGET) as [b|] eqn:Eb; [|reflexivity].
  apply (Hwf r _ _ Hr) in Ea. apply (Hwf r _ _ Hr) in Eb.
  destruct Hno; congruence.
Qed.

(** On a pivot of the pipeline a theme of the list is emitted exactly
    when at least five respondents are paired for it. *)
Lemma emitted_iff_paired (pv : Kano.Pivot) (ths : list string) (t0 : string) :
  wf_pivot pv -> In t0 ths ->
  (exists st, In st (Kano.calculate_stats pv ths) /\ Kano.t st = t0)
  <-> (5 <= paired_count pv t0)%Z.
Proof.
  intros Hwf Hin. split.
  - intros (st & Hst & <-). apply calculate_stats_In in Hst.
    destruct Hst as (_ & t1 & _ & _ & Hlen & ->).
    rewrite stat_of_t, <- len_valid_pairs. exact Hlen.
  - intros Hlen.
    exists (Kano.stat_of t0 (Kano.valid_pairs pv t0)).
    split; [|reflexivity].
    apply calculate_stats_In.
    destruct (Kano.isin TARGET (Kano.columns pv)) eqn:ET;
      [|rewrite paired_count_no_column in Hlen; auto; lia].
    split; [reflexivity|]. exists t0.
    destruct (Kano.isin t0 (Kano.columns pv)) eqn:E0;
      [|rewrite paired_count_no_column in Hlen; auto; lia].
    rewrite len_valid_pairs. auto.
Qed.

Lemma emitted_sample_size (pv : Kano.Pivot) (ths : list string) (st : Kano.Stat) :
  In st (Kano.calculate_stats pv ths) ->
  Kano.n st = paired_count pv (Kano.t st) /\ (5 <= Kano.n st)%Z.
Proof.
  intros Hst. apply calculate_stats_In in Hst.
  destruct Hst as (_ & t1 & _ & _ & Hlen & ->).
  rewrite stat_of_t. simpl. rewrite <- len_valid_pairs. auto.
Qed.

Lemma kano_by_shop_In (df : DataFrame) (s : string) (sts : list Kano.Stat) :
  In (s, sts) (Kano.kano_by_shop df) ->
  sts = Kano.calculate_stats (Kano.shop_frame (Kano.pivot df) s) (Kano.themes df).
Proof.
  unfold Kano.kano_by_shop. intros H.
  apply in_map_iff in H. destruct H as (s' & [= <- <-] & _). reflexivity.
Qed.

(** [C5] For every analysed topic, in the global table and in every
    per-entity table, a statistic is emitted if and only if at least five
    respondents of the grouping have a score for both the topic and the
    target topic, and an emitted statistic carries that paired count as
    its sample size: four paired respondents give no statistic, five give
    one with [n = 5]. *)
Theorem emitted_iff_five_paired :
  forall (df : DataFrame) (t0 : string),
    In t0 (Kano.themes df) ->
    ((exists st, In st (Kano.kano_global df) /\ Kano.t st = t0)
     <-> (5 <= paired_count (Kano.pivot df) t0)%Z)
    /\ (forall s sts,
          In (s, sts) (Kano.kano_by_shop df) ->
          (exists st, In st sts /\ Kano.t st = t0)
          <-> (5 <= paired_count (Kano.shop_frame (Kano.pivot df) s) t0)%Z)
    /\ (forall st,
          In st (Kano.kano_global df) ->
          Kano.n st = paired_count (Kano.pivot df) (Kano.t st))
    /\ (forall s sts st,
          In (s, sts) (Kano.kano_by_shop df) -> In st sts ->
          Kano.n st = paired_count (Kano.shop_frame (Kano.pivot df) s) (Kano.t st)).
Proof.
  intros df t0 Hin.
  pose proof (wf_pivot_of (Kano.df_2025 df)) as Hwf.
  fold (Kano.pivot df) in Hwf.
  split; [|split; [|split]].
  - apply emitted_iff_paired; assumption.
  - intros s sts Hs. rewrite (kano_by_shop_In df s sts Hs).
    apply emitted_iff_paired; [now apply wf_shop_frame|assumption].
  - intros st Hst. now apply (emitted_sample_size _ (Kano.themes df)).
  - intros s sts st Hs Hst. rewrite (kano_by_shop_In df s sts Hs) in Hst.
    now apply (emitted_sample_size _ (Kano.themes df)).
Qed.

Lemma emitted_iff_five_paired_witness :
  (paired_count (Kano.pivot four_paired) "Limpeza" = 4%Z
   /\ ~ exists st, In st (Kano.kano_global four_paired) /\ Kano.t st = "Limpeza")
  /\ (paired_count (Kano.pivot five_paired) "Limpeza" = 5%Z
      /\ exists st, In st (Kano.kano_global five_paired) /\ Kano.t st = "Limpeza").
Proof.
  split; split; try (vm_compute; reflexivity).
  - intros H.
    apply (proj1 (emitted_iff_five_paired four_paired "Limpeza"
                    ltac:(vm_compute; left; reflexivity))) in H.
    vm_compute in H. apply H. reflexivity.
  - apply (proj1 (emitted_iff_five_paired five_paired "Limpeza"
                    ltac:(vm_compute; left; reflexivity))).
    vm_compute. discriminate.
Defined.

Lemma themes_of_In (pv : Kano.Pivot) (t0 : string) :
  In t0 (Kano.themes_of pv) <->
  In t0 (Kano.columns pv) /\ t0 <> TARGET /\ t0 <> "ShoppingCode".
Proof.
  unfold Kano.themes_of. rewrite filter_In, negb_true_iff.
  split; intros [Hc H]; (split; [exact Hc|]).
  - split; intros ->; discriminate H.
  - destruct H as [H1 H2]. simpl.
    destruct (String.eqb_spec t0 TARGET); [contradiction|].
    destruct (String.eqb_spec t0 "ShoppingCode"); [contradiction|reflexivity].
Qed.

Lemma calculate_stats_theme (pv : Kano.Pivot) (ths : list string) (st : Kano.Stat) :
  In st (Kano.calculate_stats pv ths) -> In (Kano.t st) ths.
Proof.
  intros H. apply calculate_stats_In in H.
  destruct H as (_ & t0 & Hin & _ & _ & ->). exact Hin.
Qed.

(** [C10] The analysed themes are the pivot columns other than the target
    topic and the entity-code column, so no statistic of the global table
    or of a per-entity table has the target topic (or the entity-code
    column) as its topic. *)
Theorem target_never_emitted :
  forall df : DataFrame,
    (forall t0,
        In t0 (Kano.themes df) <->
        In t0 (Kano.columns (Kano.pivot df))
        /\ t0 <> TARGET /\ t0 <> "ShoppingCode")
    /\ (forall st,
          In st (Kano.kano_global df) ->
          Kano.t st <> TARGET /\ Kano.t st <> "ShoppingCode")
    /\ (forall s sts st,
          In (s, sts) (Kano.kano_by_shop df) -> In st sts ->
          Kano.t st <> TARGET /\ Kano.t st <> "ShoppingCode").
Proof.
  intros df. split; [|split].
  - intros t0. apply themes_of_In.
  - intros st Hst. apply calculate_stats_theme in Hst.
    apply themes_of_In in Hst. tauto.
  - intros s sts st Hs Hst. rewrite (kano_by_shop_In df s sts Hs) in Hst.
    apply calculate_stats_theme in Hst. apply themes_of_In in Hst. tauto.
Qed.

Lemma target_never_emitted_witness :
  exists st,
    In st (Kano.kano_global five_paired)
    /\ Kano.t st = "Limpeza"
    /\ Kano.t st <> TARGET.
Proof.
  eexists. split; [vm_compute; left; reflexivity|].
  split; [reflexivity|].
  apply (proj1 (proj2 (target_never_emitted five_paired))).
  vm_compute. left. reflexivity.
Defined.

(** ** Correlation values over the reals

    The symbolic comparisons and the rounding of a correlation agree with
    the real number [num / sqrt den2]. *)

Lemma Qltb_Rlt (x y : Q) : Qltb x y = true <-> (Q2R x < Q2R y)%R.
Proof.
  rewrite Qltb_lt. split; [apply Qlt_Rlt|apply Rlt_Qlt].
Qed.

Lemma corr_ltb_sound (n d c : Q) :
  0 < d ->
  (corr_ltb (Ratio n d) c = true <-> (corr_real n d < Q2R c)%R).
Proof.
  intros Hd. unfold corr_real.
  apply Qlt_Rlt in Hd. change (Q2R 0) with (0 / 1)%R in Hd.
  replace (0 / 1)%R with 0%R in Hd by Lra.lra.
  pose proof (sqrt_lt_R0 _ Hd) as Hs.
  pose proof (sqrt_sqrt (Q2R d) (Rlt_le _ _ Hd)) as Hss.
  set (S := sqrt (Q2R d)) in *. set (N := Q2R n). set (C := Q2R c).
  assert (Hdiv : (N / S < C <-> N < C * S)%R).
  { split; intros H.
    - apply (Rmult_lt_compat_r S) in H; [|exact Hs].
      unfold Rdiv in H. rewrite Rmult_assoc, Rinv_l in H; Lra.lra.
    - apply (Rmult_lt_reg_r S); [exact Hs|].
      unfold Rdiv. rewrite Rmult_assoc, Rinv_l; Lra.lra. }
  rewrite Hdiv. unfold corr_ltb.
  assert (H0 : Q2R 0 = 0%R) by (unfold Q2R; simpl; Lra.lra).
  assert (Hsq : (C * C * Q2R d = C * S * (C * S))%R) by (rewrite <- Hss; ring).
  destruct (Qltb 0 c) eqn:Ec.
  - apply Qltb_Rlt in Ec. rewrite H0 in Ec. fold C in Ec.
    rewrite orb_true_iff, !Qltb_Rlt, !Q2R_mult, H0. fold N C. rewrite Hsq.
    assert (Hp : (0 < C * S)%R) by (apply Rmult_lt_0_compat; assumption).
    generalize dependent (C * S)%R. intros P _ _ Hp.
    split.
    + intros [H|H]; [Lra.lra|].
      destruct (Rlt_le_dec N P) as [|Hge]; [assumption|]. exfalso.
      assert ((P * P <= N * N)%R) by (apply Rmult_le_compat; Lra.lra).
      Lra.lra.
    + intros H. destruct (Rlt_le_dec N 0) as [|Hge]; [now left|right].
      apply Rmult_le_0_lt_compat; assumption.
  - apply Qltb_ge in Ec. apply Qle_Rle in Ec. rewrite H0 in Ec. fold C in Ec.
    rewrite andb_true_iff, !Qltb_Rlt, !Q2R_mult, H0. fold N C. rewrite Hsq.
    assert (Hp : (C * S <= 0)%R).
    { replace 0%R with (0 * S)%R by ring.
      apply Rmult_le_compat_r; Lra.lra. }
    generalize dependent (C * S)%R. intros P _ _ Hp.
    split.
    + intros [H1 H2].
      destruct (Rlt_le_dec N P) as [|Hge]; [assumption|]. exfalso.
      assert ((- N) * (- N) <= (- P) * (- P))%R
        by (apply Rmult_le_compat; Lra.lra).
      Lra.lra.
    + intros H. split; [Lra.lra|].
      assert ((- P) * (- P) < (- N) * (- N))%R.
      { destruct (Req_dec P 0) as [->|Hne].
        - rewrite Ropp_0, Rmult_0_l. apply Rmult_lt_0_compat; Lra.lra.
        - apply Rmult_le_0_lt_compat; Lra.lra. }
      Lra.lra.
Qed.

Lemma squares_nonneg (l : list Q) (m : Q) :
  0 <= Qsum (map (fun p => (fst p - m) * (snd p - m)) (combine l l)).
Proof.
  induction l as [|x l IH]; simpl; [apply Qle_refl|].
  assert (H : 0 <= (x - m) * (x - m)) by (generalize (x - m); intros y; nra).
  lra.
Qed.

Lemma cov_self_nonneg (xs : list Q) : 0 <= cov xs xs.
Proof.
  unfold cov.
  pose proof (squares_nonneg xs (Qmean xs)) as Hs.
  set (s := Qsum _) in *.
  destruct xs as [|x xs].
  - subst s. simpl. vm_compute. discriminate.
  - apply Qmult_le_0_compat; [exact Hs|].
    apply Qinv_le_0_compat.
    unfold len. simpl List.length.
    change 0 with (inject_Z 0). rewrite <- Zle_Qle. lia.
Qed.

Lemma pearson_den_pos (xs ys : list Q) (n d : Q) :
  pearson xs ys = Ratio n d -> 0 < d.
Proof.
  unfold pearson.
  destruct (Qeq_bool (cov xs xs * cov ys ys) 0) eqn:E; [discriminate|].
  intros [= _ <-].
  pose proof (cov_self_nonneg xs) as Hx.
  pose proof (cov_self_nonneg ys) as Hy.
  apply Qeq_bool_neq in E.
  assert (H : 0 <= cov xs xs * cov ys ys) by now apply Qmult_le_0_compat.
  apply Qle_lteq in H. destruct H as [H|H]; [exact H|].
  exfalso. apply E. symmetry. exact H.
Qed.

Lemma Q2R_inject_Z (z : Z) : Q2R (inject_Z z) = IZR z.
Proof. unfold Q2R. simpl. Lra.lra. Qed.

Lemma sqrt_between (m : Z) (x : R) :
  (0 <= m)%Z -> (IZR (m * m) <= x)%R -> (x < IZR ((m + 1) * (m + 1)))%R ->
  (IZR m <= sqrt x < IZR m + 1)%R.
Proof.
  intros Hm Hlo Hhi.
  rewrite mult_IZR in Hlo, Hhi. rewrite plus_IZR in Hhi.
  apply IZR_le in Hm.
  assert (Hx : (0 <= x)%R) by Lra.nra.
  pose proof (sqrt_pos x) as Hs. pose proof (sqrt_sqrt x Hx) as Hss.
  set (s := sqrt x) in *. set (M := IZR m) in *.
  split.
  - destruct (Rle_lt_dec M s) as [|Hlt]; [assumption|]. exfalso.
    assert (s * s < M * M)%R by (apply Rmult_le_0_lt_compat; Lra.lra).
    Lra.lra.
  - destruct (Rlt_le_dec s (M + 1)) as [|Hge]; [assumption|]. exfalso.
    assert ((M + 1) * (M + 1) <= s * s)%R by (apply Rmult_le_compat; Lra.lra).
    Lra.lra.
Qed.

(** [rint_sqrt q] is an integer nearest to the square root of [q]. *)
Lemma rint_sqrt_close (q : Q) :
  0 <= q ->
  (IZR (rint_sqrt q) - / 2 <= sqrt (Q2R q) <= IZR (rint_sqrt q) + / 2)%R.
Proof.
  intros Hq. unfold rint_sqrt.
  set (F := Qfloor (4 * q)).
  assert (HF : (0 <= F)%Z).
  { subst F. change 0%Z with (Qfloor 0). apply Qfloor_resp_le. lra. }
  pose proof (Z.sqrt_spec F HF) as [Hlo Hhi].
  pose proof (Z.sqrt_nonneg F) as Hm.
  set (m := Z.sqrt F) in *.
  pose proof (Qfloor_le (4 * q)) as Hfl. fold F in Hfl.
  pose proof (Qlt_floor (4 * q)) as Hfu. fold F in Hfu.
  apply Qle_Rle in Hfl. apply Qlt_Rlt in Hfu.
  rewrite Q2R_inject_Z in Hfl, Hfu. rewrite Q2R_mult in Hfl, Hfu.
  change (Q2R 4) with (4 * / 1)%R in Hfl, Hfu.
  assert (Hb : (IZR m <= sqrt (4 * Q2R q) < IZR m + 1)%R).
  { apply sqrt_between; [exact Hm| |].
    - apply IZR_le in Hlo. Lra.lra.
    - assert (F + 1 <= (m + 1) * (m + 1))%Z as Hz by lia.
      apply IZR_le in Hz. rewrite plus_IZR in Hz, Hfu. Lra.lra. }
  assert (H4 : sqrt (4 * Q2R q) = (2 * sqrt (Q2R q))%R).
  { rewrite sqrt_mult_alt by Lra.lra.
    replace 4%R with (2 * 2)%R by ring. rewrite sqrt_square by Lra.lra.
    reflexivity. }
  rewrite H4 in Hb. clear H4.
  set (s := sqrt (Q2R q)) in *.
  destruct (Z.even m) eqn:Ev.
  - apply Zeven_bool_iff, Zeven_div2 in Ev. rewrite Z.div2_div in Ev.
    assert (Hj : IZR m = (2 * IZR (m / 2))%R)
      by (rewrite <- mult_IZR; f_equal; exact Ev).
    Lra.lra.
  - pose proof (Zodd_even_bool m) as Ho. rewrite Ev in Ho. simpl in Ho.
    apply Zodd_bool_iff, Zodd_div2 in Ho. rewrite Z.div2_div in Ho.
    assert (Hj : IZR m = (2 * IZR (m / 2) + 1)%R)
      by (rewrite <- mult_IZR, <- plus_IZR; f_equal; exact Ho).
    destruct (Qeq_bool (4 * q) (inject_Z (m * m))) eqn:Et;
      [|rewrite plus_IZR; Lra.lra].
    apply Qeq_bool_eq, Qeq_eqR in Et.
    rewrite Q2R_inject_Z, Q2R_mult, mult_IZR in Et.
    change (Q2R 4) with (4 * / 1)%R in Et.
    assert (Hq0 : (0 <= Q2R q)%R).
    { apply Qle_Rle in Hq. unfold Q2R at 1 in Hq. simpl in Hq. Lra.lra. }
    pose proof (sqrt_sqrt _ Hq0) as Hss. fold s in Hss.
    apply IZR_le in Hm.
    assert (Htie : (2 * s = IZR m)%R).
    { destruct (Req_dec (2 * s) (IZR m)) as [|Hne]; [assumption|]. exfalso.
      assert (IZR m * IZR m < 2 * s * (2 * s))%R
        by (apply Rmult_le_0_lt_compat; Lra.lra).
      Lra.lra. }
    destruct (Z.even (m / 2)); rewrite ?plus_IZR; Lra.lra.
Qed.

(** The emitted correlation is within 0.0005 of the real one. *)
Lemma corr_round3_close (n d : Q) :
  0 < d ->
  (Q2R (corr_round3 n d) - / 2000 <= corr_real n d
   <= Q2R (corr_round3 n d) + / 2000)%R.
Proof.
  intros Hd. unfold corr_round3, corr_real.
  set (q := 1000000 * (n * n) / d).
  assert (Hd0 : ~ d == 0) by (intros E; rewrite E in Hd; discriminate Hd).
  assert (Hq : 0 <= q).
  { subst q. apply Qle_shift_div_l; [exact Hd|].
    generalize n. intros y. nra. }
  pose proof (rint_sqrt_close q Hq) as Hk.
  set (k := rint_sqrt q) in *.
  apply Qlt_Rlt in Hd. unfold Q2R at 1 in Hd. simpl in Hd.
  replace (0 * / 1)%R with 0%R in Hd by Lra.lra.
  pose proof (sqrt_lt_R0 _ Hd) as Hs.
  pose proof (sqrt_sqrt (Q2R d) (Rlt_le _ _ Hd)) as Hss.
  set (S := sqrt (Q2R d)) in *. set (N := Q2R n).
  assert (HA : sqrt (Q2R q) = (1000 * Rabs N / S)%R).
  { assert (E : Q2R q = (1000 * Rabs N / S * (1000 * Rabs N / S))%R).
    { subst q. rewrite Q2R_div, !Q2R_mult by exact Hd0. fold N.
      replace (Q2R 1000000) with 1000000%R by (unfold Q2R; simpl; Lra.lra).
      rewrite <- Hss.
      assert (Habs : (Rabs N * Rabs N = N * N)%R).
      { rewrite <- Rabs_mult. apply Rabs_pos_eq. Lra.nra. }
      replace (1000 * Rabs N / S * (1000 * Rabs N / S))%R
        with (1000000 * (Rabs N * Rabs N) / (S * S))%R by (field; Lra.lra).
      now rewrite Habs. }
    rewrite E. apply sqrt_square.
    apply Rmult_le_pos; [|apply Rlt_le, Rinv_0_lt_compat; exact Hs].
    apply Rmult_le_pos; [Lra.lra|apply Rabs_pos]. }
  rewrite HA in Hk.
  assert (Hdiv : forall z, Q2R (inject_Z z / 1000) = (IZR z / 1000)%R).
  { intros z. rewrite Q2R_div by discriminate. rewrite Q2R_inject_Z.
    replace (Q2R 1000) with 1000%R by (unfold Q2R; simpl; Lra.lra).
    reflexivity. }
  rewrite Hdiv.
  assert (Hinv : (0 < / S)%R) by now apply Rinv_0_lt_compat.
  unfold Rdiv in *.
  destruct (Qltb n 0) eqn:En.
  - apply Qltb_Rlt in En. fold N in En.
    replace (Q2R 0) with 0%R in En by (unfold Q2R; simpl; Lra.lra).
    rewrite (Rabs_left _ En) in Hk. rewrite opp_IZR.
    set (X := (N * / S)%R) in *.
    replace (1000 * - N * / S)%R with (- 1000 * X)%R in Hk by (subst X; ring).
    Lra.lra.
  - apply Qltb_ge, Qle_Rle in En. fold N in En.
    replace (Q2R 0) with 0%R in En by (unfold Q2R; simpl; Lra.lra).
    rewrite (Rabs_right _ (Rle_ge _ _ En)) in Hk.
    set (X := (N * / S)%R) in *.
    replace (1000 * N * / S)%R with (1000 * X)%R in Hk by (subst X; ring).
    Lra.lra.
Qed.

(** ** The classifier *)

Lemma classify_first_match (mean : Q) (r : corr) :
  Kano.classify mean r = first_match rules mean r.
Proof.
  unfold Kano.classify, rules, first_match.
  destruct (corr_ltb r 0); [reflexivity|].
  destruct (Qleb (85 # 10) mean && corr_ltb r (2 # 10)); [reflexivity|].
  destruct (corr_geb r (25 # 100)); [reflexivity|].
  destruct (Qltb mean 8 && corr_ltb r (2 # 10)); reflexivity.
Qed.

(** On a correlation that is a number, the symbolic comparisons are the
    comparisons of the number. *)
Lemma corr_of_Q_ltb (r c : Q) : corr_ltb (corr_of_Q r) c = true <-> r < c.
Proof.
  unfold corr_of_Q, corr_ltb.
  destruct (Qltb 0 c) eqn:Ec.
  - apply Qltb_lt in Ec. rewrite orb_true_iff, !Qltb_lt.
    split.
    + intros [H|H]; [lra|]. destruct (Qlt_le_dec r c) as [L|L]; [exact L|]. nra.
    + intros H. destruct (Qlt_le_dec r 0) as [L|L]; [now left|right]. nra.
  - apply Qltb_ge in Ec. rewrite andb_true_iff, !Qltb_lt.
    split.
    + intros [H1 H2]. destruct (Qlt_le_dec r c) as [L|L]; [exact L|]. nra.
    + intros H. split; [lra|]. nra.
Qed.

Lemma corr_of_Q_geb (r c : Q) : corr_geb (corr_of_Q r) c = true <-> c <= r.
Proof.
  unfold corr_geb. change (corr_of_Q r) with (Ratio r 1) at 1.
  rewrite negb_true_iff. fold (corr_of_Q r).
  split.
  - intros H. destruct (Qlt_le_dec r c) as [L|L]; [|exact L].
    apply corr_of_Q_ltb in L. congruence.
  - intros H. destruct (corr_ltb (corr_of_Q r) c) eqn:E; [|reflexivity].
    apply corr_of_Q_ltb in E. lra.
Qed.

(** The category of the rules states the condition of its rule and the
    failure of every earlier one. *)
Lemma first_match_rule (mean r : Q) :
  category_rule (first_match rules mean (corr_of_Q r)) mean r.
Proof.
  unfold rules, first_match.
  pose proof (corr_of_Q_ltb r 0) as H0.
  pose proof (corr_of_Q_ltb r (2 # 10)) as H2.
  pose proof (corr_of_Q_geb r (25 # 100)) as H25.
  destruct (corr_ltb (corr_of_Q r) 0) eqn:E0.
  { apply H0. reflexivity. }
  assert (N0 : 0 <= r).
  { apply Qnot_lt_le. intros C. apply H0 in C. congruence. }
  destruct (Qleb (85 # 10) mean && corr_ltb (corr_of_Q r) (2 # 10)) eqn:E1.
  { apply andb_true_iff in E1. destruct E1 as [Em E2].
    apply Qleb_le in Em. apply H2 in E2. simpl. auto. }
  assert (N1 : ~ (85 # 10 <= mean /\ r < 2 # 10)).
  { intros [Cm C2]. apply Qleb_le in Cm. apply H2 in C2.
    rewrite Cm, C2 in E1. discriminate E1. }
  destruct (corr_geb (corr_of_Q r) (25 # 100)) eqn:E25.
  { simpl. split; [exact N0|]. split; [exact N1|]. apply H25. reflexivity. }
  assert (L25 : r < 25 # 100).
  { apply Qnot_le_lt. intros C. apply H25 in C. congruence. }
  destruct (Qltb mean 8 && corr_ltb (corr_of_Q r) (2 # 10)) eqn:E3.
  - apply andb_true_iff in E3. destruct E3 as [Em E2].
    apply Qltb_lt in Em. apply H2 in E2. simpl. auto.
  - simpl. split; [exact N0|]. split; [exact N1|]. split; [exact L25|].
    intros [Cm C2]. apply Qltb_lt in Cm. apply H2 in C2.
    rewrite Cm, C2 in E3. discriminate E3.
Qed.

(** At most one category fits a mean and a correlation. *)
Lemma category_rule_unique (c c' : Kano.category) (mean r : Q) :
  category_rule c mean r -> category_rule c' mean r -> c = c'.
Proof.
  destruct c, c'; simpl; intros H H'; try reflexivity; exfalso;
    repeat match goal with
           | K : _ /\ _ |- _ => destruct K
           end;
    try lra;
    repeat match goal with
           | K : ~ (_ /\ _) |- _ => apply K; split; try assumption; try lra
           end.
Qed.

(** [C1] Every emitted statistic is the dictionary of lines 87-114 built
    from a mean and a correlation, and its category is the one that the
    five rules, tried in order with the first match winning, give for that
    mean and that correlation.  On a mean and a correlation that are
    numbers the rules read: reverse if [r < 0]; else basic if
    [mean >= 8.5] and [r < 0.2]; else exciter if [r >= 0.25]; else critical
    if [mean < 8.0] and [r < 0.2]; else performance.  A mean of 9.0 with
    [r = -0.1] is reverse, not basic. *)
Theorem category_by_ordered_rules :
  (forall (t0 : string) (valid : list (Q * Q)) (r : corr) (mean : Q),
      Kano.cat (Kano.stat_from t0 valid r mean) = first_match rules mean r)
  /\ (forall (df_sub : Kano.Pivot) (ths : list string) (st : Kano.Stat),
        In st (Kano.calculate_stats df_sub ths) ->
        exists (r : corr) (mean : Q),
          st = Kano.stat_from (Kano.t st)
                              (Kano.valid_pairs df_sub (Kano.t st)) r mean
          /\ Kano.cat st = first_match rules mean r)
  /\ (forall (mean r : Q) (c : Kano.category),
        first_match rules mean (corr_of_Q r) = c <-> category_rule c mean r)
  /\ (forall mean r : Q,
        mean == 9 -> r == - (1 # 10) ->
        Kano.classify mean (corr_of_Q r) = Kano.rev
        /\ Kano.classify mean (corr_of_Q r) <> Kano.bas).
Proof.
  split; [|split; [|split]].
  - intros t0 valid r mean. apply classify_first_match.
  - intros df_sub ths st Hst.
    apply calculate_stats_In in Hst.
    destruct Hst as (_ & t0 & _ & _ & _ & ->).
    rewrite stat_of_t. unfold Kano.stat_of.
    eexists. eexists. split; [reflexivity|]. apply classify_first_match.
  - intros mean r c. split.
    + intros <-. apply first_match_rule.
    + intros H. apply (category_rule_unique _ _ mean r); [|exact H].
      apply first_match_rule.
  - intros mean r Hm Hr.
    assert (E : Kano.classify mean (corr_of_Q r) = Kano.rev).
    { rewrite classify_first_match.
      apply (category_rule_unique _ _ mean r); [apply first_match_rule|].
      simpl. rewrite Hr. reflexivity. }
    rewrite E. split; [reflexivity|discriminate].
Qed.

Lemma category_by_ordered_rules_witness :
  (exists st r mean,
      In st (Kano.kano_global five_paired)
      /\ st = Kano.stat_from "Limpeza"
                (Kano.valid_pairs (Kano.pivot five_paired) "Limpeza") r mean
      /\ Kano.cat st = first_match rules mean r)
  /\ Kano.classify 9 (corr_of_Q (- (1 # 10))) = Kano.rev.
Proof.
  destruct category_by_ordered_rules as (_ & Hcat & _ & Hrev).
  split.
  - pose (st := hd (Kano.stat_of EmptyString [])
                   (Kano.kano_global five_paired)).
    assert (Hin : In st (Kano.kano_global five_paired))
      by (vm_compute; left; reflexivity).
    destruct (Hcat (Kano.pivot five_paired) (Kano.themes five_paired) st Hin)
      as (r & mean & E & C).
    exists st, r, mean. split; [exact Hin|]. split; [exact E|exact C].
  - apply Hrev; reflexivity.
Defined.

(** ** Lists: de-duplication, sorting, filters *)

Lemma keep_first_incl {A} (same : A -> A -> bool) (seen l : list A) (x : A) :
  In x (keep_first same seen l) -> In x l.
Proof.
  revert seen. induction l as [|y t IH]; intros seen; simpl; [tauto|].
  destruct (existsb (same y) seen).
  - intros H. right. exact (IH _ H).
  - intros [H|H]; [now left|right; exact (IH _ H)].
Qed.

Section Dedup.
Context {A : Type} (same : A -> A -> bool).
Hypothesis same_eq : forall a b, same a b = true <-> a = b.

Lemma seen_In (seen : list A) (x : A) :
  existsb (same x) seen = true <-> In x seen.
Proof.
  rewrite existsb_exists. split.
  - intros (z & Hz & E). apply same_eq in E. now subst.
  - intros H. exists x. split; [exact H|now apply same_eq].
Qed.

Lemma keep_first_complete (seen l : list A) (x : A) :
  In x l -> In x seen \/ In x (keep_first same seen l).
Proof.
  revert seen. induction l as [|y t IH]; intros seen; simpl; [tauto|].
  intros [->|Hx].
  - destruct (existsb (same x) seen) eqn:E.
    + left. now apply seen_In.
    + right. now left.
  - destruct (existsb (same y) seen) eqn:E.
    + apply IH. exact Hx.
    + destruct (IH (y :: seen) Hx) as [[->|H]|H].
      * right. now left.
      * now left.
      * right. now right.
Qed.

Lemma keep_first_fresh (seen l : list A) (x : A) :
  In x (keep_first same seen l) -> ~ In x seen.
Proof.
  revert seen. induction l as [|y t IH]; intros seen; simpl; [tauto|].
  destruct (existsb (same y) seen) eqn:E.
  - apply IH.
  - intros [<-|H] Hs.
    + apply seen_In in Hs. congruence.
    + apply (IH _ H). now right.
Qed.

Lemma keep_first_NoDup (seen l : list A) : NoDup (keep_first same seen l).
Proof.
  revert seen. induction l as [|y t IH]; intros seen; simpl; [constructor|].
  destruct (existsb (same y) seen); [apply IH|].
  constructor; [|apply IH].
  intros H. apply keep_first_fresh in H. apply H. now left.
Qed.

Lemma drop_duplicates_In (l : list A) (x : A) :
  In x (drop_duplicates same l) <-> In x l.
Proof.
  unfold drop_duplicates. split.
  - apply keep_first_incl.
  - intros H. destruct (keep_first_complete [] l x H) as [[]|H']. exact H'.
Qed.
End Dedup.

Lemma unique_In (l : list string) (x : string) : In x (unique l) <-> In x l.
Proof. apply drop_duplicates_In. apply String.eqb_eq. Qed.

Lemma insert_by_In {A} (leb : A -> A -> bool) (x y : A) (l : list A) :
  In y (insert_by leb x l) <-> y = x \/ In y l.
Proof.
  induction l as [|z t IH]; simpl.
  - split; intros [H|H]; auto.
  - destruct (leb x z); simpl.
    + split; intros [H|H]; auto.
    + rewrite IH. split; intros H; tauto.
Qed.

Lemma sorted_by_In {A} (leb : A -> A -> bool) (y : A) (l : list A) :
  In y (sorted_by leb l) <-> In y l.
Proof.
  unfold sorted_by. induction l as [|x t IH]; simpl; [tauto|].
  rewrite insert_by_In, IH. split; intros [H|H]; auto.
Qed.

Lemma filter_andb {A} (f g : A -> bool) (l : list A) :
  filter f (filter g l) = filter (fun x => g x && f x) l.
Proof.
  induction l as [|x t IH]; simpl; [reflexivity|].
  destruct (g x); simpl; [destruct (f x)|]; rewrite IH; reflexivity.
Qed.

(** ** Selection of the valid respondents *)

Lemma valid_ids_In (df : DataFrame) (rid : string) :
  In rid (Kano.valid_ids df) <-> finished_target df rid.
Proof.
  unfold Kano.valid_ids, finished_target, Kano.df_2025_raw.
  rewrite unique_In, in_map_iff. split.
  - intros (r & Hid & Hr).
    apply filter_In in Hr. destruct Hr as [Hr Hp].
    apply filter_In in Hr. destruct Hr as [Hr Hper].
    apply andb_true_iff in Hp. destruct Hp as [Ht Hm].
    exists r. rewrite String.eqb_eq in Hper, Ht, Hm. auto.
  - intros (r & Hr & Hid & Hper & Ht & Hm).
    exists r. split; [exact Hid|].
    apply filter_In. split.
    + apply filter_In. split; [exact Hr|]. now apply String.eqb_eq.
    + apply andb_true_iff. split; now apply String.eqb_eq.
Qed.

Lemma selected_In (df : DataFrame) (r : Row) :
  In r (Kano.df_2025_selected df) <->
  In r df /\ Kano.Period r = "2025" /\ finished_target df (ResponseID r)
  /\ (Tema r = TARGET -> Momento r = Fim).
Proof.
  unfold Kano.df_2025_selected, Kano.df_2025_raw, Kano.condition.
  rewrite !filter_In, isin_In, valid_ids_In, String.eqb_eq.
  split.
  - intros [[[Hr Hp] Hv] Hc]. repeat split; auto.
    intros Ht. apply orb_true_iff in Hc. destruct Hc as [Hc|Hc].
    + apply andb_true_iff in Hc. destruct Hc as [_ Hm].
      now apply String.eqb_eq.
    + apply negb_true_iff, String.eqb_neq in Hc. contradiction.
  - intros (Hr & Hp & Hv & Hc). repeat split; auto.
    destruct (String.eqb_spec (Tema r) TARGET) as [E|E]; simpl.
    + apply Hc in E. rewrite E. reflexivity.
    + reflexivity.
Qed.

Lemma normalize_ids (frame : DataFrame) :
  map ResponseID (Kano.normalize frame) = map ResponseID frame.
Proof.
  unfold Kano.normalize.
  destruct (max_gt_10 (map Nota frame)); [|reflexivity].
  rewrite map_map. reflexivity.
Qed.

Lemma df_2025_ids (df : DataFrame) (rid : string) :
  In rid (map ResponseID (Kano.df_2025 df)) -> finished_target df rid.
Proof.
  unfold Kano.df_2025. rewrite normalize_ids, in_map_iff.
  intros (r & <- & Hr). apply selected_In in Hr. tauto.
Qed.

Lemma pivot_index (df : DataFrame) (p : Kano.PivotRow) :
  In p (Kano.rows (Kano.pivot df)) -> finished_target df (Kano.index p).
Proof.
  unfold Kano.pivot, Kano.pivot_of. cbn [Kano.rows]. rewrite in_map_iff.
  intros (rid & <- & Hrid). cbn [Kano.index].
  unfold sorted in Hrid. rewrite sorted_by_In, unique_In in Hrid.
  now apply df_2025_ids.
Qed.

Lemma selected_without (df : DataFrame) (rid : string) :
  ~ finished_target df rid ->
  Kano.df_2025_selected (without rid df) = Kano.df_2025_selected df.
Proof.
  intros Hno.
  assert (Hv : Kano.valid_ids (without rid df) = Kano.valid_ids df).
  { unfold Kano.valid_ids, Kano.df_2025_raw, without. f_equal. f_equal.
    rewrite !filter_andb. apply filter_ext_in. intros r Hr.
    destruct (String.eqb_spec (ResponseID r) rid) as [E|E]; simpl; [|reflexivity].
    destruct (String.eqb_spec (Kano.Period r) "2025") as [Ep|Ep]; simpl;
      [|reflexivity].
    destruct (String.eqb_spec (Tema r) TARGET) as [Et|Et]; simpl; [|reflexivity].
    destruct (String.eqb_spec (Momento r) Fim) as [Em|Em]; simpl; [|reflexivity].
    exfalso. apply Hno. exists r. auto. }
  unfold Kano.df_2025_selected. rewrite Hv.
  unfold Kano.df_2025_raw, without. f_equal.
  rewrite !filter_andb. apply filter_ext_in. intros r Hr.
  destruct (String.eqb_spec (ResponseID r) rid) as [E|E]; simpl; [|reflexivity].
  destruct (Kano.isin (ResponseID r) (Kano.valid_ids df)) eqn:Ei;
    [|now rewrite andb_false_r].
  exfalso. apply Hno. apply valid_ids_In. rewrite <- E. now apply isin_In.
Qed.

(** [C4] The selected frame holds exactly the 2025 rows of respondents
    whose target-topic response is finished, their target-topic rows
    only when finished, their rows for every other topic as they are.  A
    respondent without a finished target-topic response in the period is in
    no row of the frame, in no line of the pivot, and deleting all their
    rows from the input leaves the global table, the per-entity tables, the
    heatmap, the snapshot and the roster unchanged. *)
Theorem unfinished_respondent_absent :
  forall df : DataFrame,
    (forall r,
        In r (Kano.df_2025_selected df) <->
        In r df /\ Kano.Period r = "2025"
        /\ finished_target df (ResponseID r)
        /\ (Tema r = TARGET -> Momento r = Fim))
    /\ (forall rid,
          ~ finished_target df rid ->
          ~ In rid (map ResponseID (Kano.df_2025 df))
          /\ ~ In rid (map Kano.index (Kano.rows (Kano.pivot df)))
          /\ forall col_loja,
               Kano.output_js col_loja (without rid df)
               = Kano.output_js col_loja df).
Proof.
  intros df. split; [apply selected_In|].
  intros rid Hno. split; [|split].
  - intros H. apply Hno. now apply df_2025_ids.
  - intros H. apply in_map_iff in H. destruct H as (p & <- & Hp).
    apply Hno. now apply pivot_index.
  - intros col_loja. apply kano_output_from_df_2025.
    unfold Kano.df_2025. now rewrite selected_without.
Qed.

Lemma unfinished_respondent_absent_witness :
  ~ In "Z" (map Kano.index (Kano.rows (Kano.pivot with_dropout)))
  /\ Kano.output_js true (without "Z" with_dropout)
     = Kano.output_js true with_dropout.
Proof.
  assert (Hno : ~ finished_target with_dropout "Z").
  { intros (r & Hr & Hid & _ & Ht & Hm).
    vm_compute in Hr.
    repeat (destruct Hr as [<-|Hr]; [try discriminate Hid; discriminate Hm|]).
    exact Hr. }
  destruct (proj2 (unfinished_respondent_absent with_dropout) "Z" Hno)
    as (_ & Hpivot & Hout).
  split; [exact Hpivot|apply Hout].
Defined.

(** ** Permutations *)

Lemma insert_by_perm {A} (leb : A -> A -> bool) (x : A) (l : list A) :
  Permutation (insert_by leb x l) (x :: l).
Proof.
  induction l as [|y t IH]; simpl; [reflexivity|].
  destruct (leb x y); [reflexivity|].
  rewrite IH. apply perm_swap.
Qed.

Lemma sorted_by_perm {A} (leb : A -> A -> bool) (l : list A) :
  Permutation (sorted_by leb l) l.
Proof.
  unfold sorted_by. induction l as [|x t IH]; simpl; [reflexivity|].
  rewrite insert_by_perm. now apply perm_skip.
Qed.

Lemma split_perm {A} (f : A -> bool) (l : list A) :
  Permutation l (filter f l ++ filter (fun x => negb (f x)) l).
Proof.
  induction l as [|x t IH]; simpl; [reflexivity|].
  destruct (f x); simpl.
  - now apply perm_skip.
  - rewrite <- Permutation_middle. now apply perm_skip.
Qed.

Lemma np_sum_perm (a b : list bool) :
  Permutation a b -> np_sum a = np_sum b.
Proof.
  induction 1 as [|x a b _ IH|x y a|a b c _ IH1 _ IH2]; simpl; lia.
Qed.

Lemma max_gt_10_perm (a b : list Q) :
  Permutation a b -> max_gt_10 a = max_gt_10 b.
Proof.
  intros H.
  assert (E : max_gt_10 a = true <-> max_gt_10 b = true).
  { rewrite !max_gt_10_exists. split; intros (x & Hx & Hlt); exists x;
      (split; [|exact Hlt]).
    - now apply (Permutation_in _ H).
    - now apply (Permutation_in _ (Permutation_sym H)). }
  destruct (max_gt_10 a), (max_gt_10 b); try reflexivity.
  - symmetry. now apply E.
  - now apply E.
Qed.

Lemma rescale_perm (a b : list Q) :
  Permutation a b -> Permutation (rescale a) (rescale b).
Proof.
  intros H. unfold rescale, div10. rewrite (max_gt_10_perm a b H).
  destruct (max_gt_10 b); [now apply Permutation_map|exact H].
Qed.

(** The matrix metric looks at a group as a multiset. *)
Lemma get_metrics_perm (a b : DataFrame) :
  Permutation a b -> Matrix.get_metrics a = Matrix.get_metrics b.
Proof.
  intros H. unfold Matrix.get_metrics.
  assert (L : len a = len b) by (unfold len; now rewrite (Permutation_length H)).
  pose proof (rescale_perm _ _ (Permutation_map Nota H)) as R.
  rewrite L.
  rewrite (np_sum_perm _ _ (Permutation_map is_prom R)),
          (np_sum_perm _ _ (Permutation_map is_pass R)),
          (np_sum_perm _ _ (Permutation_map is_det R)).
  reflexivity.
Qed.

(** Distributing the rows that carry a code over a duplicate-free list of
    codes that covers them. *)
Lemma concat_cons_one {A} (g : string -> list A) (x : A) (s0 : string)
    (ss : list string) :
  NoDup ss -> In s0 ss ->
  Permutation
    (List.concat (map (fun s => if String.eqb s0 s then x :: g s else g s) ss))
    (x :: List.concat (map g ss)).
Proof.
  induction 1 as [|s ss Hs Hnd IH]; simpl; [contradiction|].
  intros [->|Hin].
  - rewrite String.eqb_refl. simpl. apply perm_skip.
    apply Permutation_app_head.
    assert (E : map (fun s => if String.eqb s0 s then x :: g s else g s) ss
                = map g ss).
    { apply map_ext_in. intros s Hin.
      destruct (String.eqb_spec s0 s); [now subst|reflexivity]. }
    now rewrite E.
  - destruct (String.eqb_spec s0 s) as [->|_]; [contradiction|].
    rewrite (IH Hin). apply Permutation_sym, Permutation_middle.
Qed.

Lemma partition_by_code (ss : list string) (l : DataFrame) :
  NoDup ss ->
  (forall r s, In r l -> ShoppingCode r = Some s -> In s ss) ->
  Permutation (filter has_entity l)
    (List.concat (map (fun s => filter (fun r => eq_opt (ShoppingCode r) s) l) ss)).
Proof.
  intros Hnd. induction l as [|r t IH]; intros Hcov.
  - simpl. clear Hnd Hcov.
    induction ss as [|s ss IHs]; simpl; [reflexivity|exact IHs].
  - assert (IH' : Permutation (filter has_entity t)
              (List.concat (map (fun s =>
                 filter (fun r => eq_opt (ShoppingCode r) s) t) ss))).
    { apply IH. intros r' s Hr'. apply Hcov. now right. }
    simpl. unfold has_entity at 1.
    destruct (ShoppingCode r) as [s0|] eqn:E; simpl.
    + rewrite concat_cons_one;
        [now apply perm_skip|exact Hnd|apply (Hcov r); [now left|exact E]].
    + exact IH'.
Qed.

(** ** The matrix: entity groups and the portfolio *)

Section KeyDedup.
Context {A K : Type} (key : A -> K) (same : A -> A -> bool).
Hypothesis same_key : forall a b, same a b = true <-> key a = key b.

Lemma seen_key (seen : list A) (x : A) :
  existsb (same x) seen = true <-> In (key x) (map key seen).
Proof.
  rewrite existsb_exists, in_map_iff. split.
  - intros (z & Hz & E). exists z. apply same_key in E. auto.
  - intros (z & E & Hz). exists z. split; [exact Hz|]. now apply same_key.
Qed.

Lemma keep_first_key_fresh (seen l : list A) (k : K) :
  In k (map key (keep_first same seen l)) -> ~ In k (map key seen).
Proof.
  revert seen. induction l as [|y t IH]; intros seen; simpl; [tauto|].
  destruct (existsb (same y) seen) eqn:E; [apply IH|].
  simpl. intros [<-|H] Hs.
  - apply seen_key in Hs. congruence.
  - apply (IH _ H). simpl. now right.
Qed.

Lemma keep_first_key_NoDup (seen l : list A) :
  NoDup (map key (keep_first same seen l)).
Proof.
  revert seen. induction l as [|y t IH]; intros seen; simpl; [constructor|].
  destruct (existsb (same y) seen); [apply IH|].
  simpl. constructor; [|apply IH].
  intros H. apply keep_first_key_fresh in H. apply H. simpl. now left.
Qed.
End KeyDedup.

Lemma key_eqb_eq (a b : string * string) : Matrix.key_eqb a b = true <-> a = b.
Proof.
  destruct a as [a1 a2], b as [b1 b2]. unfold Matrix.key_eqb. simpl.
  rewrite andb_true_iff, !String.eqb_eq. split.
  - intros [-> ->]. reflexivity.
  - intros [= -> ->]. auto.
Qed.

Lemma dropna_In {A} (l : list (option A)) (x : A) :
  In x (dropna l) <-> In (Some x) l.
Proof.
  induction l as [|[y|] t IH]; simpl; [tauto| |].
  - rewrite IH. split; intros [H|H]; auto; left; congruence.
  - rewrite IH. split; [auto|]. intros [H|H]; [discriminate|exact H].
Qed.

Lemma group_keys_In (frame : DataFrame) (k : string * string) :
  In k (Matrix.group_keys frame) <->
  exists r, In r frame /\ ShoppingCode r = Some (fst k) /\ Matrix.Period r = snd k.
Proof.
  unfold Matrix.group_keys.
  rewrite sorted_by_In, (drop_duplicates_In _ key_eqb_eq), dropna_In, in_map_iff.
  unfold Matrix.row_key. split.
  - intros (r & E & Hr). exists r. split; [exact Hr|].
    destruct (ShoppingCode r); [|discriminate].
    injection E as <-. auto.
  - intros (r & Hr & Hc & Hp). exists r. split; [|exact Hr].
    rewrite Hc, Hp. now destruct k.
Qed.

Lemma group_keys_NoDup (frame : DataFrame) : NoDup (Matrix.group_keys frame).
Proof.
  unfold Matrix.group_keys.
  apply (Permutation_NoDup (Permutation_sym (sorted_by_perm _ _))).
  apply (keep_first_NoDup _ key_eqb_eq).
Qed.

(** The rows of a period are the entities' groups of that period together
    with the rows that have no entity code. *)
Lemma pooled_perm (df : DataFrame) (p : string) :
  Permutation (Matrix.period_group (Matrix.df_fim df) p)
              (entity_union df p ++ no_entity df p).
Proof.
  unfold entity_union, no_entity.
  set (F := Matrix.df_fim df).
  set (ks := filter (fun k => String.eqb (snd k) p) (Matrix.group_keys F)).
  rewrite (split_perm has_entity (Matrix.period_group F p)) at 1.
  apply Permutation_app_tail.
  assert (E : map (Matrix.group F) ks
              = map (fun s => filter (fun r => eq_opt (ShoppingCode r) s)
                                (Matrix.period_group F p)) (map fst ks)).
  { rewrite map_map. apply map_ext_in. intros k Hk.
    apply filter_In in Hk. destruct Hk as [_ Hk]. apply String.eqb_eq in Hk.
    unfold Matrix.group, Matrix.period_group. rewrite filter_andb, Hk.
    apply filter_ext. intros r. apply andb_comm. }
  rewrite E. apply partition_by_code.
  - apply NoDup_map_NoDup_ForallPairs.
    + intros [a1 a2] [b1 b2] Ha Hb. simpl. intros ->.
      apply filter_In in Ha, Hb. destruct Ha as [_ Ha], Hb as [_ Hb].
      apply String.eqb_eq in Ha, Hb. simpl in Ha, Hb. congruence.
    + apply NoDup_filter, group_keys_NoDup.
  - intros r s Hr Hs.
    apply filter_In in Hr. destruct Hr as [Hr Hp]. apply String.eqb_eq in Hp.
    apply in_map_iff. exists (s, p). split; [reflexivity|].
    apply filter_In. split; [|apply String.eqb_refl].
    apply group_keys_In. exists r. auto.
Qed.

Lemma same_response_key (a b : Row) :
  Matrix.same_response a b = true <->
  (Matrix.Period a, ResponseID a) = (Matrix.Period b, ResponseID b).
Proof.
  unfold Matrix.same_response.
  rewrite andb_true_iff, !String.eqb_eq. split.
  - intros [-> ->]. reflexivity.
  - intros [= -> ->]. auto.
Qed.

Lemma df_fim_In (df : DataFrame) (r : Row) :
  In r (Matrix.df_fim df) -> In r df /\ Tema r = TARGET /\ Momento r = Fim.
Proof.
  unfold Matrix.df_fim, Matrix.df_nps, drop_duplicates. intros H.
  apply keep_first_incl in H.
  apply filter_In in H. destruct H as [H Hm].
  apply filter_In in H. destruct H as [H Ht].
  rewrite String.eqb_eq in Hm, Ht. auto.
Qed.

Lemma portfolio_In (df : DataFrame) (p : string) (s : Matrix.Series) :
  In (("PORTFOLIO", p), s) (Matrix.portfolio df) <->
  (exists r, In r (Matrix.df_fim df) /\ Matrix.Period r = p)
  /\ s = Matrix.get_metrics (Matrix.period_group (Matrix.df_fim df) p).
Proof.
  unfold Matrix.portfolio, sorted.
  rewrite in_map_iff. split.
  - intros (p' & [= <- <-] & Hp).
    rewrite sorted_by_In, unique_In, in_map_iff in Hp.
    destruct Hp as (r & E & Hr). split; [now exists r|reflexivity].
  - intros [(r & Hr & E) ->]. exists p. split; [reflexivity|].
    rewrite sorted_by_In, unique_In, in_map_iff. now exists r.
Qed.

(** [C8], as amended.  For every period with a finished, de-duplicated
    target-topic response the matrix has one portfolio row, and it is the
    matrix metric of all such responses of the period pooled: the union of
    the entities' groups together with the responses that carry no entity
    code, hence the union of the entities' groups alone when every response
    of the period has a code.  It is not the average of the per-entity
    values: entities with NPS 100 and -100 give a portfolio of 50. *)
Theorem portfolio_pools_period :
  (forall df : DataFrame,
      (forall r, In r (Matrix.df_fim df) ->
                 In r df /\ Tema r = TARGET /\ Momento r = Fim)
      /\ NoDup (map (fun r => (Matrix.Period r, ResponseID r)) (Matrix.df_fim df))
      /\ (forall r, In r (Matrix.df_fim df) ->
                    exists s, In (("PORTFOLIO", Matrix.Period r), s)
                                 (Matrix.portfolio df))
      /\ (forall p s,
            In (("PORTFOLIO", p), s) (Matrix.portfolio df) ->
            s = Matrix.get_metrics (Matrix.period_group (Matrix.df_fim df) p)
            /\ Permutation (Matrix.period_group (Matrix.df_fim df) p)
                           (entity_union df p ++ no_entity df p)
            /\ s = Matrix.get_metrics (entity_union df p ++ no_entity df p)%list
            /\ (no_entity df p = [] ->
                s = Matrix.get_metrics (entity_union df p))))
  /\ (exists a b c,
        map (fun g => Matrix.NPS (snd g)) (Matrix.grouped two_entities)
        = [Some a; Some b]
        /\ map (fun g => Matrix.NPS (snd g)) (Matrix.portfolio two_entities)
           = [Some c]
        /\ a == 100 /\ b == - (100) /\ c == 50 /\ ~ c == (a + b) / 2).
Proof.
  split.
  - intros df. split; [apply df_fim_In|]. split; [|split].
    + unfold Matrix.df_fim, drop_duplicates.
      apply (keep_first_key_NoDup _ _ same_response_key).
    + intros r Hr. eexists. apply portfolio_In.
      split; [now exists r|reflexivity].
    + intros p s Hs. apply portfolio_In in Hs. destruct Hs as [_ ->].
      pose proof (pooled_perm df p) as Hperm.
      split; [reflexivity|]. split; [exact Hperm|].
      split; [now apply get_metrics_perm|].
      intros Hnone. rewrite Hnone, app_nil_r in Hperm.
      now apply get_metrics_perm.
  - do 3 eexists. split; [vm_compute; reflexivity|].
    split; [vm_compute; reflexivity|].
    repeat split; try (vm_compute; reflexivity).
    intros H. vm_compute in H. discriminate H.
Qed.

Lemma portfolio_pools_period_witness :
  exists s,
    In (("PORTFOLIO", "2025"), s) (Matrix.portfolio two_entities)
    /\ s = Matrix.get_metrics (entity_union two_entities "2025")
    /\ Matrix.N s = 4%Z.
Proof.
  eexists. split; [vm_compute; left; reflexivity|].
  split; [|reflexivity].
  destruct (proj1 portfolio_pools_period two_entities) as (_ & _ & _ & H).
  apply (H "2025").
  - vm_compute. left. reflexivity.
  - reflexivity.
Defined.

(** [C8] fails as stated: a finished response without an entity code is in
    no entity's group, and the portfolio row counts it all the same. *)
Lemma portfolio_counterexample :
  exists s,
    In (("PORTFOLIO", "2025"), s) (Matrix.portfolio orphan_frame)
    /\ Matrix.N s = 2%Z
    /\ Matrix.N (Matrix.get_metrics (entity_union orphan_frame "2025")) = 1%Z
    /\ s <> Matrix.get_metrics (entity_union orphan_frame "2025").
Proof.
  eexists. split; [vm_compute; left; reflexivity|].
  split; [reflexivity|]. split; [reflexivity|].
  intros H. apply (f_equal Matrix.N) in H. vm_compute in H. discriminate H.
Qed.

(** ** Undefined correlation *)

Lemma zero_variance_nan (xs ys : list Q) :
  cov xs xs == 0 \/ cov ys ys == 0 -> pearson xs ys = NaN.
Proof.
  intros H. unfold pearson.
  assert (E : cov xs xs * cov ys ys == 0).
  { destruct H as [H|H]; rewrite H; ring. }
  apply Qeq_bool_iff in E. now rewrite E.
Qed.

Lemma classify_nan (mean : Q) : Kano.classify mean NaN = Kano.per.
Proof.
  unfold Kano.classify. simpl. rewrite !andb_false_r. reflexivity.
Qed.

Lemma stat_of_nan (t0 : string) (valid : list (Q * Q)) :
  pearson (map fst valid) (map snd valid) = NaN ->
  Kano.r (Kano.stat_of t0 valid) = 0
  /\ Kano.cat (Kano.stat_of t0 valid) = Kano.per.
Proof.
  intros H. unfold Kano.stat_of. simpl. rewrite H.
  split; [reflexivity|apply classify_nan].
Qed.

(** [C7] does not hold on the code.  Five respondents who all rate a
    topic 9 leave its correlation with the target undefined; the emitted
    correlation is 0, but the category is performance, the default the
    rules fall to on NaN, while the rules at [r = 0] and mean 9 give
    basic. *)
Theorem undefined_corr_reaches_classifier :
  pearson [9; 9; 9; 9; 9] [10; 9; 8; 7; 10] = NaN
  /\ (exists st,
        Kano.kano_global constant_topic = [st]
        /\ Kano.t st = "Limpeza"
        /\ Kano.m st == 9
        /\ Kano.r st == 0
        /\ Kano.n st = 5%Z
        /\ Kano.cat st = Kano.per)
  /\ Kano.classify 9 (corr_of_Q 0) = Kano.bas
  /\ (forall mean : Q, Kano.classify mean NaN = Kano.per).
Proof.
  split; [vm_compute; reflexivity|].
  split.
  - eexists. split; [vm_compute; reflexivity|].
    repeat split; vm_compute; reflexivity.
  - split; [vm_compute; reflexivity|exact classify_nan].
Qed.

(** * Further properties of the scripts *)

(** ** Period labels *)

(** [X1] A text label is a fixed point of the mapping that produced it,
    with the three tokens of the period table and the matrix and with the
    single token of the classification script: mapping a mapped text label
    again changes nothing.  A label that is not a text comes back as [str]
    writes it and need not be a fixed point: the number 2025.0 gives
    '2025.0', which maps to '2025'. *)
Theorem map_period_idempotent :
  (forall s, Lojistas.map_period (Str (Lojistas.map_period (Str s)))
             = Lojistas.map_period (Str s))
  /\ (forall s, Kano.map_period (Str (Kano.map_period (Str s)))
                = Kano.map_period (Str s))
  /\ (forall repr, Lojistas.map_period (NotStr repr) = repr
                   /\ Kano.map_period (NotStr repr) = repr)
  /\ Lojistas.map_period (Str (Lojistas.map_period (NotStr "2025.0")))
     <> Lojistas.map_period (NotStr "2025.0")
  /\ Kano.map_period (Str (Kano.map_period (NotStr "2025.0")))
     <> Kano.map_period (NotStr "2025.0").
Proof.
  split; [|split; [|split; [|split]]].
  - intros p. unfold Lojistas.map_period at 2 3.
    destruct (contains "2024/1" p) eqn:E1; [reflexivity|].
    destruct (contains "2024/2" p) eqn:E2; [reflexivity|].
    destruct (contains "2025" p) eqn:E3; [reflexivity|].
    unfold Lojistas.map_period. now rewrite E1, E2, E3.
  - intros p. unfold Kano.map_period at 2 3.
    destruct (contains "2025" p) eqn:E3; [reflexivity|].
    unfold Kano.map_period. now rewrite E3.
  - intros repr. split; reflexivity.
  - vm_compute. discriminate.
  - vm_compute. discriminate.
Qed.

(** [X2] A row that the period table files under 2025 is a 2025 row of
    the classification script as well.  A 2025 row of the classification
    script is filed by the table under one of its three target periods,
    not always 2025: a label with both tokens 2024/2 and 2025 is 2025 for
    one script and 2024/2 for the other. *)
Theorem period_2025_inclusion :
  (forall r, Lojistas.Period r = "2025" -> Kano.Period r = "2025")
  /\ (forall r, Kano.Period r = "2025" ->
                In (Lojistas.Period r) Lojistas.target_periods)
  /\ (exists r, Kano.Period r = "2025" /\ Lojistas.Period r = "2024/2").
Proof.
  split; [|split].
  - intros r. unfold Lojistas.Period, Kano.Period, Lojistas.map_period,
      Kano.map_period.
    destruct (Pesquisa r) as [p|p]; [|auto].
    destruct (contains "2024/1" p); [discriminate|].
    destruct (contains "2024/2" p); [discriminate|].
    destruct (contains "2025" p) eqn:E; [reflexivity|].
    intros ->. vm_compute in E. discriminate E.
  - intros r. unfold Lojistas.Period, Kano.Period, Lojistas.map_period,
      Kano.map_period, Lojistas.target_periods.
    destruct (Pesquisa r) as [p|p]; [|intros ->; simpl; auto].
    destruct (contains "2024/1" p); [simpl; auto|].
    destruct (contains "2024/2" p); [simpl; auto|].
    destruct (contains "2025" p) eqn:E; [simpl; auto|].
    intros ->. vm_compute in E. discriminate E.
  - exists (mkRow "1" (Str "2024/2 - 2025") TARGET Fim None 0 None None).
    split; reflexivity.
Qed.

Lemma period_2025_inclusion_witness :
  Kano.Period (response "1" None 0) = "2025".
Proof.
  apply (proj1 period_2025_inclusion). reflexivity.
Defined.

(** ** Rescaling once *)

(** [X3] The scores leave the rescaling within 0-10 exactly when the
    largest raw score is at most 100: the column is divided by 10 once,
    whatever its maximum. *)
Theorem rescale_within_scale :
  forall (scope : list Q) (m : Q),
    is_maximum m scope ->
    (Forall (fun x => x <= 10) (rescale scope) <-> m <= 100).
Proof.
  intros scope m Hm.
  destruct (rescale_by_maximum scope m Hm) as [Hgt Hle].
  destruct Hm as [Hin Hall]. rewrite Forall_forall in Hall.
  assert (D : forall x, x / 10 == x * (1 # 10)) by (intros; reflexivity).
  destruct (Qlt_le_dec 10 m) as [H|H].
  - rewrite (Hgt H), Forall_forall. split.
    + intros F.
      assert (E : m / 10 <= 10) by (apply F, in_map_iff; now exists m).
      rewrite D in E. lra.
    + intros Hm x Hx. apply in_map_iff in Hx. destruct Hx as (y & <- & Hy).
      apply Hall in Hy. rewrite D. lra.
  - rewrite (Hle H), Forall_forall. split.
    + intros _. lra.
    + intros _ x Hx. apply Hall in Hx. lra.
Qed.

Lemma rescale_within_scale_witness :
  Forall (fun x => x <= 10) (rescale [95; 8])
  /\ ~ Forall (fun x => x <= 10) (rescale [950; 80]).
Proof.
  split.
  - apply (rescale_within_scale [95; 8] 95).
    + split; [now left|]. repeat constructor; vm_compute; discriminate.
    + vm_compute. discriminate.
  - intros F. apply (rescale_within_scale [950; 80] 950) in F.
    + vm_compute in F. apply F. reflexivity.
    + split; [now left|]. repeat constructor; vm_compute; discriminate.
Defined.

(** ** Bounds of the metrics *)

Lemma nps_within (l : list Q) :
  l <> [] ->
  - (100) <= fmul (fdiv (inject_Z (np_sum (map is_prom l) - np_sum (map is_det l)))
                        (inject_Z (len l))) 100 <= 100.
Proof.
  intros Hne. apply ratio100_between; [|apply prom_det_le_total].
  now apply len_positive.
Qed.

Lemma nps_round_within (l : list Q) :
  l <> [] ->
  - (100)
  <= round (fmul (fdiv (inject_Z (np_sum (map is_prom l) - np_sum (map is_det l)))
                       (inject_Z (len l))) 100) 1
  <= 100.
Proof.
  intros Hne.
  apply (round1_between (-100) 100); [lia|lia|]. now apply nps_within.
Qed.

Lemma pct_within (p : Q -> bool) (l : list Q) :
  l <> [] ->
  0 <= round (fmul (fdiv (inject_Z (np_sum (map p l))) (inject_Z (len l))) 100) 1
    <= 100.
Proof.
  intros Hne.
  apply (round1_between 0 100); [lia|lia|].
  apply ratio100_nonneg; [now apply len_positive|apply np_sum_bounds].
Qed.

(** [X4] The NPS of the period table, of the matrix, of a topic statistic
    and of the snapshot lies between -100 and 100, the percentages of the
    period table between 0 and 100; a record rests on at least one
    response and its counts are not negative. *)
Theorem metrics_within_bounds :
  (forall (df_sub : DataFrame) (p : string) (m : Lojistas.Metrics),
      Lojistas.calculate_metrics df_sub p = Some m ->
      - (100) <= Lojistas.nps m <= 100
      /\ 0 <= Lojistas.prom_pct m <= 100
      /\ 0 <= Lojistas.pass_pct m <= 100
      /\ 0 <= Lojistas.det_pct m <= 100
      /\ (1 <= Lojistas.total m)%Z
      /\ (0 <= Lojistas.prom_abs m)%Z /\ (0 <= Lojistas.pass_abs m)%Z
      /\ (0 <= Lojistas.det_abs m)%Z)
  /\ (forall (x : DataFrame) (v : Q),
        Matrix.NPS (Matrix.get_metrics x) = Some v -> - (100) <= v <= 100)
  /\ (forall (df_sub : Kano.Pivot) (ths : list string) (st : Kano.Stat),
        In st (Kano.calculate_stats df_sub ths) ->
        - (100) <= Kano.nps st <= 100)
  /\ (forall (df : DataFrame) (s : string) (e : Kano.Static.Entry),
        In (s, e) (Kano.Static.nps_static df) ->
        - (100) <= Kano.Static.nps e <= 100 /\ (1 <= Kano.Static.n e)%Z).
Proof.
  split; [|split; [|split]].
  - intros df_sub p m. unfold Lojistas.calculate_metrics.
    destruct (len df_sub =? 0)%Z eqn:E; [discriminate|].
    intros [= <-]. simpl.
    assert (Hne : rescale (map Nota df_sub) <> []).
    { apply rescale_nonempty. destruct df_sub; [discriminate E|discriminate]. }
    pose proof (nps_round_within _ Hne) as Hn.
    pose proof (pct_within is_prom _ Hne) as Hp.
    pose proof (pct_within is_pass _ Hne) as Ha.
    pose proof (pct_within is_det _ Hne) as Hd.
    rewrite len_rescale, len_map in Hn, Hp, Ha, Hd.
    split; [exact Hn|].
    repeat split; try apply Hp; try apply Ha; try apply Hd;
      try apply np_sum_bounds.
    apply Z.eqb_neq in E. unfold len in *. lia.
  - intros x v. unfold Matrix.get_metrics.
    destruct (len x =? 0)%Z eqn:E; [discriminate|].
    simpl. intros [= <-].
    assert (Hne : rescale (map Nota x) <> []).
    { apply rescale_nonempty. destruct x; [discriminate E|discriminate]. }
    pose proof (nps_within _ Hne) as Hn.
    rewrite len_rescale, len_map in Hn. exact Hn.
  - intros df_sub ths st Hst. apply calculate_stats_In in Hst.
    destruct Hst as (_ & t0 & _ & _ & Hlen & ->). simpl.
    set (valid := Kano.valid_pairs df_sub t0) in *.
    assert (Hne : map fst valid <> []).
    { destruct valid; [unfold len in Hlen; simpl in Hlen; lia|discriminate]. }
    pose proof (nps_round_within _ Hne) as Hn. rewrite len_map in Hn.
    exact Hn.
  - intros df s e H. unfold Kano.Static.nps_static in H.
    apply in_flat_map in H. destruct H as (s' & _ & H).
    destruct (filter _ (Kano.df_2025 df)) as [|r0 rest] eqn:F; [contradiction|].
    destruct H as [[= <- <-]|[]]. simpl.
    assert (Hne : map Nota (r0 :: rest) <> []) by discriminate.
    pose proof (nps_round_within _ Hne) as Hn.
    split; [exact Hn|].
    unfold len. simpl. lia.
Qed.

Lemma metrics_within_bounds_witness :
  exists m, Lojistas.calculate_metrics example_frame "2025" = Some m
            /\ - (100) <= Lojistas.nps m <= 100.
Proof.
  eexists. split; [vm_compute; reflexivity|].
  apply (proj1 metrics_within_bounds example_frame "2025").
  vm_compute. reflexivity.
Defined.

(** ** The period table *)

Lemma calculate_metrics_none (df_sub : DataFrame) (p : string) :
  Lojistas.calculate_metrics df_sub p = None <-> df_sub = [].
Proof.
  unfold Lojistas.calculate_metrics. split.
  - destruct df_sub; [reflexivity|]. discriminate.
  - intros ->. reflexivity.
Qed.

Lemma calculate_metrics_period (df_sub : DataFrame) (p : string) m :
  Lojistas.calculate_metrics df_sub p = Some m ->
  Lojistas.period m = p /\ Lojistas.total m = len df_sub.
Proof.
  unfold Lojistas.calculate_metrics.
  destruct (len df_sub =? 0)%Z; [discriminate|]. intros [= <-]. auto.
Qed.

Lemma calculate_metrics_total_pos (df_sub : DataFrame) (p : string) m :
  Lojistas.calculate_metrics df_sub p = Some m -> (1 <= Lojistas.total m)%Z.
Proof.
  unfold Lojistas.calculate_metrics.
  destruct (len df_sub =? 0)%Z eqn:E; [discriminate|]. intros [= <-]. simpl.
  apply Z.eqb_neq in E. unfold len in *. lia.
Qed.

Lemma dropna_map_filter {A B} (f : A -> option B) (g : B -> A) (l : list A) :
  (forall a b, f a = Some b -> g b = a) ->
  map g (dropna (map f l))
  = filter (fun a => match f a with Some _ => true | None => false end) l.
Proof.
  intros H. induction l as [|a l IH]; simpl; [reflexivity|].
  destruct (f a) eqn:E; simpl; rewrite IH; [|reflexivity].
  now rewrite (H _ _ E).
Qed.

(** [X5] The records of a frame follow the order of the target periods,
    one for each target period in which the frame has a row and none for
    the others: no zero fill, and no record for a period outside the
    list.  The total of a record is the number of rows of its period. *)
Theorem per_period_no_zero_fill :
  forall frame : DataFrame,
    map Lojistas.period (Lojistas.per_period frame)
    = filter (has_period frame) Lojistas.target_periods
    /\ (forall m, In m (Lojistas.per_period frame) ->
          Lojistas.total m
          = len (filter (fun r => String.eqb (Lojistas.Period r) (Lojistas.period m))
                        frame)
          /\ (1 <= Lojistas.total m)%Z).
Proof.
  intros frame. split.
  - unfold Lojistas.per_period.
    rewrite (dropna_map_filter _ Lojistas.period).
    + apply filter_ext. intros p. unfold has_period.
      destruct (Lojistas.calculate_metrics _ p) eqn:E.
      * symmetry. apply existsb_exists.
        destruct (filter (fun r => String.eqb (Lojistas.Period r) p) frame)
          as [|r rest] eqn:F; [discriminate E|].
        assert (Hr : In r (r :: rest)) by now left.
        rewrite <- F in Hr. apply filter_In in Hr. now exists r.
      * symmetry. apply calculate_metrics_none in E.
        destruct (existsb _ frame) eqn:X; [|reflexivity].
        apply existsb_exists in X. destruct X as (r & Hr & Hp).
        assert (Hin : In r (filter (fun r => String.eqb (Lojistas.Period r) p) frame))
          by (apply filter_In; auto).
        rewrite E in Hin. destruct Hin.
    + intros p m E. now apply calculate_metrics_period in E.
  - intros m Hm. unfold Lojistas.per_period in Hm.
    apply dropna_In, in_map_iff in Hm. destruct Hm as (p & E & _).
    pose proof (calculate_metrics_period _ _ _ E) as [Hp Ht].
    rewrite Hp. split; [exact Ht|].
    exact (calculate_metrics_total_pos _ _ _ E).
Qed.

Lemma per_period_no_zero_fill_witness :
  exists m, In m (Lojistas.per_period example_frame)
            /\ Lojistas.period m = "2025" /\ Lojistas.total m = 10%Z.
Proof.
  eexists. split; [vm_compute; left; reflexivity|].
  split; [reflexivity|].
  destruct (per_period_no_zero_fill example_frame) as [_ H].
  refine (eq_trans (proj1 (H _ _)) _); [vm_compute; left; reflexivity|].
  vm_compute. reflexivity.
Defined.

(** ** One row per respondent and period *)

Section KeyFirst.
Context {A K : Type} (key : A -> K) (same : A -> A -> bool).
Hypothesis same_key : forall a b, same a b = true <-> key a = key b.

Lemma keep_first_key_complete (seen l : list A) (x : A) :
  In x l ->
  In (key x) (map key seen) \/ In (key x) (map key (keep_first same seen l)).
Proof.
  revert seen. induction l as [|y t IH]; intros seen; simpl; [tauto|].
  intros [->|Hx].
  - destruct (existsb (same x) seen) eqn:E.
    + left. now apply (seen_key key same same_key).
    + right. simpl. now left.
  - destruct (existsb (same y) seen) eqn:E.
    + apply IH. exact Hx.
    + destruct (IH (y :: seen) Hx) as [[H|H]|H].
      * right. simpl. left. exact H.
      * now left.
      * right. simpl. now right.
Qed.

Lemma keep_first_is_first (seen l : list A) (x : A) :
  In x (keep_first same seen l) -> find (same x) l = Some x.
Proof.
  revert seen. induction l as [|y t IH]; intros seen; simpl; [tauto|].
  destruct (existsb (same y) seen) eqn:E.
  - intros Hx.
    assert (N : same x y = false).
    { destruct (same x y) eqn:S; [|reflexivity]. exfalso.
      apply same_key in S.
      apply (keep_first_key_fresh key same same_key seen t (key x)).
      - now apply in_map.
      - rewrite S. now apply (seen_key key same same_key). }
    rewrite N. exact (IH _ Hx).
  - intros [<-|Hx].
    + assert (R : same y y = true) by now apply same_key.
      now rewrite R.
    + assert (N : same x y = false).
      { destruct (same x y) eqn:S; [|reflexivity]. exfalso.
        apply same_key in S.
        apply (keep_first_key_fresh key same same_key (y :: seen) t (key x)).
        - now apply in_map.
        - simpl. left. now symmetry. }
      rewrite N. exact (IH _ Hx).
Qed.
End KeyFirst.

Lemma lojistas_same_response_key (a b : Row) :
  Lojistas.same_response a b = true <-> response_key a = response_key b.
Proof.
  unfold Lojistas.same_response, response_key.
  rewrite andb_true_iff, !String.eqb_eq. split.
  - intros [-> ->]. reflexivity.
  - intros [= -> ->]. auto.
Qed.

(** [X6] The period table and the matrix keep the same rows: of the
    finished target-topic rows, for every (period, respondent) the first
    one in file order and no other. *)
Theorem df_final_first_per_key :
  forall df : DataFrame,
    Matrix.df_fim df = Lojistas.df_final df
    /\ NoDup (map response_key (Lojistas.df_final df))
    /\ (forall r, In r (Lojistas.df_final df) ->
          In r (finished_rows df)
          /\ find (Lojistas.same_response r) (finished_rows df) = Some r)
    /\ (forall r, In r (finished_rows df) ->
          exists r', In r' (Lojistas.df_final df)
                     /\ response_key r' = response_key r).
Proof.
  intros df. split; [reflexivity|].
  unfold Lojistas.df_final, drop_duplicates. fold (finished_rows df).
  split; [|split].
  - apply (keep_first_key_NoDup _ _ lojistas_same_response_key).
  - intros r Hr. split; [exact (keep_first_incl _ _ _ _ Hr)|].
    exact (keep_first_is_first _ _ lojistas_same_response_key _ _ _ Hr).
  - intros r Hr.
    destruct (keep_first_key_complete _ _ lojistas_same_response_key [] _ r Hr)
      as [[]|H].
    apply in_map_iff in H. destruct H as (r' & E & Hr'). now exists r'.
Qed.

Lemma df_final_first_per_key_witness :
  In (response "1" (Some "A") 9) (Lojistas.df_final twice_finished)
  /\ find (Lojistas.same_response (response "1" (Some "A") 9))
          (finished_rows twice_finished)
     = Some (response "1" (Some "A") 9)
  /\ ~ In (response "1" (Some "A") 3) (Lojistas.df_final twice_finished).
Proof.
  assert (H : In (response "1" (Some "A") 9) (Lojistas.df_final twice_finished))
    by (vm_compute; left; reflexivity).
  split; [exact H|].
  split.
  - exact (proj2 (proj1 (proj2 (proj2 (df_final_first_per_key twice_finished)))
                        _ H)).
  - vm_compute. intros [E|[E|[]]]; discriminate E.
Defined.

(** ** The period table and the matrix agree *)

Lemma metrics_agree (frame : DataFrame) (p : string) (m : Lojistas.Metrics) :
  Lojistas.calculate_metrics frame p = Some m ->
  Lojistas.period m = p
  /\ Lojistas.total m = Matrix.N (Matrix.get_metrics frame)
  /\ Lojistas.prom_abs m = Matrix.Prom (Matrix.get_metrics frame)
  /\ Lojistas.pass_abs m = Matrix.Neu (Matrix.get_metrics frame)
  /\ Lojistas.det_abs m = Matrix.Det (Matrix.get_metrics frame)
  /\ exists v, Matrix.NPS (Matrix.get_metrics frame) = Some v
               /\ Lojistas.nps m = round v 1.
Proof.
  unfold Lojistas.calculate_metrics, Matrix.get_metrics.
  destruct (len frame =? 0)%Z; [discriminate|].
  intros [= <-]. simpl. repeat split. eexists. split; reflexivity.
Qed.

Lemma per_period_In (frame : DataFrame) (p : string) (r : Row) :
  In p Lojistas.target_periods -> In r frame -> Lojistas.Period r = p ->
  exists m,
    In m (Lojistas.per_period frame)
    /\ Lojistas.calculate_metrics
         (filter (fun r => String.eqb (Lojistas.Period r) p) frame) p = Some m.
Proof.
  intros Hp Hr E.
  destruct (Lojistas.calculate_metrics
              (filter (fun r => String.eqb (Lojistas.Period r) p) frame) p)
    as [m|] eqn:C.
  - exists m. split; [|reflexivity].
    unfold Lojistas.per_period. apply dropna_In, in_map_iff.
    exists p. auto.
  - apply calculate_metrics_none in C.
    assert (Hin : In r (filter (fun r => String.eqb (Lojistas.Period r) p) frame))
      by (apply filter_In; split; [exact Hr|now apply String.eqb_eq]).
    rewrite C in Hin. destruct Hin.
Qed.

Lemma lojistas_shoppings_In (df : DataFrame) (s : string) :
  In s (Lojistas.shoppings df) <->
  exists r, In r (Lojistas.df_final df) /\ ShoppingCode r = Some s.
Proof.
  unfold Lojistas.shoppings, sorted.
  rewrite sorted_by_In, unique_In, dropna_In, in_map_iff.
  split; intros (r & H1 & H2); exists r; auto.
Qed.

(** Assignment to a key of a dictionary. *)
Lemma existsb_keys {V} (d : list (string * V)) (k : string) :
  existsb (fun kv => String.eqb (fst kv) k) d
  = existsb (String.eqb k) (map fst d).
Proof.
  induction d as [|kv d IH]; cbn [existsb map]; [reflexivity|].
  rewrite IH. now rewrite (String.eqb_sym k).
Qed.

Lemma dict_set_keys {V} (d : list (string * V)) (k : string) (v : V) :
  map fst (dict_set d k v)
  = if existsb (String.eqb k) (map fst d) then map fst d
    else (map fst d ++ [k])%list.
Proof.
  unfold dict_set. rewrite existsb_keys. destruct (existsb (String.eqb k) (map fst d)).
  - rewrite map_map. apply map_ext_in. intros kv _.
    destruct (String.eqb (fst kv) k) eqn:Ek; [|reflexivity].
    apply String.eqb_eq in Ek. now rewrite Ek.
  - rewrite map_app. reflexivity.
Qed.

Lemma dict_set_In_key {V} (d : list (string * V)) (k : string) (v v' : V) :
  In (k, v') (dict_set d k v) <-> v' = v.
Proof.
  unfold dict_set.
  destruct (existsb (fun kv => String.eqb (fst kv) k) d) eqn:E.
  - rewrite in_map_iff. split.
    + intros (kv & Hkv & _).
      destruct (String.eqb (fst kv) k) eqn:Ek.
      * now injection Hkv as <-.
      * apply String.eqb_neq in Ek. destruct kv as [k0 v0].
        injection Hkv as -> _. now elim Ek.
    + intros ->. apply existsb_exists in E. destruct E as (kv & Hin & Ek).
      exists kv. rewrite Ek. auto.
  - rewrite in_app_iff. split.
    + intros [H|[[= <-]|[]]]; [|reflexivity].
      exfalso.
      assert (C : existsb (fun kv => String.eqb (fst kv) k) d = true).
      { apply existsb_exists. exists (k, v'). split; [exact H|].
        apply String.eqb_refl. }
      congruence.
    + intros ->. right. now left.
Qed.

Lemma dict_set_In_other {V} (d : list (string * V)) (k k' : string) (v v' : V) :
  k' <> k -> In (k', v') d -> In (k', v') (dict_set d k v).
Proof.
  intros Hk H. unfold dict_set.
  destruct (existsb (fun kv => String.eqb (fst kv) k) d).
  - apply in_map_iff. exists (k', v'). split; [|exact H]. simpl.
    apply String.eqb_neq in Hk. now rewrite Hk.
  - apply in_or_app. now left.
Qed.

(** [X7] For a target period, the line of an entity in the matrix and the
    record of that entity in the dictionary of the period table carry the
    same counts, and the NPS of the table is that of the matrix rounded to
    one decimal; likewise the portfolio line and the GLOBAL record.  The
    entry GLOBAL of the dictionary is always the pooled one: it replaces
    the entry of an entity that is itself coded GLOBAL, the one entity
    excepted here.  Entity codes are texts. *)
Theorem table_matches_matrix :
  forall df : DataFrame,
    (forall s p sr,
        In ((s, p), sr) (Matrix.grouped df) ->
        In p Lojistas.target_periods ->
        s <> "GLOBAL" ->
        exists ms m,
          In (s, ms) (Lojistas.output df) /\ In m ms
          /\ Lojistas.period m = p
          /\ Lojistas.total m = Matrix.N sr
          /\ Lojistas.prom_abs m = Matrix.Prom sr
          /\ Lojistas.pass_abs m = Matrix.Neu sr
          /\ Lojistas.det_abs m = Matrix.Det sr
          /\ exists v, Matrix.NPS sr = Some v /\ Lojistas.nps m = round v 1)
    /\ (forall p sr,
          In (("PORTFOLIO", p), sr) (Matrix.portfolio df) ->
          In p Lojistas.target_periods ->
          exists ms m,
            In ("GLOBAL", ms) (Lojistas.output df) /\ In m ms
            /\ Lojistas.period m = p
            /\ Lojistas.total m = Matrix.N sr
            /\ Lojistas.prom_abs m = Matrix.Prom sr
            /\ Lojistas.pass_abs m = Matrix.Neu sr
            /\ Lojistas.det_abs m = Matrix.Det sr
            /\ exists v, Matrix.NPS sr = Some v /\ Lojistas.nps m = round v 1)
    /\ (forall ms,
          In ("GLOBAL", ms) (Lojistas.output df)
          <-> ms = Lojistas.per_period (Lojistas.df_final df)).
Proof.
  intros df. split; [|split].
  - intros s p sr Hg Hp Hs.
    unfold Matrix.grouped in Hg. apply in_map_iff in Hg.
    destruct Hg as ([s' p'] & E & Hk).
    injection E as Es Ep Esr. subst s' p' sr.
    apply group_keys_In in Hk. destruct Hk as (r & Hr & Hc & Hper).
    simpl in Hc, Hper.
    set (shop_df := filter (fun r => eq_opt (ShoppingCode r) s)
                           (Lojistas.df_final df)).
    assert (Hrs : In r shop_df).
    { apply filter_In. split; [exact Hr|]. rewrite Hc. apply String.eqb_refl. }
    destruct (per_period_In shop_df p r Hp Hrs Hper) as (m & Hm & Hcalc).
    exists (Lojistas.per_period shop_df), m.
    split.
    { unfold Lojistas.output. apply dict_set_In_other; [exact Hs|].
      apply in_map_iff. exists s. split; [reflexivity|].
      apply lojistas_shoppings_In. now exists r. }
    split; [exact Hm|].
    assert (G : Matrix.group (Matrix.df_fim df) (s, p)
                = filter (fun r => String.eqb (Lojistas.Period r) p) shop_df).
    { unfold Matrix.group, shop_df. rewrite filter_andb. reflexivity. }
    rewrite G. exact (metrics_agree _ _ _ Hcalc).
  - intros p sr Hport Hp.
    apply portfolio_In in Hport. destruct Hport as [(r & Hr & Hper) ->].
    destruct (per_period_In (Lojistas.df_final df) p r Hp Hr Hper)
      as (m & Hm & Hcalc).
    exists (Lojistas.per_period (Lojistas.df_final df)), m.
    split.
    { unfold Lojistas.output. now apply dict_set_In_key. }
    split; [exact Hm|].
    exact (metrics_agree _ _ _ Hcalc).
  - intros ms. unfold Lojistas.output. apply dict_set_In_key.
Qed.

Lemma table_matches_matrix_witness :
  exists ms m,
    In ("A", ms) (Lojistas.output two_entities) /\ In m ms
    /\ Lojistas.period m = "2025" /\ Lojistas.total m = 3%Z.
Proof.
  assert (Hg : In (("A", "2025"),
                   Matrix.get_metrics (Matrix.group (Matrix.df_fim two_entities)
                                                    ("A", "2025")))
                  (Matrix.grouped two_entities))
    by (vm_compute; left; reflexivity).
  assert (Hp : In "2025" Lojistas.target_periods)
    by (vm_compute; right; right; left; reflexivity).
  assert (Hs : "A" <> "GLOBAL") by discriminate.
  destruct (proj1 (table_matches_matrix two_entities) _ _ _ Hg Hp Hs)
    as (ms & m & H1 & H2 & H3 & H4 & _).
  exists ms, m. repeat split; assumption.
Defined.

(** ** Order of the listings *)

Section InsertionSort.
Context {A : Type} (leb : A -> A -> bool).
Hypothesis leb_total : forall a b, leb a b = true \/ leb b a = true.

Lemma insert_by_HdRel (a x : A) (l : list A) :
  leb a x = true ->
  HdRel (fun a b => leb a b = true) a l ->
  HdRel (fun a b => leb a b = true) a (insert_by leb x l).
Proof.
  intros Hax Hl. destruct l as [|y t]; simpl.
  - now constructor.
  - destruct (leb x y); constructor; [exact Hax|].
    now apply HdRel_inv in Hl.
Qed.

Lemma insert_by_Sorted (x : A) (l : list A) :
  Sorted (fun a b => leb a b = true) l ->
  Sorted (fun a b => leb a b = true) (insert_by leb x l).
Proof.
  induction 1 as [|y t Ht IH Hd]; simpl.
  - repeat constructor.
  - destruct (leb x y) eqn:E.
    + constructor; [now constructor|]. now constructor.
    + constructor; [exact IH|].
      apply insert_by_HdRel; [|exact Hd].
      destruct (leb_total x y) as [H|H]; [congruence|exact H].
Qed.

Lemma sorted_by_Sorted (l : list A) :
  Sorted (fun a b => leb a b = true) (sorted_by leb l).
Proof.
  unfold sorted_by. induction l as [|x t IH]; simpl; [constructor|].
  now apply insert_by_Sorted.
Qed.
End InsertionSort.

Lemma key_leb_total (a b : string * string) :
  Matrix.key_leb a b = true \/ Matrix.key_leb b a = true.
Proof.
  destruct a as [a1 a2], b as [b1 b2]. unfold Matrix.key_leb, String.ltb. simpl.
  rewrite (String.compare_antisym b1 a1).
  destruct (String.compare a1 b1) eqn:C; simpl.
  - apply String.compare_eq_iff in C. subst b1.
    rewrite String.eqb_refl. simpl. apply String.leb_total.
  - now left.
  - now right.
Qed.

Lemma unique_NoDup (l : list string) : NoDup (unique l).
Proof. apply (keep_first_NoDup _ String.eqb_eq). Qed.

Lemma sorted_NoDup (l : list string) : NoDup l -> NoDup (sorted l).
Proof.
  apply Permutation_NoDup, Permutation_sym, sorted_by_perm.
Qed.

Lemma map_fst_pair {A B} (f : A -> B) (l : list A) :
  map fst (map (fun a => (a, f a)) l) = l.
Proof. rewrite map_map. simpl. apply map_id. Qed.

(** [X8] The printed matrix is the entity lines and the portfolio lines
    sorted by (entity code, period); no two entity lines share a key, and
    every line rests on at least one response, so that the NaN of an empty
    group is never printed. *)
Theorem matrix_rows_sorted_defined :
  forall df : DataFrame,
    Permutation (Matrix.final_df df) (Matrix.grouped df ++ Matrix.portfolio df)
    /\ Sorted (fun a b => Matrix.key_leb (fst a) (fst b) = true) (Matrix.final_df df)
    /\ NoDup (map fst (Matrix.grouped df))
    /\ (forall k sr,
          In (k, sr) (Matrix.final_df df) ->
          (1 <= Matrix.N sr)%Z /\ exists v, Matrix.NPS sr = Some v).
Proof.
  intros df. split; [apply sorted_by_perm|]. split; [|split].
  - apply (sorted_by_Sorted (fun a b => Matrix.key_leb (fst a) (fst b))).
    intros a b. apply key_leb_total.
  - unfold Matrix.grouped. rewrite map_fst_pair. apply group_keys_NoDup.
  - intros k sr H. unfold Matrix.final_df in H.
    apply sorted_by_In, in_app_or in H.
    assert (E : exists frame r, In r frame /\ sr = Matrix.get_metrics frame).
    { destruct H as [H|H].
      - unfold Matrix.grouped in H. apply in_map_iff in H.
        destruct H as (k' & E & Hk). injection E as Ek Es. subst k' sr.
        apply group_keys_In in Hk. destruct Hk as (r & Hr & Hc & Hp).
        exists (Matrix.group (Matrix.df_fim df) k), r. split; [|reflexivity].
        apply filter_In. split; [exact Hr|].
        rewrite Hc, Hp. simpl. now rewrite !String.eqb_refl.
      - destruct k as [s p].
        assert (s = "PORTFOLIO").
        { unfold Matrix.portfolio in H. apply in_map_iff in H.
          destruct H as (p' & E & _). now injection E. }
        subst s. apply portfolio_In in H. destruct H as [(r & Hr & Hp) ->].
        exists (Matrix.period_group (Matrix.df_fim df) p), r.
        split; [|reflexivity].
        apply filter_In. split; [exact Hr|]. now apply String.eqb_eq. }
    destruct E as (frame & r & Hr & ->).
    unfold Matrix.get_metrics.
    destruct frame as [|r0 rest]; [destruct Hr|].
    assert (L : (len (r0 :: rest) =? 0)%Z = false) by (apply len_pos; discriminate).
    rewrite L. simpl. split; [|eexists; reflexivity].
    apply Z.eqb_neq in L. unfold len in *. lia.
Qed.

Lemma matrix_rows_sorted_defined_witness :
  exists sr, In (("PORTFOLIO", "2025"), sr) (Matrix.final_df two_entities)
             /\ (1 <= Matrix.N sr)%Z.
Proof.
  eexists. split; [vm_compute; right; right; left; reflexivity|].
  refine (proj1 (proj2 (proj2 (proj2 (matrix_rows_sorted_defined two_entities)))
                       ("PORTFOLIO", "2025") _ _)).
  vm_compute. right. right. left. reflexivity.
Defined.

(** [X9] Entities are listed in alphabetical order without repetition:
    the dictionary of the period table lists them followed by GLOBAL, or
    in their order alone when one of them is itself coded GLOBAL; the
    per-entity tables, the heatmap and the roster list the same entities
    in the same order, the snapshot a part of them.  Entity codes are
    texts. *)
Theorem entities_listed_in_order :
  forall df : DataFrame,
    (Sorted (fun a b => String.leb a b = true) (Lojistas.shoppings df)
     /\ NoDup (Lojistas.shoppings df)
     /\ map fst (Lojistas.output df)
        = if existsb (String.eqb "GLOBAL") (Lojistas.shoppings df)
          then Lojistas.shoppings df
          else Lojistas.shoppings df ++ ["GLOBAL"])%list
    /\ Sorted (fun a b => String.leb a b = true) (Kano.shoppings df)
    /\ NoDup (Kano.shoppings df)
    /\ map fst (Kano.kano_by_shop df) = Kano.shoppings df
    /\ map fst (Kano.heatmap df) = Kano.shoppings df
    /\ map fst (Kano.Roster.lojistas_list true df) = Kano.shoppings df
    /\ incl (map fst (Kano.Static.nps_static df)) (Kano.shoppings df).
Proof.
  intros df. split; [split; [|split]|].
  - apply (sorted_by_Sorted String.leb String.leb_total).
  - apply sorted_NoDup, unique_NoDup.
  - unfold Lojistas.output. rewrite dict_set_keys.
    now rewrite (map_fst_pair (fun shop => Lojistas.per_period _)).
  - split; [apply (sorted_by_Sorted String.leb String.leb_total)|].
    split; [apply sorted_NoDup, unique_NoDup|].
    split; [apply (map_fst_pair (fun s => Kano.calculate_stats _ _))|].
    split; [apply (map_fst_pair (fun s => map _ (Kano.themes df)))|].
    split.
    + unfold Kano.Roster.lojistas_list.
      apply (map_fst_pair (fun s => map _ _)).
    + intros s Hs. apply in_map_iff in Hs. destruct Hs as ([s' e] & <- & H).
      unfold Kano.Static.nps_static in H. apply in_flat_map in H.
      destruct H as (s0 & Hs0 & H).
      destruct (filter _ _); [contradiction|].
      destruct H as [[= <- _]|[]]. exact Hs0.
Qed.

(** ** The pivot *)

Lemma sorted_In (l : list string) (x : string) : In x (sorted l) <-> In x l.
Proof. apply sorted_by_In. Qed.

Lemma normalize_In (frame : DataFrame) (r : Row) :
  In r frame ->
  exists r', In r' (Kano.normalize frame)
             /\ ResponseID r' = ResponseID r /\ Tema r' = Tema r
             /\ ShoppingCode r' = ShoppingCode r.
Proof.
  intros H. unfold Kano.normalize.
  destruct (max_gt_10 (map Nota frame)).
  - exists (Kano.set_Nota r (Nota r / 10)). split; [|auto].
    apply in_map_iff. now exists r.
  - exists r. auto.
Qed.

Lemma find_map_key {V} (f : string -> V) (k : string) (l : list string) :
  In k l ->
  find (fun kv => String.eqb (fst kv) k) (map (fun t => (t, f t)) l)
  = Some (k, f k).
Proof.
  induction l as [|x l IH]; simpl; [tauto|].
  destruct (String.eqb_spec x k) as [->|N]; [reflexivity|].
  intros [E|H]; [contradiction|exact (IH H)].
Qed.

Lemma pivot_cell (frame : DataFrame) (p : Kano.PivotRow) (t0 : string) :
  In p (Kano.rows (Kano.pivot_of frame)) ->
  In t0 (map Tema frame) ->
  Kano.cell p t0 = Kano.cell_mean frame (Kano.index p) t0.
Proof.
  unfold Kano.pivot_of. cbn [Kano.rows]. rewrite in_map_iff.
  intros (rid & <- & _) Ht. unfold Kano.cell. cbn [Kano.cells Kano.index].
  rewrite find_map_key; [reflexivity|].
  now apply sorted_In, unique_In.
Qed.

Lemma cell_mean_some (frame : DataFrame) (r : Row) :
  In r frame ->
  exists v, Kano.cell_mean frame (ResponseID r) (Tema r) = Some v.
Proof.
  intros H. unfold Kano.cell_mean.
  destruct (map Nota (filter _ frame)) eqn:E; [|eexists; reflexivity].
  exfalso. apply map_eq_nil in E.
  assert (Hin : In r (filter (fun r0 => String.eqb (ResponseID r0) (ResponseID r)
                                         && String.eqb (Tema r0) (Tema r)) frame)).
  { apply filter_In. split; [exact H|]. now rewrite !String.eqb_refl. }
  rewrite E in Hin. destruct Hin.
Qed.

Lemma finished_in_df_2025 (df : DataFrame) (rid : string) :
  finished_target df rid ->
  exists r, In r (Kano.df_2025 df) /\ ResponseID r = rid /\ Tema r = TARGET.
Proof.
  intros Hf. pose proof Hf as (r & Hr & Hid & Hp & Ht & Hm).
  assert (Hs : In r (Kano.df_2025_selected df)).
  { apply selected_In. rewrite Hid. auto. }
  destruct (normalize_In _ _ Hs) as (r' & Hr' & E1 & E2 & _).
  exists r'. unfold Kano.df_2025. rewrite E1, E2. auto.
Qed.

(** [X10] The lines of the pivot are the respondents with a finished
    target-topic response in 2025, each once, in alphabetical order of
    their id, each with a score for the target topic; hence the paired
    count of a topic is the number of respondents who scored the topic. *)
Theorem pivot_rows_are_finished_respondents :
  forall df : DataFrame,
    (forall rid,
        In rid (map Kano.index (Kano.rows (Kano.pivot df)))
        <-> finished_target df rid)
    /\ NoDup (map Kano.index (Kano.rows (Kano.pivot df)))
    /\ Sorted (fun a b => String.leb a b = true)
              (map Kano.index (Kano.rows (Kano.pivot df)))
    /\ (forall p, In p (Kano.rows (Kano.pivot df)) ->
                  exists v, Kano.cell p TARGET = Some v)
    /\ (forall t0,
          paired_count (Kano.pivot df) t0
          = len (filter (answered t0) (Kano.rows (Kano.pivot df)))).
Proof.
  intros df.
  assert (Hrows : map Kano.index (Kano.rows (Kano.pivot df))
                  = sorted (unique (map ResponseID (Kano.df_2025 df)))).
  { unfold Kano.pivot, Kano.pivot_of. cbn [Kano.rows].
    rewrite map_map. cbn [Kano.index]. apply map_id. }
  split; [|split; [|split; [|split]]].
  - intros rid. rewrite Hrows, sorted_In, unique_In. split.
    + apply df_2025_ids.
    + intros Hf. destruct (finished_in_df_2025 df rid Hf) as (r & Hr & <- & _).
      now apply in_map.
  - rewrite Hrows. apply sorted_NoDup, unique_NoDup.
  - rewrite Hrows. apply (sorted_by_Sorted String.leb String.leb_total).
  - intros p Hp.
    destruct (finished_in_df_2025 df (Kano.index p) (pivot_index df p Hp))
      as (r & Hr & Hid & Ht).
    unfold Kano.pivot in *.
    rewrite (pivot_cell _ p TARGET Hp).
    + rewrite <- Hid, <- Ht. now apply cell_mean_some.
    + rewrite <- Ht. now apply in_map.
  - intros t0. unfold paired_count. f_equal.
    apply filter_ext_in. intros p Hp. unfold paired, answered.
    destruct (finished_in_df_2025 df (Kano.index p) (pivot_index df p Hp))
      as (r & Hr & Hid & Ht).
    assert (E : exists v, Kano.cell p TARGET = Some v).
    { unfold Kano.pivot in *. rewrite (pivot_cell _ p TARGET Hp).
      - rewrite <- Hid, <- Ht. now apply cell_mean_some.
      - rewrite <- Ht. now apply in_map. }
    destruct E as (v & ->). now destruct (Kano.cell p t0).
Qed.

Lemma pivot_rows_are_finished_respondents_witness :
  In "A" (map Kano.index (Kano.rows (Kano.pivot with_dropout)))
  /\ exists p v, In p (Kano.rows (Kano.pivot with_dropout))
                 /\ Kano.cell p TARGET = Some v.
Proof.
  destruct (pivot_rows_are_finished_respondents with_dropout)
    as (Hiff & _ & _ & Hcell & _).
  split.
  - apply Hiff.
    exists (mkRow "A" (Str "NPS 2025") TARGET Fim (Some "X") 9 None (Some "loja")).
    split; [right; left; reflexivity|].
    repeat split; reflexivity.
  - pose (p := hd (Kano.mkPivotRow EmptyString [] None)
                  (Kano.rows (Kano.pivot with_dropout))).
    assert (Hp : In p (Kano.rows (Kano.pivot with_dropout)))
      by (vm_compute; left; reflexivity).
    destruct (Hcell p Hp) as [v Hv]. exists p, v. split; [exact Hp|exact Hv].
Defined.

(** ** The entity of a respondent *)

Lemma shop_map_In (frame : DataFrame) (kv : string * option string) :
  In kv (Kano.shop_map frame) <->
  exists r, In r frame /\ ResponseID r = fst kv /\ ShoppingCode r = snd kv.
Proof.
  unfold Kano.shop_map.
  rewrite drop_duplicates_In.
  - rewrite in_map_iff. split.
    + intros (r & <- & Hr). now exists r.
    + intros (r & Hr & E1 & E2). exists r. split; [|exact Hr].
      destruct kv. simpl in *. congruence.
  - intros [a1 a2] [b1 b2]. simpl.
    rewrite andb_true_iff, String.eqb_eq. split.
    + intros [-> H]. f_equal.
      destruct a2, b2; simpl in H; try discriminate; [|reflexivity].
      apply String.eqb_eq in H. now subst.
    + intros [= -> ->]. split; [reflexivity|].
      destruct b2; simpl; [apply String.eqb_refl|reflexivity].
Qed.

Lemma dict_get_In {V} (d : list (string * option V)) (k : string) :
  In k (map fst d) ->
  exists v, In (k, v) d /\ Kano.dict_get d k = v.
Proof.
  intros Hk. unfold Kano.dict_get.
  destruct (find (fun kv => String.eqb (fst kv) k) (rev d)) as [[k' v]|] eqn:F.
  - apply find_some in F. destruct F as [Hin E]. simpl in E.
    apply String.eqb_eq in E. subst k'.
    exists v. split; [now apply in_rev|reflexivity].
  - exfalso. apply in_map_iff in Hk. destruct Hk as ([k' v] & E & Hin).
    simpl in E. subst k'.
    apply in_rev in Hin.
    pose proof (find_none _ _ F _ Hin) as N. simpl in N.
    now rewrite String.eqb_refl in N.
Qed.

(** [X11] The entity of a pivot line is the entity code of one of the
    respondent's rows, and the code all of them carry when they agree. *)
Theorem pivot_code_is_a_row_code :
  forall (df : DataFrame) (p : Kano.PivotRow),
    In p (Kano.rows (Kano.pivot df)) ->
    (exists r, In r (Kano.df_2025 df) /\ ResponseID r = Kano.index p
               /\ Kano.code p = ShoppingCode r)
    /\ (forall c,
          (forall r, In r (Kano.df_2025 df) -> ResponseID r = Kano.index p ->
                     ShoppingCode r = c) ->
          Kano.code p = c).
Proof.
  intros df p Hp.
  assert (E : exists r, In r (Kano.df_2025 df) /\ ResponseID r = Kano.index p
                        /\ Kano.code p = ShoppingCode r).
  { unfold Kano.pivot, Kano.pivot_of in Hp. cbn [Kano.rows] in Hp.
    apply in_map_iff in Hp. destruct Hp as (rid & <- & Hrid).
    cbn [Kano.index Kano.code].
    apply sorted_In, unique_In, in_map_iff in Hrid.
    destruct Hrid as (r0 & Hid & Hr0).
    destruct (dict_get_In (Kano.shop_map (Kano.df_2025 df)) rid) as (v & Hv & G).
    - apply in_map_iff. exists (rid, ShoppingCode r0). split; [reflexivity|].
      apply shop_map_In. now exists r0.
    - apply shop_map_In in Hv. destruct Hv as (r & Hr & E1 & E2).
      exists r. simpl in *. rewrite G. auto. }
  split; [exact E|].
  intros c Hc. destruct E as (r & Hr & Hid & ->). now apply Hc.
Qed.

Lemma pivot_code_is_a_row_code_witness :
  exists p, In p (Kano.rows (Kano.pivot five_paired))
            /\ Kano.code p = Some "X".
Proof.
  pose (p := hd (Kano.mkPivotRow EmptyString [] None)
                (Kano.rows (Kano.pivot five_paired))).
  assert (Hp : In p (Kano.rows (Kano.pivot five_paired)))
    by (vm_compute; left; reflexivity).
  exists p. split; [exact Hp|].
  apply (proj2 (pivot_code_is_a_row_code five_paired p Hp)).
  intros r Hr _. vm_compute in Hr.
  repeat (destruct Hr as [<-|Hr]; [reflexivity|]). destruct Hr.
Defined.

(** ** The heatmap *)




(** ** The roster *)

Lemma roster_entry (df : DataFrame) (s : string)
    (ls : list Kano.Roster.Lojista) (l : Kano.Roster.Lojista) :
  In (s, ls) (Kano.Roster.lojistas_list true df) -> In l ls ->
  exists row,
    In row (Kano.df_2025 df) /\ Tema row = TARGET
    /\ l = Kano.Roster.lojista_of (Kano.df_2025 df) (Kano.pivot df) row.
Proof.
  unfold Kano.Roster.lojistas_list. intros H Hl.
  apply in_map_iff in H. destruct H as (s' & E & _).
  injection E as Es El. subst s' ls.
  apply in_map_iff in Hl. destruct Hl as (row & <- & Hrow).
  apply filter_In in Hrow. destruct Hrow as [Hrow Hc].
  apply andb_true_iff in Hc. destruct Hc as [_ Ht].
  apply String.eqb_eq in Ht. now exists row.
Qed.

Lemma category_cases (score : Q) :
  let c := if Qleb 9 score then "prom"
           else if Qleb 7 score then "pass" else "detr" in
  (9 <= score /\ c = "prom")
  \/ (7 <= score < 9 /\ c = "pass")
  \/ (score < 7 /\ c = "detr").
Proof.
  cbv zeta.
  destruct (Qleb 9 score) eqn:H9.
  - left. split; [now apply Qleb_le|reflexivity].
  - assert (L : score < 9).
    { apply Qnot_le_lt. intros C. apply Qleb_le in C. congruence. }
    destruct (Qleb 7 score) eqn:H7.
    + right. left. split; [|reflexivity]. split; [now apply Qleb_le|exact L].
    + right. right. split; [|reflexivity].
      apply Qnot_le_lt. intros C. apply Qleb_le in C. congruence.
Qed.

Lemma band_props (x : Q) :
  (is_prom x = true <-> 9 <= x)
  /\ (is_pass x = true <-> 7 <= x /\ x <= 8)
  /\ (is_det x = true <-> x <= 6).
Proof.
  unfold is_prom, is_pass, is_det.
  rewrite andb_true_iff, !Qleb_le. tauto.
Qed.

(** [X13] A roster entry is a promoter from 9, a passive from 7 to below
    9, a detractor below 7.  This agrees with the bands of the NPS metric
    except on the scores strictly between 6 and 7 or 8 and 9, which the
    roster calls detractor or passive and the metric counts in no band. *)
Theorem roster_category_by_score :
  forall (df : DataFrame) (s : string)
         (ls : list Kano.Roster.Lojista) (l : Kano.Roster.Lojista),
    In (s, ls) (Kano.Roster.lojistas_list true df) -> In l ls ->
    let score := Kano.Roster.s l in
    (Kano.Roster.c l = "prom" <-> 9 <= score)
    /\ (Kano.Roster.c l = "pass" <-> 7 <= score < 9)
    /\ (Kano.Roster.c l = "detr" <-> score < 7)
    /\ (~ in_gap score ->
        (Kano.Roster.c l = "prom" <-> is_prom score = true)
        /\ (Kano.Roster.c l = "pass" <-> is_pass score = true)
        /\ (Kano.Roster.c l = "detr" <-> is_det score = true))
    /\ (in_gap score ->
        (Kano.Roster.c l = "pass" \/ Kano.Roster.c l = "detr")
        /\ is_prom score = false /\ is_pass score = false
        /\ is_det score = false).
Proof.
  intros df s ls l H Hl.
  destruct (roster_entry df s ls l H Hl) as (row & _ & _ & ->).
  unfold Kano.Roster.lojista_of. cbn [Kano.Roster.s Kano.Roster.c].
  set (score := Nota row). cbv zeta.
  destruct (band_props score) as (B1 & B2 & B3).
  pose proof (category_cases score) as C. cbv zeta in C.
  set (c := if Qleb 9 score then "prom"
            else if Qleb 7 score then "pass" else "detr") in *.
  split; [|split; [|split; [|split]]].
  - destruct C as [[L ->]|[[L ->]|[L ->]]]; split; intros;
      try discriminate; try reflexivity; try lra.
  - destruct C as [[L ->]|[[L ->]|[L ->]]]; split; intros;
      try discriminate; try reflexivity; try lra.
  - destruct C as [[L ->]|[[L ->]|[L ->]]]; split; intros;
      try discriminate; try reflexivity; try lra.
  - intros G. rewrite B1, B2, B3. unfold in_gap in G.
    destruct (Qlt_le_dec 8 score), (Qlt_le_dec 6 score);
      destruct C as [[L ->]|[[L ->]|[L ->]]];
      (split; [|split]); split; intros;
      try discriminate; try reflexivity; try lra;
      exfalso; apply G; lra.
  - intros G. destruct (gap_no_band score G) as (P1 & P2 & P3).
    split; [|auto]. unfold in_gap in G.
    destruct C as [[L ->]|[[L ->]|[L ->]]]; [exfalso; lra|now left|now right].
Qed.

Lemma roster_category_by_score_witness :
  exists ls l,
    In ("X", ls) (Kano.Roster.lojistas_list true gap_respondent) /\ In l ls
    /\ Kano.Roster.s l == 65 # 10
    /\ (Kano.Roster.c l = "detr" <-> Kano.Roster.s l < 7).
Proof.
  pose (ls := snd (hd (EmptyString, [])
                      (Kano.Roster.lojistas_list true gap_respondent))).
  pose (l := hd (Kano.Roster.mkLojista EmptyString 0 EmptyString [] None) ls).
  assert (H : In ("X", ls) (Kano.Roster.lojistas_list true gap_respondent))
    by (vm_compute; left; reflexivity).
  assert (Hl : In l ls) by (vm_compute; left; reflexivity).
  exists ls, l. split; [exact H|]. split; [exact Hl|].
  split; [vm_compute; reflexivity|].
  exact (proj1 (proj2 (proj2 (roster_category_by_score gap_respondent "X" ls l H Hl)))).
Defined.

Lemma append_nil_l (a b : string) : (a ++ b)%string = EmptyString -> a = EmptyString.
Proof. destruct a; [reflexivity|discriminate]. Qed.

Lemma concat_empty (sep : string) (l : list string) :
  Forall (fun x => x <> EmptyString) l ->
  (String.concat sep l = EmptyString <-> l = []).
Proof.
  intros F. split; [|intros ->; reflexivity].
  destruct l as [|x xs]; [reflexivity|]. intros E. exfalso.
  inversion F as [|? ? Hx _]; subst. apply Hx.
  simpl in E. destruct xs; [exact E|]. now apply append_nil_l in E.
Qed.

Lemma filter_nil {A} (f : A -> bool) (l : list A) :
  filter f l = [] <-> forall x, In x l -> f x = false.
Proof.
  split.
  - intros E x Hx. destruct (f x) eqn:Fx; [|reflexivity].
    assert (Hin : In x (filter f l)) by (apply filter_In; auto).
    rewrite E in Hin. destruct Hin.
  - intros H. induction l as [|a l IH]; simpl; [reflexivity|].
    rewrite (H a (or_introl eq_refl)). apply IH. intros x Hx. apply H. now right.
Qed.

Lemma comment_text_empty (frame : DataFrame) (rid : string) :
  Kano.Roster.comment_text frame rid = EmptyString <->
  forall r c, In r frame -> ResponseID r = rid -> Comentario r = Some c ->
              ~ not_blank c.
Proof.
  unfold Kano.Roster.comment_text, not_blank.
  rewrite concat_empty.
  2:{ apply Forall_forall. intros x Hx. apply filter_In in Hx.
      destruct Hx as [_ Hx]. apply negb_true_iff, String.eqb_neq in Hx. exact Hx. }
  rewrite filter_nil. split.
  - intros H r c Hr Hid Hc N.
    destruct (String.eqb_spec c EmptyString) as [->|Hne].
    { apply N. reflexivity. }
    assert (Hin : In (Kano.Roster.strip Kano.Roster.is_space c)
                     (map (Kano.Roster.strip Kano.Roster.is_space)
                        (unique (dropna (map Comentario
                           (filter (fun r => String.eqb (ResponseID r) rid
                              && match Comentario r with
                                 | Some x => negb (String.eqb x EmptyString)
                                 | None => false
                                 end) frame)))))).
    { apply in_map, unique_In, dropna_In, in_map_iff. exists r. split; [exact Hc|].
      apply filter_In. split; [exact Hr|].
      rewrite Hid, String.eqb_refl, Hc. simpl.
      apply negb_true_iff, String.eqb_neq. exact Hne. }
    apply H in Hin. apply negb_false_iff, String.eqb_eq in Hin. contradiction.
  - intros H x Hx. apply in_map_iff in Hx. destruct Hx as (c & <- & Hc).
    apply unique_In, dropna_In, in_map_iff in Hc. destruct Hc as (r & Hc & Hr).
    apply filter_In in Hr. destruct Hr as [Hr Hcond].
    apply andb_true_iff in Hcond. destruct Hcond as [Hid _].
    apply String.eqb_eq in Hid.
    apply negb_false_iff, String.eqb_eq.
    destruct (String.eqb_spec (Kano.Roster.strip Kano.Roster.is_space c) EmptyString)
      as [E|N]; [exact E|].
    exfalso. exact (H r c Hr Hid Hc N).
Qed.

(** [X14] A roster entry carries a comment exactly when some row of the
    respondent has a comment that is not blank, and the comment text is
    then not empty. *)
Theorem roster_comment_present_iff_not_blank :
  forall (df : DataFrame) (s : string)
         (ls : list Kano.Roster.Lojista) (l : Kano.Roster.Lojista),
    In (s, ls) (Kano.Roster.lojistas_list true df) -> In l ls ->
    exists row,
      In row (Kano.df_2025 df) /\ Tema row = TARGET
      /\ Kano.Roster.s l = Nota row
      /\ (Kano.Roster.t l = None <->
          forall r c, In r (Kano.df_2025 df) ->
                      ResponseID r = ResponseID row ->
                      Comentario r = Some c -> ~ not_blank c)
      /\ (forall txt, Kano.Roster.t l = Some txt -> txt <> EmptyString).
Proof.
  intros df s ls l H Hl.
  destruct (roster_entry df s ls l H Hl) as (row & Hrow & Ht & ->).
  exists row. split; [exact Hrow|]. split; [exact Ht|]. split; [reflexivity|].
  unfold Kano.Roster.lojista_of. cbn [Kano.Roster.t].
  rewrite <- comment_text_empty.
  destruct (String.eqb_spec
              (Kano.Roster.comment_text (Kano.df_2025 df) (ResponseID row))
              EmptyString) as [E|N].
  - split; [tauto|]. discriminate.
  - split; [split; [discriminate|contradiction]|]. now intros txt [= <-].
Qed.

Lemma roster_comment_present_iff_not_blank_witness :
  exists ls l,
    In ("X", ls) (Kano.Roster.lojistas_list true gap_respondent) /\ In l ls
    /\ Kano.Roster.t l = Some "bom"
    /\ exists row, In row (Kano.df_2025 gap_respondent)
                   /\ Kano.Roster.s l = Nota row.
Proof.
  pose (ls := snd (hd (EmptyString, [])
                      (Kano.Roster.lojistas_list true gap_respondent))).
  pose (l := hd (Kano.Roster.mkLojista EmptyString 0 EmptyString [] None) ls).
  assert (H : In ("X", ls) (Kano.Roster.lojistas_list true gap_respondent))
    by (vm_compute; left; reflexivity).
  assert (Hl : In l ls) by (vm_compute; left; reflexivity).
  exists ls, l. split; [exact H|]. split; [exact Hl|].
  split; [vm_compute; reflexivity|].
  destruct (roster_comment_present_iff_not_blank gap_respondent "X" ls l H Hl)
    as (row & Hrow & _ & Hs & _).
  exists row. split; assumption.
Defined.

Lemma substring_length (n : nat) (s : string) :
  (String.length (substring 0 n s) <= n)%nat.
Proof.
  revert s. induction n as [|n IH]; intros s.
  - destruct s; simpl; lia.
  - destruct s as [|c s]; simpl; [lia|]. specialize (IH s). lia.
Qed.

Lemma substring_chars (n : nat) (s : string) (c : ascii) :
  In c (chars (substring 0 n s)) -> In c (chars s).
Proof.
  revert s. induction n as [|n IH]; intros s.
  - destruct s; simpl; tauto.
  - destruct s as [|a s]; simpl; [tauto|].
    intros [E|H]; [now left|right; now apply IH].
Qed.

Lemma lstrip_chars (drop : ascii -> bool) (s : string) (c : ascii) :
  In c (chars (Kano.Roster.lstrip drop s)) -> In c (chars s).
Proof.
  induction s as [|a s IH]; simpl; [tauto|].
  destruct (drop a); [intros H; right; now apply IH|tauto].
Qed.

Lemma reverse_chars (s : string) (c : ascii) :
  In c (chars (Kano.Roster.reverse s)) <-> In c (chars s).
Proof.
  unfold Kano.Roster.reverse, chars.
  rewrite list_ascii_of_string_of_list_ascii. symmetry. apply in_rev.
Qed.

Lemma strip_chars (drop : ascii -> bool) (s : string) (c : ascii) :
  In c (chars (Kano.Roster.strip drop s)) -> In c (chars s).
Proof.
  unfold Kano.Roster.strip. intros H.
  apply reverse_chars, lstrip_chars, reverse_chars, lstrip_chars in H. exact H.
Qed.

Lemma upper_char_not_lower (c : ascii) :
  is_lower (Kano.Roster.upper_char c) = false.
Proof.
  destruct c as [[] [] [] [] [] [] [] []]; reflexivity.
Qed.

Lemma upper_chars (s : string) (c : ascii) :
  In c (chars (Kano.Roster.upper s)) -> is_lower c = false.
Proof.
  induction s as [|a s IH]; simpl; [tauto|].
  intros [<-|H]; [apply upper_char_not_lower|now apply IH].
Qed.

(** [X15] The name of a roster entry has at most 30 characters and no
    lower-case letter; a missing store name shows as NAN. *)
Theorem roster_name_upper_30 :
  forall (df : DataFrame) (s : string)
         (ls : list Kano.Roster.Lojista) (l : Kano.Roster.Lojista),
    In (s, ls) (Kano.Roster.lojistas_list true df) -> In l ls ->
    (String.length (Kano.Roster.n l) <= 30)%nat
    /\ (forall c, In c (chars (Kano.Roster.n l)) -> is_lower c = false)
    /\ exists row,
         In row (Kano.df_2025 df) /\ Tema row = TARGET
         /\ Kano.Roster.s l = Nota row
         /\ (Loja row = None -> Kano.Roster.n l = "NAN").
Proof.
  intros df s ls l H Hl.
  destruct (roster_entry df s ls l H Hl) as (row & Hrow & Ht & ->).
  unfold Kano.Roster.lojista_of. cbn [Kano.Roster.n Kano.Roster.s].
  split; [apply substring_length|]. split.
  - intros c Hc.
    apply substring_chars, strip_chars, upper_chars in Hc. exact Hc.
  - exists row. repeat split; try assumption.
    intros ->. reflexivity.
Qed.

Lemma roster_name_upper_30_witness :
  exists ls l,
    In ("X", ls) (Kano.Roster.lojistas_list true gap_respondent) /\ In l ls
    /\ Kano.Roster.n l = "LOJA UM"
    /\ (String.length (Kano.Roster.n l) <= 30)%nat.
Proof.
  pose (ls := snd (hd (EmptyString, [])
                      (Kano.Roster.lojistas_list true gap_respondent))).
  pose (l := hd (Kano.Roster.mkLojista EmptyString 0 EmptyString [] None) ls).
  assert (H : In ("X", ls) (Kano.Roster.lojistas_list true gap_respondent))
    by (vm_compute; left; reflexivity).
  assert (Hl : In l ls) by (vm_compute; left; reflexivity).
  exists ls, l. split; [exact H|]. split; [exact Hl|].
  split; [vm_compute; reflexivity|].
  exact (proj1 (roster_name_upper_30 gap_respondent "X" ls l H Hl)).
Defined.

(** ** The correlation lies between -1 and 1 *)

Lemma sum_sq_nonneg (l : list (Q * Q)) (f : Q * Q -> Q) :
  0 <= Qsum (map (fun p => f p * f p) l).
Proof.
  induction l as [|p l IH]; simpl; [apply Qle_refl|].
  assert (H : 0 <= f p * f p) by (generalize (f p); intros y; nra).
  lra.
Qed.

Lemma sum_combo (l : list (Q * Q)) (u w : Q) :
  Qsum (map (fun p => (u * snd p - w * fst p) * (u * snd p - w * fst p)) l)
  == u * u * Qsum (map (fun p => snd p * snd p) l)
     - 2 * u * w * Qsum (map (fun p => fst p * snd p) l)
     + w * w * Qsum (map (fun p => fst p * fst p) l).
Proof.
  induction l as [|p l IH]; simpl; [ring|]. rewrite IH. ring.
Qed.

Lemma sum_sq_zero (l : list (Q * Q)) :
  Qsum (map (fun p => fst p * fst p) l) == 0 ->
  Qsum (map (fun p => fst p * snd p) l) == 0.
Proof.
  induction l as [|p l IH]; simpl; [reflexivity|]. intros E.
  pose proof (sum_sq_nonneg l fst) as Hl.
  assert (Hp : 0 <= fst p * fst p) by (generalize (fst p); intros y; nra).
  assert (E1 : fst p * fst p == 0) by lra.
  assert (E2 : Qsum (map (fun p => fst p * fst p) l) == 0) by lra.
  apply Qmult_integral in E1.
  assert (Z : fst p == 0) by tauto.
  rewrite (IH E2), Z. ring.
Qed.

Lemma cauchy_schwarz (l : list (Q * Q)) :
  Qsum (map (fun p => fst p * snd p) l) * Qsum (map (fun p => fst p * snd p) l)
  <= Qsum (map (fun p => fst p * fst p) l) * Qsum (map (fun p => snd p * snd p) l).
Proof.
  set (A := Qsum (map (fun p => fst p * fst p) l)).
  set (B := Qsum (map (fun p => snd p * snd p) l)).
  set (C := Qsum (map (fun p => fst p * snd p) l)).
  pose proof (sum_sq_nonneg l fst) as HA. fold A in HA.
  destruct (Qeq_dec A 0) as [E|N].
  - pose proof (sum_sq_zero l E) as EC. fold C in EC.
    rewrite E, EC. lra.
  - assert (PA : 0 < A).
    { apply Qle_lteq in HA. destruct HA as [H|H]; [exact H|].
      exfalso. apply N. symmetry. exact H. }
    pose proof (sum_sq_nonneg l (fun p => A * snd p - C * fst p)) as H.
    rewrite (sum_combo l A C) in H. fold A B C in H.
    assert (H' : 0 <= A * (A * B - C * C)).
    { assert (E : A * (A * B - C * C) == A * A * B - 2 * A * C * C + C * C * A)
        by ring.
      rewrite E. exact H. }
    assert (G : 0 <= A * B - C * C).
    { destruct (Qlt_le_dec (A * B - C * C) 0) as [L|L]; [|exact L].
      exfalso. clear H HA. set (D := A * B - C * C) in *.
      assert (M : A * D < 0).
      { setoid_replace (A * D) with (- (A * (- D))) by ring.
        assert (P : 0 < A * (- D)) by (apply Qmult_lt_0_compat; lra).
        lra. }
      lra. }
    lra.
Qed.

Lemma combine_fst_snd {A B} (v : list (A * B)) :
  combine (map fst v) (map snd v) = v.
Proof.
  induction v as [|[a b] v IH]; simpl; [reflexivity|]. now rewrite IH.
Qed.

Lemma combine_diag {A} (l : list A) :
  combine l l = map (fun x => (x, x)) l.
Proof.
  induction l as [|a l IH]; simpl; [reflexivity|]. now rewrite IH.
Qed.

Lemma pearson_square_le (v : list (Q * Q)) (n d : Q) :
  pearson (map fst v) (map snd v) = Ratio n d -> n * n <= d.
Proof.
  unfold pearson.
  destruct (Qeq_bool _ 0); [discriminate|]. intros [= <- <-].
  unfold cov.
  rewrite combine_fst_snd, !combine_diag, !map_map. cbn [fst snd].
  set (mx := Qmean (map fst v)). set (my := Qmean (map snd v)).
  rewrite !len_map.
  set (k := inject_Z (len v - 1)).
  pose proof (cauchy_schwarz (map (dev mx my) v)) as CS.
  rewrite !map_map in CS. unfold dev in CS. cbn [fst snd] in CS.
  set (C := Qsum (map (fun p => (fst p - mx) * (snd p - my)) v)) in *.
  set (A := Qsum (map (fun p => (fst p - mx) * (fst p - mx)) v)) in *.
  set (B := Qsum (map (fun p => (snd p - my) * (snd p - my)) v)) in *.
  assert (K : 0 <= / k * / k) by (generalize (/ k); intros y; nra).
  unfold Qdiv.
  setoid_replace (C * / k * (C * / k)) with (C * C * (/ k * / k)) by ring.
  setoid_replace (A * / k * (B * / k)) with (A * B * (/ k * / k)) by ring.
  now apply Qmult_le_compat_r.
Qed.

Lemma rint_sqrt_range (q : Q) :
  0 <= q <= 1000000 -> (0 <= rint_sqrt q <= 1000)%Z.
Proof.
  intros [Hlo Hhi]. unfold rint_sqrt.
  set (F := Qfloor (4 * q)).
  assert (HF : (0 <= F <= 4000000)%Z).
  { subst F. split.
    - change 0%Z with (Qfloor 0). apply Qfloor_resp_le. lra.
    - change 4000000%Z with (Qfloor 4000000). apply Qfloor_resp_le. lra. }
  pose proof (Z.sqrt_nonneg F) as Hm.
  assert (Hm' : (Z.sqrt F <= 2000)%Z).
  { change 2000%Z with (Z.sqrt 4000000). apply Z.sqrt_le_mono. lia. }
  set (m := Z.sqrt F) in *.
  destruct (Z.even m) eqn:Ev.
  - split; [apply Z.div_pos; lia|]. apply Z.div_le_upper_bound; lia.
  - assert (m <> 2000%Z) by (intros ->; discriminate Ev).
    assert (J : (0 <= m / 2 <= 999)%Z).
    { split; [apply Z.div_pos; lia|].
      assert (m / 2 < 1000)%Z by (apply Z.div_lt_upper_bound; lia). lia. }
    destruct (Qeq_bool _ _); [destruct (Z.even (m / 2))|]; lia.
Qed.

Lemma corr_round3_range (n d : Q) :
  0 < d -> n * n <= d -> - (1) <= corr_round3 n d <= 1.
Proof.
  intros Hd Hn. unfold corr_round3.
  assert (Hq : 0 <= 1000000 * (n * n) / d <= 1000000).
  { split.
    - apply Qle_shift_div_l; [exact Hd|].
      generalize n. intros y. nra.
    - apply Qle_shift_div_r; [exact Hd|]. lra. }
  pose proof (rint_sqrt_range _ Hq) as [K0 K1].
  set (k := rint_sqrt _) in *.
  assert (E : forall z, inject_Z z / 1000 == inject_Z z * (1 # 1000))
    by (intros; reflexivity).
  rewrite E.
  destruct (Qltb n 0).
  - assert (L : (-1000 <= - k <= 0)%Z) by lia.
    destruct L as [L1 L2]. rewrite Zle_Qle in L1, L2.
    change (inject_Z (-1000)) with (- (1000)) in L1.
    change (inject_Z 0) with 0 in L2. lra.
  - rewrite Zle_Qle in K0, K1.
    change (inject_Z 1000) with 1000 in K1.
    change (inject_Z 0) with 0 in K0. lra.
Qed.

Lemma corr_real_range (n d : Q) :
  0 < d -> n * n <= d -> (-1 <= corr_real n d <= 1)%R.
Proof.
  intros Hd Hn. unfold corr_real.
  apply Qlt_Rlt in Hd. apply Qle_Rle in Hn. rewrite Q2R_mult in Hn.
  replace (Q2R 0) with 0%R in Hd by (unfold Q2R; simpl; Lra.lra).
  pose proof (sqrt_lt_R0 _ Hd) as Hs.
  pose proof (sqrt_sqrt (Q2R d) (Rlt_le _ _ Hd)) as Hss.
  set (S := sqrt (Q2R d)) in *. set (N := Q2R n) in *.
  rewrite <- Hss in Hn.
  assert (B : (- S <= N <= S)%R).
  { split.
    - destruct (Rle_lt_dec (- S) N) as [|L]; [assumption|]. exfalso.
      assert (S * S < (- N) * (- N))%R by (apply Rmult_le_0_lt_compat; Lra.lra).
      Lra.lra.
    - destruct (Rle_lt_dec N S) as [|L]; [assumption|]. exfalso.
      assert (S * S < N * N)%R by (apply Rmult_le_0_lt_compat; Lra.lra).
      Lra.lra. }
  assert (I : (0 < / S)%R) by now apply Rinv_0_lt_compat.
  unfold Rdiv. split.
  - replace (-1)%R with (- S * / S)%R by (field; Lra.lra).
    apply Rmult_le_compat_r; Lra.lra.
  - replace 1%R with (S * / S)%R by (field; Lra.lra).
    apply Rmult_le_compat_r; Lra.lra.
Qed.

(** [X16] The Pearson correlation of paired scores is between -1 and 1,
    and so is the correlation field of every emitted statistic. *)
Theorem correlation_within_unit :
  (forall (v : list (Q * Q)) (n d : Q),
      pearson (map fst v) (map snd v) = Ratio n d ->
      (-1 <= corr_real n d <= 1)%R)
  /\ (forall (df_sub : Kano.Pivot) (ths : list string) (st : Kano.Stat),
        In st (Kano.calculate_stats df_sub ths) ->
        - (1) <= Kano.r st <= 1).
Proof.
  split.
  - intros v n d H. apply corr_real_range.
    + exact (pearson_den_pos _ _ _ _ H).
    + exact (pearson_square_le _ _ _ H).
  - intros df_sub ths st Hst. apply calculate_stats_In in Hst.
    destruct Hst as (_ & t0 & _ & _ & _ & ->). simpl.
    destruct (pearson _ _) as [|n d] eqn:P; [lra|].
    apply corr_round3_range.
    + exact (pearson_den_pos _ _ _ _ P).
    + exact (pearson_square_le _ _ _ P).
Qed.

Lemma correlation_within_unit_witness :
  exists st, In st (Kano.kano_global five_paired)
             /\ - (1) <= Kano.r st <= 1.
Proof.
  pose (st := hd (Kano.mkStat EmptyString 0 0 0 0 Kano.per)
                 (Kano.kano_global five_paired)).
  assert (H : In st (Kano.kano_global five_paired))
    by (vm_compute; left; reflexivity).
  exists st. split; [exact H|].
  exact (proj2 correlation_within_unit _ _ st H).
Defined.

(** ** The histogram *)

Lemma Zsum_add {A} (f g : A -> Z) (l : list A) :
  Zsum (map (fun i => (f i + g i)%Z) l) = (Zsum (map f l) + Zsum (map g l))%Z.
Proof. induction l as [|a l IH]; simpl; lia. Qed.

Lemma Zsum_zero {A} (l : list A) : Zsum (map (fun _ => 0%Z) l) = 0%Z.
Proof. induction l as [|a l IH]; simpl; lia. Qed.

Lemma one_bin (x : Q) (bins : list nat) :
  NoDup bins ->
  Zsum (map (fun i => if Qeq_bool x (inject_Z (Z.of_nat i)) then 1%Z else 0%Z) bins)
  = if existsb (fun i => Qeq_bool x (inject_Z (Z.of_nat i))) bins then 1%Z else 0%Z.
Proof.
  induction 1 as [|i bins Hi Hnd IH]; simpl; [reflexivity|].
  rewrite IH.
  destruct (Qeq_bool x (inject_Z (Z.of_nat i))) eqn:E; simpl; [|reflexivity].
  destruct (existsb _ bins) eqn:X; [|reflexivity]. exfalso.
  apply existsb_exists in X. destruct X as (j & Hj & Ej).
  apply Qeq_bool_iff in E. apply Qeq_bool_iff in Ej.
  rewrite E in Ej. unfold Qeq in Ej. simpl in Ej.
  assert (i = j) by lia. subst j. contradiction.
Qed.

Lemma bins_exchange (notes : list Q) (bins : list nat) :
  NoDup bins ->
  Zsum (map (fun i => np_sum (map (fun x => Qeq_bool x (inject_Z (Z.of_nat i)))
                                  notes)) bins)
  = np_sum (map (fun x => existsb (fun i => Qeq_bool x (inject_Z (Z.of_nat i))) bins)
                notes).
Proof.
  intros Hnd. induction notes as [|x notes IH]; simpl.
  - apply Zsum_zero.
  - rewrite (Zsum_add
               (fun i => if Qeq_bool x (inject_Z (Z.of_nat i)) then 1%Z else 0%Z)
               (fun i => np_sum (map (fun x => Qeq_bool x (inject_Z (Z.of_nat i)))
                                     notes))).
    rewrite IH, (one_bin x bins Hnd). reflexivity.
Qed.

Lemma existsb_eqb_In (k : string) (l : list string) :
  existsb (String.eqb k) l = true <-> In k l.
Proof.
  rewrite existsb_exists. split.
  - intros (x & Hx & Ex). apply String.eqb_eq in Ex. now subst x.
  - intros H. exists k. split; [exact H|apply String.eqb_refl].
Qed.

Lemma script_saved (df : DataFrame) :
  existsb (fun kv => String.eqb (fst kv) "SDI") (Lojistas.output df) = true
  <-> exists r, In r (Lojistas.df_final df) /\ ShoppingCode r = Some "SDI".
Proof.
  rewrite <- lojistas_shoppings_In.
  rewrite existsb_keys. unfold Lojistas.output. rewrite dict_set_keys.
  rewrite (map_fst_pair (fun shop => Lojistas.per_period _)).
  destruct (existsb (String.eqb "GLOBAL") (Lojistas.shoppings df)).
  - apply existsb_eqb_In.
  - rewrite existsb_eqb_In, in_app_iff. split; [|now left].
    intros [H|[C|[]]]; [exact H|discriminate C].
Qed.

(** [X17] The period table script gets as far as the histogram, and as
    writing its dictionary, exactly when some finished target-topic
    response belongs to an entity coded SDI; otherwise [output['SDI']]
    raises KeyError first.  The histogram has 11 bins; together they count
    the rescaled 2025 scores that are integers from 0 to 10, so the bins
    add up to the number of responses exactly when every score is such an
    integer. *)
Theorem histogram_counts_integer_scores :
  forall df : DataFrame,
    let notes :=
      rescale (map Nota (filter (fun r => String.eqb (Lojistas.Period r) "2025")
                                (Lojistas.df_final df))) in
    ((exists js dist, Lojistas.script df = Lojistas.Saved js dist)
     <-> exists r, In r (Lojistas.df_final df) /\ ShoppingCode r = Some "SDI")
    /\ ((~ exists r, In r (Lojistas.df_final df) /\ ShoppingCode r = Some "SDI")
        -> Lojistas.script df = Lojistas.KeyError "SDI")
    /\ (forall js dist,
          Lojistas.script df = Lojistas.Saved js dist ->
          js = Lojistas.output df
          /\ List.length dist = 11%nat
          /\ Zsum dist = count in_bins notes
          /\ (Zsum dist <= len notes)%Z
          /\ (Zsum dist = len notes
              <-> Forall (fun x => in_bins x = true) notes)).
Proof.
  intros df notes.
  pose proof (script_saved df) as Hs.
  split; [|split].
  - unfold Lojistas.script. rewrite <- Hs.
    destruct (existsb _ (Lojistas.output df)).
    + split; [reflexivity|]. intros _. eexists. eexists. reflexivity.
    + split; [intros (js & dist & C); discriminate C|discriminate].
  - intros N. unfold Lojistas.script.
    destruct (existsb _ (Lojistas.output df)); [|reflexivity].
    exfalso. apply N, Hs. reflexivity.
  - intros js dist. unfold Lojistas.script.
    destruct (existsb _ (Lojistas.output df)); [|discriminate].
    intros [= <- <-]. split; [reflexivity|].
    assert (E : Zsum (Lojistas.dist_arr df) = count in_bins notes).
    { unfold Lojistas.dist_arr. fold notes.
      rewrite (bins_exchange notes (seq 0 11) (seq_NoDup 11 0)).
      apply np_sum_count. }
    split; [unfold Lojistas.dist_arr; now rewrite length_map, length_seq|].
    split; [exact E|]. rewrite E. unfold count, len.
    split; [pose proof (filter_length_le in_bins notes); lia|].
    split.
    + intros H. apply Nat2Z.inj in H.
      apply Forall_forall. intros x Hx.
      destruct (in_bins x) eqn:B; [reflexivity|]. exfalso.
      clear E. induction notes as [|y l IH]; [destruct Hx|].
      simpl in H. pose proof (filter_length_le in_bins l) as L.
      destruct (in_bins y) eqn:By; simpl in H.
      * destruct Hx as [->|Hx]; [congruence|]. apply IH; [lia|exact Hx].
      * lia.
    + intros F. f_equal. rewrite Forall_forall in F.
      rewrite (filter_ext_in in_bins (fun _ => true)).
      * clear. induction notes; simpl; congruence.
      * exact F.
Qed.

Lemma histogram_counts_integer_scores_witness :
  exists js dist,
    Lojistas.script sdi_gap_frame = Lojistas.Saved js dist
    /\ Zsum dist = 1%Z
    /\ ~ Forall (fun x => in_bins x = true)
          (rescale (map Nota (filter (fun r => String.eqb (Lojistas.Period r) "2025")
                                     (Lojistas.df_final sdi_gap_frame)))).
Proof.
  exists (Lojistas.output sdi_gap_frame), (Lojistas.dist_arr sdi_gap_frame).
  assert (S : Lojistas.script sdi_gap_frame
              = Lojistas.Saved (Lojistas.output sdi_gap_frame)
                               (Lojistas.dist_arr sdi_gap_frame))
    by (vm_compute; reflexivity).
  split; [exact S|].
  split; [vm_compute; reflexivity|].
  intros F.
  destruct (proj2 (proj2 (histogram_counts_integer_scores sdi_gap_frame)) _ _ S)
    as (_ & _ & _ & _ & H).
  apply H in F. vm_compute in F. discriminate F.
Defined.

(** ** Topics in order *)

Lemma ascii_compare_lt_trans (a b c : ascii) :
  Ascii.compare a b = Lt -> Ascii.compare b c = Lt -> Ascii.compare a c = Lt.
Proof.
  unfold Ascii.compare. rewrite !N.compare_lt_iff. apply N.lt_trans.
Qed.

Lemma string_compare_lt_trans (a b c : string) :
  String.compare a b = Lt -> String.compare b c = Lt -> String.compare a c = Lt.
Proof.
  revert b c. induction a as [|x a IH]; intros [|y b] [|z c]; simpl;
    try discriminate; try reflexivity.
  destruct (Ascii.compare x y) eqn:Exy; try discriminate.
  - apply Ascii.compare_eq_iff in Exy. subst y.
    destruct (Ascii.compare x z) eqn:Exz; try discriminate; [|reflexivity].
    apply IH.
  - intros _.
    destruct (Ascii.compare y z) eqn:Eyz; try discriminate.
    + apply Ascii.compare_eq_iff in Eyz. subst z. now rewrite Exy.
    + intros _. now rewrite (ascii_compare_lt_trans x y z Exy Eyz).
Qed.

Lemma string_leb_cases (a b : string) :
  String.leb a b = true <-> String.compare a b = Lt \/ a = b.
Proof.
  unfold String.leb. split.
  - destruct (String.compare a b) eqn:C; try discriminate.
    + right. now apply String.compare_eq_iff.
    + now left.
  - intros [E|E]; [now rewrite E|]. subst a.
    assert (E : String.compare b b = Eq).
    { pose proof (String.compare_antisym b b) as H.
      destruct (String.compare b b); simpl in H; congruence. }
    now rewrite E.
Qed.

Lemma string_leb_trans (a b c : string) :
  String.leb a b = true -> String.leb b c = true -> String.leb a c = true.
Proof.
  rewrite !string_leb_cases.
  intros [H1|E1] [H2|E2]; subst; auto.
  left. exact (string_compare_lt_trans a b c H1 H2).
Qed.

Lemma sorted_alphabetical (l : list string) : alphabetical (sorted l).
Proof.
  apply Sorted_StronglySorted.
  - intros a b c. apply string_leb_trans.
  - apply (sorted_by_Sorted String.leb String.leb_total).
Qed.

Lemma filter_alphabetical (f : string -> bool) (l : list string) :
  alphabetical l -> alphabetical (filter f l).
Proof.
  induction 1 as [|a l Hl IH Ha]; simpl; [constructor|].
  destruct (f a); [|exact IH].
  constructor; [exact IH|].
  rewrite Forall_forall in *. intros x Hx. apply filter_In in Hx. now apply Ha.
Qed.

Lemma themes_filter_temas (frame : DataFrame) :
  Kano.themes_of (Kano.pivot_of frame)
  = filter (fun c => negb (Kano.isin c [TARGET; "ShoppingCode"]))
           (sorted (unique (map Tema frame))).
Proof.
  unfold Kano.themes_of, Kano.pivot_of. cbn [Kano.columns].
  destruct (Kano.isin "ShoppingCode" _); [reflexivity|].
  rewrite filter_app. simpl. apply app_nil_r.
Qed.

Lemma calculate_stats_topics (pv : Kano.Pivot) (ths : list string) :
  wf_pivot pv ->
  map Kano.t (Kano.calculate_stats pv ths)
  = filter (fun t0 => (5 <=? paired_count pv t0)%Z) ths.
Proof.
  intros Hwf. unfold Kano.calculate_stats.
  destruct (Kano.isin TARGET (Kano.columns pv)) eqn:ET; simpl.
  - induction ths as [|t0 ths IH]; simpl; [reflexivity|].
    rewrite map_app, IH. rewrite <- len_valid_pairs.
    destruct (Kano.isin t0 (Kano.columns pv)) eqn:E0; simpl.
    + rewrite Z.ltb_antisym.
      destruct (5 <=? len (Kano.valid_pairs pv t0))%Z; reflexivity.
    + rewrite len_valid_pairs, (paired_count_no_column pv t0 Hwf); auto.
  - symmetry. rewrite (filter_ext_in _ (fun _ => false)); [apply filter_false|].
    intros t0 _. rewrite (paired_count_no_column pv t0 Hwf); auto.
Qed.

(** [X18] The analysed themes are in alphabetical order without
    repetition, and the global table and every per-entity table list, in
    that order, the themes with at least five paired respondents. *)
Theorem topics_listed_alphabetically :
  forall df : DataFrame,
    alphabetical (Kano.themes df)
    /\ NoDup (Kano.themes df)
    /\ map Kano.t (Kano.kano_global df)
       = filter (fun t0 => (5 <=? paired_count (Kano.pivot df) t0)%Z)
                (Kano.themes df)
    /\ (forall s sts,
          In (s, sts) (Kano.kano_by_shop df) ->
          map Kano.t sts
          = filter (fun t0 =>
                      (5 <=? paired_count (Kano.shop_frame (Kano.pivot df) s) t0)%Z)
                   (Kano.themes df)).
Proof.
  intros df.
  pose proof (wf_pivot_of (Kano.df_2025 df)) as Hwf. fold (Kano.pivot df) in Hwf.
  unfold Kano.themes, Kano.pivot. rewrite themes_filter_temas.
  split; [apply filter_alphabetical, sorted_alphabetical|].
  split; [apply NoDup_filter, sorted_NoDup, unique_NoDup|].
  rewrite <- themes_filter_temas. fold (Kano.pivot df). fold (Kano.themes df).
  split.
  - now apply calculate_stats_topics.
  - intros s sts Hs. rewrite (kano_by_shop_In df s sts Hs).
    apply calculate_stats_topics. now apply wf_shop_frame.
Qed.

Lemma topics_listed_alphabetically_witness :
  exists sts, In ("X", sts) (Kano.kano_by_shop five_paired)
              /\ map Kano.t sts = ["Limpeza"].
Proof.
  pose (sts := snd (hd (EmptyString, []) (Kano.kano_by_shop five_paired))).
  assert (H : In ("X", sts) (Kano.kano_by_shop five_paired))
    by (vm_compute; left; reflexivity).
  exists sts. split; [exact H|].
  rewrite (proj2 (proj2 (proj2 (topics_listed_alphabetically five_paired)))
                 "X" sts H).
  vm_compute. reflexivity.
Defined.

(** ** Nothing finished, nothing written *)

Lemma nil_of_no_In {A} (l : list A) : (forall x, ~ In x l) -> l = [].
Proof.
  destruct l as [|a l]; [reflexivity|]. intros H. exfalso. apply (H a). now left.
Qed.

(** [X19] Without any finished target-topic response of 2025 the
    classification script writes five empty constants.  Without any
    finished target-topic row at all, the period table script builds a
    dictionary with nothing but an empty GLOBAL list and then stops with
    the KeyError of [output['SDI']], before the histogram and before
    anything is written; the matrix has no line. *)
Theorem no_finished_response_empty_outputs :
  (forall (col_loja : bool) (df : DataFrame),
      (forall rid, ~ finished_target df rid) ->
      Kano.output_js col_loja df = ([], [], [], [], []))
  /\ (forall df : DataFrame,
        (forall r, In r df -> Tema r = TARGET -> Momento r = Fim -> False) ->
        Lojistas.output df = [("GLOBAL", [])]
        /\ Lojistas.script df = Lojistas.KeyError "SDI"
        /\ Matrix.final_df df = []).
Proof.
  split.
  - intros col_loja df H.
    assert (E : Kano.df_2025 df = []).
    { unfold Kano.df_2025.
      rewrite (nil_of_no_In (Kano.df_2025_selected df)); [reflexivity|].
      intros r Hr. apply selected_In in Hr. apply (H (ResponseID r)). tauto. }
    unfold Kano.output_js, Kano.kano_global, Kano.kano_by_shop, Kano.heatmap,
      Kano.Static.nps_static, Kano.Roster.lojistas_list, Kano.shoppings,
      Kano.themes, Kano.pivot.
    rewrite E. destruct col_loja; reflexivity.
  - intros df H.
    assert (E : Lojistas.df_final df = []).
    { apply nil_of_no_In. intros r Hr.
      change (Lojistas.df_final df) with (Matrix.df_fim df) in Hr.
      apply df_fim_In in Hr. destruct Hr as (Hr & Ht & Hm). exact (H r Hr Ht Hm). }
    assert (O : Lojistas.output df = [("GLOBAL", [])]).
    { unfold Lojistas.output, Lojistas.shoppings. rewrite E. reflexivity. }
    split; [exact O|]. split.
    + unfold Lojistas.script. rewrite O. reflexivity.
    + unfold Matrix.final_df, Matrix.grouped, Matrix.portfolio.
      change (Matrix.df_fim df) with (Lojistas.df_final df). rewrite E. reflexivity.
Qed.

Lemma no_finished_response_empty_outputs_witness :
  only_started <> []
  /\ Kano.output_js true only_started = ([], [], [], [], [])
  /\ Lojistas.script only_started = Lojistas.KeyError "SDI"
  /\ Matrix.final_df only_started = [].
Proof.
  split; [discriminate|]. split.
  - apply (proj1 no_finished_response_empty_outputs).
    intros rid (r & Hr & _ & _ & Ht & Hm).
    destruct Hr as [<-|[<-|[]]]; simpl in Ht, Hm; discriminate.
  - apply (proj2 no_finished_response_empty_outputs only_started).
    intros r Hr Ht Hm.
    destruct Hr as [<-|[<-|[]]]; simpl in Ht, Hm; discriminate.
Defined.
